(** * Offline media synchronisation (dashboard-ui/apiclient/sync/mediasync.js)

    The sync engine is continuation-passing JavaScript: every phase creates
    a Deferred, starts asynchronous work on the local asset manager or on
    the API client, and registers [done]/[fail] callbacks.  The embedding
    keeps that shape:

    - a function body is a program in a small effect monad [Prog], one
      effect per Deferred primitive ([Deferred()], [resolve], [reject],
      [done], [fail]), per asynchronous request and per [require];
    - a callback (a JavaScript function expression) is a constructor of
      [Cont], named after the line of the source where it is written, and
      [apply_cont] holds its body;
    - an event loop [step] runs the synchronous stack to completion and
      then completes one pending asynchronous task, chosen by the
      environment. *)

From Stdlib Require Import String List ZArith Bool Lia.
From Stdlib Require DecimalString.
From stdpp Require Import base gmap list strings.
Import ListNotations.

Local Open Scope string_scope.
Local Open Scope nat_scope.
Local Open Scope list_scope.

(** ** Data model *)

Module User.
Record t := mk { Id : string }.
End User.

Module ServerInfo.
(** [Users] may be absent ([serverInfo.Users || []]). *)
Record t := mk { Id : string; Users : option (list User.t) }.
End ServerInfo.

Module OfflineAction.
Record t := mk { Id : string; ServerId : string; Payload : string }.
End OfflineAction.

Module MediaStream.
Record t := mk { Type_ : string; Index : Z; Path : option string }.
End MediaStream.

Module MediaSource.
Record t := mk { MediaStreams : list MediaStream.t }.
End MediaSource.

Module LibraryItem.
(** Identities and tags are [null]/[undefined] in JavaScript when the item
    has no series, album or image: [option string]. *)
Record t := mk {
  Id : option string;
  ServerId : string;
  ImageTags : option (gmap string string);
  SeriesId : option string;
  SeriesPrimaryImageTag : option string;
  AlbumId : option string;
  AlbumPrimaryImageTag : option string;
  MediaSources : list MediaSource.t
}.
End LibraryItem.

Module AdditionalFile.
Record t := mk { Type_ : string; Index : Z; Name : string }.
End AdditionalFile.

Module JobItem.
Record t := mk {
  Item : LibraryItem.t;
  OriginalFileName : string;
  SyncJobItemId : string;
  AdditionalFiles : list AdditionalFile.t
}.
End JobItem.

Module LocalItem.
Record t := mk {
  ItemId : string;
  ServerId : string;
  LocalPath : string;
  UserIdsWithAccess : list string;
  Item : LibraryItem.t
}.
End LocalItem.

Module SyncDataRequest.
Record t := mk {
  TargetId : string;
  LocalItemIds : list string;
  OfflineUserIds : list string
}.
End SyncDataRequest.

Module SyncDataResult.
(** [ItemUserAccess] is a JavaScript object enumerated with [for ... in]:
    an association list, in enumeration order. *)
Record t := mk {
  ItemIdsToRemove : list string;
  ItemUserAccess : list (string * list string)
}.
End SyncDataResult.

Module ApiClient.
(** The synchronous part of the API client: identity, credential and the
    URL builders.  Its requests are the [Api_*] operations below. *)
Record t := mk {
  deviceId : string;
  accessToken : string;
  getUrl : string -> list (string * string) -> string;
  getImageUrl : string -> list (string * string) -> string
}.
End ApiClient.

(** JavaScript truthiness of a string-or-null value: [!x] holds for
    [null], [undefined] and the empty string. *)
Definition truthy (x : option string) : bool :=
  match x with
  | Some s => negb (String.eqb s "")
  | None => false
  end.

(** [Array.prototype.join(',')] on an array of strings. *)
Definition join (l : list string) : string := String.concat "," l.

(** [obj[key]] on an object enumerated as an association list. *)
Fixpoint assoc {A : Type} (key : string) (l : list (string * A)) : option A :=
  match l with
  | [] => None
  | (k, v) :: l' => if String.eqb k key then Some v else assoc key l'
  end.

(** ** Deferreds, requests and callbacks *)

Abbreviation DeferredId := nat.

(** Values passed to [done] callbacks. *)
Inductive Val :=
| VUndefined
| VActions (actions : list OfflineAction.t)
| VIds (ids : list string)
| VSyncDataResult (r : SyncDataResult.t)
| VJobItems (l : list JobItem.t)
| VLocalItem (i : LocalItem.t)
| VBool (b : bool)
| VString (s : string).

(** The asynchronous requests the engine sends to its two collaborators,
    [LocalAssetManager] (LAM) and the API client.  Each returns a promise
    that is settled in a later turn of the event loop. *)
Inductive Op :=
| LAM_getOfflineActions (serverId : string)
| Api_reportOfflineActions (actions : list OfflineAction.t)
| LAM_deleteOfflineActions (actions : list OfflineAction.t)
| LAM_getServerItemIds (serverId : string)
| Api_syncData (request : SyncDataRequest.t)
| LAM_removeLocalItem (itemId serverId : string)
| Api_getReadySyncItems (deviceId : string)
| LAM_createLocalItem (libraryItem : LibraryItem.t) (serverInfo : ServerInfo.t)
    (originalFileName : string)
| LAM_downloadFile (url localPath : string)
| LAM_addOrUpdateLocalItem (localItem : LocalItem.t)
| LAM_hasImage (serverId itemId imageTag : string)
| LAM_downloadImage (url serverId itemId imageTag : string)
| LAM_downloadSubtitles (url : string) (localItem : LocalItem.t)
    (stream : MediaStream.t)
| Api_reportSyncJobItemTransferred (syncJobItemId : string)
| LAM_getLocalItem (itemId serverId : string).

(** The function expressions of the source, with the variables each one
    closes over.  [cb_resolve d] stands for every
    [function () { deferred.resolve(); }] (lines 20, 52, 101, 153, 213,
    247, 347, 430, 491) and [cb_getOnFail d] for the closure returned by
    [getOnFail(deferred)] (line 503). *)
Inductive Cont :=
| cb_resolve (deferred : DeferredId)
| cb_getOnFail (deferred : DeferredId)
(* sync *)
| cb_sync_L11 (apiClient : ApiClient.t) (serverInfo : ServerInfo.t) (deferred : DeferredId)
| cb_sync_L14 (apiClient : ApiClient.t) (serverInfo : ServerInfo.t) (deferred : DeferredId)
| cb_sync_L17 (apiClient : ApiClient.t) (serverInfo : ServerInfo.t) (deferred : DeferredId)
(* reportOfflineActions *)
| cb_reportOfflineActions_L41 (apiClient : ApiClient.t) (serverInfo : ServerInfo.t)
    (deferred : DeferredId)
| cb_reportOfflineActions_L43 (apiClient : ApiClient.t) (deferred : DeferredId)
| cb_reportOfflineActions_L50 (actions : list OfflineAction.t) (deferred : DeferredId)
(* syncData *)
| cb_syncData_L72 (apiClient : ApiClient.t) (serverInfo : ServerInfo.t)
    (syncUserItemAccess : bool) (deferred : DeferredId)
| cb_syncData_L74 (apiClient : ApiClient.t) (serverInfo : ServerInfo.t)
    (syncUserItemAccess : bool) (deferred : DeferredId)
| cb_syncData_L82 (apiClient : ApiClient.t) (serverInfo : ServerInfo.t)
    (syncUserItemAccess : bool) (deferred : DeferredId)
(* afterSyncData *)
| cb_afterSyncData_L98 (serverInfo : ServerInfo.t) (enableSyncUserItemAccess : bool)
    (syncDataResult : SyncDataResult.t) (deferred : DeferredId)
(* removeNextLocalItem, removeLocalItem *)
| cb_removeNextLocalItem_L137 (itemIdsToRemove : list string) (index : nat)
    (serverId : string) (deferred : DeferredId)
| cb_removeNextLocalItem_L140 (itemIdsToRemove : list string) (index : nat)
    (serverId : string) (deferred : DeferredId)
| cb_removeLocalItem_L151 (itemId serverId : string) (deferred : DeferredId)
(* getNewMedia, getNextNewItem, getNewItem *)
| cb_getNewMedia_L169 (apiClient : ApiClient.t) (serverInfo : ServerInfo.t)
    (deferred : DeferredId)
| cb_getNextNewItem_L188 (jobItems : list JobItem.t) (index : nat)
    (apiClient : ApiClient.t) (serverInfo : ServerInfo.t) (deferred : DeferredId)
| cb_getNextNewItem_L191 (jobItems : list JobItem.t) (index : nat)
    (apiClient : ApiClient.t) (serverInfo : ServerInfo.t) (deferred : DeferredId)
| cb_getNewItem_L202 (jobItem : JobItem.t) (apiClient : ApiClient.t)
    (serverInfo : ServerInfo.t) (deferred : DeferredId)
| cb_getNewItem_L205 (jobItem : JobItem.t) (apiClient : ApiClient.t) (deferred : DeferredId)
| cb_getNewItem_L207 (jobItem : JobItem.t) (apiClient : ApiClient.t)
    (localItem : LocalItem.t) (deferred : DeferredId)
| cb_getNewItem_L209 (jobItem : JobItem.t) (apiClient : ApiClient.t)
    (localItem : LocalItem.t) (deferred : DeferredId)
| cb_getNewItem_L211 (jobItem : JobItem.t) (apiClient : ApiClient.t) (deferred : DeferredId)
(* downloadMedia *)
| cb_downloadMedia_L235 (apiClient : ApiClient.t) (jobItem : JobItem.t)
    (localItem : LocalItem.t) (deferred : DeferredId)
| cb_downloadMedia_L245 (localItem : LocalItem.t) (deferred : DeferredId)
(* getNextImage, downloadImage *)
| cb_getNextImage_L320 (index : nat) (apiClient : ApiClient.t)
    (localItem : LocalItem.t) (deferred : DeferredId)
| cb_downloadImage_L332 (apiClient : ApiClient.t) (serverId itemId imageTag imageType : string)
    (deferred : DeferredId)
| cb_downloadImage_L334 (apiClient : ApiClient.t) (serverId itemId imageTag imageType : string)
    (deferred : DeferredId)
(* getSubtitles, getNextSubtitle, getItemSubtitle *)
| cb_getSubtitles_L364 (apiClient : ApiClient.t) (jobItem : JobItem.t)
    (localItem : LocalItem.t) (deferred : DeferredId)
| cb_getNextSubtitle_L394 (files : list AdditionalFile.t) (index : nat)
    (apiClient : ApiClient.t) (jobItem : JobItem.t) (localItem : LocalItem.t)
    (mediaSource : MediaSource.t)
| cb_getNextSubtitle_L398 (files : list AdditionalFile.t) (index : nat)
    (apiClient : ApiClient.t) (jobItem : JobItem.t) (localItem : LocalItem.t)
    (mediaSource : MediaSource.t)
| cb_getItemSubtitle_L425 (url : string) (localItem : LocalItem.t)
    (subtitleStream : MediaStream.t) (deferred : DeferredId)
| cb_getItemSubtitle_L427 (localItem : LocalItem.t) (subtitleStream : MediaStream.t)
    (deferred : DeferredId)
(* syncNextUserAccessForItem, syncUserAccessForItem *)
| cb_syncNextUserAccessForItem_L465 (itemIds : list string) (index : nat)
    (syncDataResult : SyncDataResult.t) (serverId : string) (deferred : DeferredId)
| cb_syncNextUserAccessForItem_L468 (itemIds : list string) (index : nat)
    (syncDataResult : SyncDataResult.t) (serverId : string) (deferred : DeferredId)
| cb_syncUserAccessForItem_L478 (itemId : string) (syncDataResult : SyncDataResult.t)
    (deferred : DeferredId)
| cb_syncUserAccessForItem_L480 (itemId : string) (syncDataResult : SyncDataResult.t)
    (deferred : DeferredId).

(** ** The effect monad of function bodies *)

Inductive Eff : Type -> Type :=
| ENew : Eff DeferredId                         (* DeferredBuilder.Deferred() *)
| EResolve (d : DeferredId) (v : Val) : Eff unit  (* d.resolve(v) *)
| EReject (d : DeferredId) : Eff unit            (* d.reject() *)
| EDone (p : DeferredId) (c : Cont) : Eff unit   (* p.done(c) *)
| EFail (p : DeferredId) (c : Cont) : Eff unit   (* p.fail(c) *)
| EStart (op : Op) : Eff DeferredId              (* an asynchronous request *)
| ERequire (c : Cont) : Eff unit                 (* require([...], c) *)
| ELog (msg : string) : Eff unit.                (* Logger.log(msg) *)

(** [Throw] is an uncaught JavaScript exception (ReferenceError,
    TypeError): nothing in the file has a [try]. *)
Inductive Prog (A : Type) : Type :=
| Ret (a : A)
| Throw (err : string)
| Vis {X : Type} (e : Eff X) (k : X -> Prog A).

Arguments Ret {A} a.
Arguments Throw {A} err.
Arguments Vis {A X} e k.

Fixpoint bind {A B : Type} (m : Prog A) (f : A -> Prog B) : Prog B :=
  match m with
  | Ret a => f a
  | Throw err => Throw err
  | Vis e k => Vis e (fun x => bind (k x) f)
  end.

Declare Scope prog_scope.
Delimit Scope prog_scope with prog.
Bind Scope prog_scope with Prog.
Notation "x <- m ;; k" := (bind m (fun x => k))
  (at level 100, m at next level, right associativity) : prog_scope.
Notation "m ;;; k" := (bind m (fun _ => k))
  (at level 100, right associativity) : prog_scope.
Local Open Scope prog_scope.

Definition newDeferred : Prog DeferredId := Vis ENew Ret.
Definition resolve (d : DeferredId) (v : Val) : Prog unit := Vis (EResolve d v) Ret.
Definition reject (d : DeferredId) : Prog unit := Vis (EReject d) Ret.
Definition done (p : DeferredId) (c : Cont) : Prog unit := Vis (EDone p c) Ret.
Definition fail (p : DeferredId) (c : Cont) : Prog unit := Vis (EFail p c) Ret.
Definition start (op : Op) : Prog DeferredId := Vis (EStart op) Ret.
Definition require (c : Cont) : Prog unit := Vis (ERequire c) Ret.
Definition log (msg : string) : Prog unit := Vis (ELog msg) Ret.

(** ** Free identifiers

    Five identifiers are read in the file without being declared in it:
    [item] (line 277), [serverId] (line 480), [deferred] (line 390),
    [file] (line 394) and [logger] (line 367; the logging collaborator is
    [Logger]).  A free identifier is looked up in the global scope, which
    the file does not control: [Globals] says what, if anything, the page
    has bound there.  An unbound one raises a ReferenceError. *)

Record Globals := {
  g_item : option JobItem.t;
  g_serverId : option string;
  g_deferred : option DeferredId;
  g_file : option AdditionalFile.t;
  g_logger : bool
}.

(** The global scope as the file itself leaves it. *)
Definition no_globals : Globals :=
  {| g_item := None; g_serverId := None; g_deferred := None;
     g_file := None; g_logger := false |}.

Definition free {A : Type} (name : string) (binding : option A) : Prog A :=
  match binding with
  | Some v => Ret v
  | None => Throw ("ReferenceError: " ++ name ++ " is not defined")
  end.

Definition TypeError {A : Type} : Prog A := Throw "TypeError".

Section MediaSync.

Variable G : Globals.

(** *** Removal sub-phase (lines 116-161) *)

Definition removeLocalItem (itemId serverId : string) : Prog DeferredId :=
  log "Begin removeLocalItem" ;;;
  deferred <- newDeferred ;;
  require (cb_removeLocalItem_L151 itemId serverId deferred) ;;;
  Ret deferred.

Definition removeNextLocalItem (itemIdsToRemove : list string) (index : nat)
    (serverId : string) (deferred : DeferredId) : Prog unit :=
  if length itemIdsToRemove <=? index then resolve deferred VUndefined
  else
    match itemIdsToRemove !! index with
    | Some itemId =>
        p <- removeLocalItem itemId serverId ;;
        done p (cb_removeNextLocalItem_L137 itemIdsToRemove index serverId deferred) ;;;
        fail p (cb_removeNextLocalItem_L140 itemIdsToRemove index serverId deferred)
    | None => Ret tt            (* not reached: index < length *)
    end.

Definition removeLocalItems (syncDataResult : SyncDataResult.t) (serverId : string)
    : Prog DeferredId :=
  log "Begin removeLocalItems" ;;;
  deferred <- newDeferred ;;
  removeNextLocalItem (SyncDataResult.ItemIdsToRemove syncDataResult) 0 serverId deferred ;;;
  Ret deferred.

(** *** Access propagation (lines 440-500) *)

Definition syncUserAccessForItem (itemId : string) (syncDataResult : SyncDataResult.t)
    : Prog DeferredId :=
  log "Begin syncUserAccessForItem" ;;;
  deferred <- newDeferred ;;
  require (cb_syncUserAccessForItem_L478 itemId syncDataResult deferred) ;;;
  Ret deferred.

Definition syncNextUserAccessForItem (itemIds : list string) (index : nat)
    (syncDataResult : SyncDataResult.t) (serverId : string) (deferred : DeferredId)
    : Prog unit :=
  if length itemIds <=? index then resolve deferred VUndefined
  else
    match itemIds !! index with
    | Some itemId =>
        p <- syncUserAccessForItem itemId syncDataResult ;;
        done p (cb_syncNextUserAccessForItem_L465 itemIds index syncDataResult serverId deferred) ;;;
        fail p (cb_syncNextUserAccessForItem_L468 itemIds index syncDataResult serverId deferred)
    | None => Ret tt            (* not reached: index < length *)
    end.

Definition syncUserItemAccess (syncDataResult : SyncDataResult.t) (serverId : string)
    : Prog DeferredId :=
  log "Begin syncUserItemAccess" ;;;
  deferred <- newDeferred ;;
  let itemIds := map fst (SyncDataResult.ItemUserAccess syncDataResult) in
  syncNextUserAccessForItem itemIds 0 syncDataResult serverId deferred ;;;
  Ret deferred.

(** *** Reconciliation (lines 66-114) *)

Definition afterSyncData (apiClient : ApiClient.t) (serverInfo : ServerInfo.t)
    (enableSyncUserItemAccess : bool) (syncDataResult : SyncDataResult.t)
    (deferred : DeferredId) : Prog unit :=
  log "Begin afterSyncData" ;;;
  p <- removeLocalItems syncDataResult (ServerInfo.Id serverInfo) ;;
  done p (cb_afterSyncData_L98 serverInfo enableSyncUserItemAccess syncDataResult deferred) ;;;
  fail p (cb_getOnFail deferred) ;;;
  resolve deferred VUndefined.

Definition syncData (apiClient : ApiClient.t) (serverInfo : ServerInfo.t)
    (syncUserItemAccess : bool) : Prog DeferredId :=
  log "Begin syncData" ;;;
  deferred <- newDeferred ;;
  require (cb_syncData_L72 apiClient serverInfo syncUserItemAccess deferred) ;;;
  Ret deferred.

(** *** Offline action reporter (lines 35-64) *)

Definition reportOfflineActions (apiClient : ApiClient.t) (serverInfo : ServerInfo.t)
    : Prog DeferredId :=
  log "Begin reportOfflineActions" ;;;
  deferred <- newDeferred ;;
  require (cb_reportOfflineActions_L41 apiClient serverInfo deferred) ;;;
  Ret deferred.

(** *** Images (lines 260-357) *)

Definition downloadImage (apiClient : ApiClient.t)
    (serverId itemId imageTag imageType : string) : Prog DeferredId :=
  log "Begin downloadImage" ;;;
  deferred <- newDeferred ;;
  require (cb_downloadImage_L332 apiClient serverId itemId imageTag imageType deferred) ;;;
  Ret deferred.

(** The [switch (index)] of lines 284-308: identity, image kind and tag
    of a slot. *)
Definition imageSlot (index : nat) (libraryItem : LibraryItem.t)
    : option string * string * option string :=
  match index with
  | 0 => (LibraryItem.Id libraryItem, "Primary",
          default ∅ (LibraryItem.ImageTags libraryItem) !! "Primary")
  | 1 => (LibraryItem.SeriesId libraryItem, "Primary",
          LibraryItem.SeriesPrimaryImageTag libraryItem)
  | 2 => (LibraryItem.SeriesId libraryItem, "Thumb",
          LibraryItem.SeriesPrimaryImageTag libraryItem)
  | 3 => (LibraryItem.AlbumId libraryItem, "Primary",
          LibraryItem.AlbumPrimaryImageTag libraryItem)
  | _ => (None, "Primary", None)
  end.

(** [budget] bounds the direct recursive call of line 316; [getNextImage]
    gives it [4 - index], which that call never exhausts
    ([getNextImage_eq]). *)
Fixpoint getNextImage_rec (budget : nat) (index : nat) (apiClient : ApiClient.t)
    (localItem : LocalItem.t) (deferred : DeferredId) : Prog unit :=
  if 4 <=? index then resolve deferred VUndefined
  else
    item <- free "item" (g_item G) ;;
    let libraryItem := JobItem.Item item in
    let serverId := LibraryItem.ServerId libraryItem in
    let '(itemId, imageType, imageTag) := imageSlot index libraryItem in
    if negb (truthy itemId) then resolve deferred VUndefined
    else if negb (truthy imageTag) then
      match budget with
      | S budget' => getNextImage_rec budget' (index + 1) apiClient localItem deferred
      | 0 => Ret tt
      end
    else
      p <- downloadImage apiClient serverId (default "" itemId) (default "" imageTag)
             imageType ;;
      done p (cb_getNextImage_L320 index apiClient localItem deferred) ;;;
      fail p (cb_getOnFail deferred).

Definition getNextImage (index : nat) (apiClient : ApiClient.t)
    (localItem : LocalItem.t) (deferred : DeferredId) : Prog unit :=
  getNextImage_rec (4 - index) index apiClient localItem deferred.

Definition getImages (apiClient : ApiClient.t) (jobItem : JobItem.t)
    (localItem : LocalItem.t) : Prog DeferredId :=
  deferred <- newDeferred ;;
  getNextImage 0 apiClient localItem deferred ;;;
  Ret deferred.

(** *** Subtitles (lines 359-438) *)

Definition isSubtitleStreamFor (file : AdditionalFile.t) (m : MediaStream.t) : bool :=
  String.eqb (MediaStream.Type_ m) "Subtitle"
  && Z.eqb (MediaStream.Index m) (AdditionalFile.Index file).

(** [getItemSubtitle] returns [undefined] ([None]) on its missing-stream
    path (line 417), and its promise otherwise. *)
Definition getItemSubtitle (file : AdditionalFile.t) (apiClient : ApiClient.t)
    (jobItem : JobItem.t) (localItem : LocalItem.t) (mediaSource : MediaSource.t)
    : Prog (option DeferredId) :=
  log "Begin getItemSubtitle" ;;;
  deferred <- newDeferred ;;
  match head (List.filter (isSubtitleStreamFor file)
                (MediaSource.MediaStreams mediaSource)) with
  | None =>
      log "Cannot download subtitles because matching stream info wasn't found." ;;;
      reject deferred ;;;
      Ret None
  | Some subtitleStream =>
      let url := ApiClient.getUrl apiClient
                   ("Sync/JobItems/" ++ JobItem.SyncJobItemId jobItem ++ "/AdditionalFiles")
                   [("Name", AdditionalFile.Name file);
                    ("api_key", ApiClient.accessToken apiClient)] in
      require (cb_getItemSubtitle_L425 url localItem subtitleStream deferred) ;;;
      Ret (Some deferred)
  end.

Definition getNextSubtitle (files : list AdditionalFile.t) (index : nat)
    (apiClient : ApiClient.t) (jobItem : JobItem.t) (localItem : LocalItem.t)
    (mediaSource : MediaSource.t) : Prog unit :=
  if length files <=? index then
    deferred <- free "deferred" (g_deferred G) ;;
    resolve deferred VUndefined
  else
    file <- free "file" (g_file G) ;;
    r <- getItemSubtitle file apiClient jobItem localItem mediaSource ;;
    match r with
    | Some p =>
        done p (cb_getNextSubtitle_L394 files index apiClient jobItem localItem mediaSource) ;;;
        fail p (cb_getNextSubtitle_L398 files index apiClient jobItem localItem mediaSource)
    | None => TypeError
    end.

Definition getSubtitles (apiClient : ApiClient.t) (jobItem : JobItem.t)
    (localItem : LocalItem.t) : Prog DeferredId :=
  log "Begin getSubtitles" ;;;
  deferred <- newDeferred ;;
  require (cb_getSubtitles_L364 apiClient jobItem localItem deferred) ;;;
  Ret deferred.

(** *** Content fetcher (lines 163-258) *)

Definition downloadMedia (apiClient : ApiClient.t) (jobItem : JobItem.t)
    (localItem : LocalItem.t) : Prog DeferredId :=
  deferred <- newDeferred ;;
  require (cb_downloadMedia_L235 apiClient jobItem localItem deferred) ;;;
  Ret deferred.

Definition getNewItem (jobItem : JobItem.t) (apiClient : ApiClient.t)
    (serverInfo : ServerInfo.t) : Prog DeferredId :=
  log "Begin getNewItem" ;;;
  deferred <- newDeferred ;;
  require (cb_getNewItem_L202 jobItem apiClient serverInfo deferred) ;;;
  Ret deferred.

Definition getNextNewItem (jobItems : list JobItem.t) (index : nat)
    (apiClient : ApiClient.t) (serverInfo : ServerInfo.t) (deferred : DeferredId)
    : Prog unit :=
  if length jobItems <=? index then resolve deferred VUndefined
  else
    match jobItems !! index with
    | Some jobItem =>
        p <- getNewItem jobItem apiClient serverInfo ;;
        done p (cb_getNextNewItem_L188 jobItems index apiClient serverInfo deferred) ;;;
        fail p (cb_getNextNewItem_L191 jobItems index apiClient serverInfo deferred)
    | None => Ret tt            (* not reached: index < length *)
    end.

Definition getNewMedia (apiClient : ApiClient.t) (serverInfo : ServerInfo.t)
    : Prog DeferredId :=
  log "Begin getNewMedia" ;;;
  deferred <- newDeferred ;;
  p <- start (Api_getReadySyncItems (ApiClient.deviceId apiClient)) ;;
  done p (cb_getNewMedia_L169 apiClient serverInfo deferred) ;;;
  fail p (cb_getOnFail deferred) ;;;
  Ret deferred.

(** *** Orchestrator (lines 7-33) *)

Definition sync (apiClient : ApiClient.t) (serverInfo : ServerInfo.t) : Prog DeferredId :=
  deferred <- newDeferred ;;
  p <- reportOfflineActions apiClient serverInfo ;;
  done p (cb_sync_L11 apiClient serverInfo deferred) ;;;
  fail p (cb_getOnFail deferred) ;;;
  Ret deferred.

End MediaSync.

(** ** Callback bodies *)

Section Callbacks.

Variable G : Globals.

(** [subtitleStream.Path = subtitlePath] (line 429) assigns to one object:
    the stream that [filter(...)[0]] returned on lines 412-414, which is
    the first stream of the media source with the type and the index of
    [subtitleStream]. *)
Fixpoint setStreamPath (subtitleStream : MediaStream.t) (subtitlePath : string)
    (streams : list MediaStream.t) : list MediaStream.t :=
  match streams with
  | [] => []
  | m :: rest =>
      if String.eqb (MediaStream.Type_ m) (MediaStream.Type_ subtitleStream)
         && Z.eqb (MediaStream.Index m) (MediaStream.Index subtitleStream)
      then MediaStream.mk (MediaStream.Type_ m) (MediaStream.Index m) (Some subtitlePath)
           :: rest
      else m :: setStreamPath subtitleStream subtitlePath rest
  end.

(** The local item as line 430 persists it.  The embedding has values, not
    objects: the local item holds the library item of the job item, as the
    local item that [createLocalItem] builds does (see [perform]), so that
    the assignment of line 429 to the stream of the first media source is
    visible in it. *)
Definition recordSubtitlePath (subtitleStream : MediaStream.t) (subtitlePath : string)
    (localItem : LocalItem.t) : LocalItem.t :=
  let item := LocalItem.Item localItem in
  let sources :=
    match LibraryItem.MediaSources item with
    | [] => []
    | src :: rest =>
        MediaSource.mk (setStreamPath subtitleStream subtitlePath
                          (MediaSource.MediaStreams src)) :: rest
    end in
  LocalItem.mk (LocalItem.ItemId localItem) (LocalItem.ServerId localItem)
    (LocalItem.LocalPath localItem) (LocalItem.UserIdsWithAccess localItem)
    (LibraryItem.mk (LibraryItem.Id item) (LibraryItem.ServerId item)
       (LibraryItem.ImageTags item) (LibraryItem.SeriesId item)
       (LibraryItem.SeriesPrimaryImageTag item) (LibraryItem.AlbumId item)
       (LibraryItem.AlbumPrimaryImageTag item) sources).

(** [localItem.UserIdsWithAccess = userIdsWithAccess] (line 490). *)
Definition setUserIdsWithAccess (userIdsWithAccess : list string)
    (localItem : LocalItem.t) : LocalItem.t :=
  LocalItem.mk (LocalItem.ItemId localItem) (LocalItem.ServerId localItem)
    (LocalItem.LocalPath localItem) userIdsWithAccess (LocalItem.Item localItem).

Definition apply_cont (c : Cont) (v : Val) : Prog unit :=
  match c with
  | cb_resolve deferred => resolve deferred VUndefined
  | cb_getOnFail deferred => reject deferred

  (* lines 11-30 *)
  | cb_sync_L11 apiClient serverInfo deferred =>
      p <- syncData apiClient serverInfo false ;;
      done p (cb_sync_L14 apiClient serverInfo deferred) ;;;
      fail p (cb_getOnFail deferred)
  | cb_sync_L14 apiClient serverInfo deferred =>
      p <- getNewMedia apiClient serverInfo ;;
      done p (cb_sync_L17 apiClient serverInfo deferred) ;;;
      fail p (cb_getOnFail deferred)
  | cb_sync_L17 apiClient serverInfo deferred =>
      p <- syncData apiClient serverInfo false ;;
      done p (cb_resolve deferred) ;;;
      fail p (cb_getOnFail deferred)

  (* lines 41-61 *)
  | cb_reportOfflineActions_L41 apiClient serverInfo deferred =>
      p <- start (LAM_getOfflineActions (ServerInfo.Id serverInfo)) ;;
      done p (cb_reportOfflineActions_L43 apiClient deferred) ;;;
      fail p (cb_getOnFail deferred)
  | cb_reportOfflineActions_L43 apiClient deferred =>
      match v with
      | VActions actions =>
          if length actions =? 0 then resolve deferred VUndefined
          else
            p <- start (Api_reportOfflineActions actions) ;;
            done p (cb_reportOfflineActions_L50 actions deferred) ;;;
            fail p (cb_getOnFail deferred)
      | _ => TypeError
      end
  | cb_reportOfflineActions_L50 actions deferred =>
      p <- start (LAM_deleteOfflineActions actions) ;;
      done p (cb_resolve deferred) ;;;
      fail p (cb_getOnFail deferred)

  (* lines 72-89 *)
  | cb_syncData_L72 apiClient serverInfo syncUserItemAccess deferred =>
      p <- start (LAM_getServerItemIds (ServerInfo.Id serverInfo)) ;;
      done p (cb_syncData_L74 apiClient serverInfo syncUserItemAccess deferred) ;;;
      fail p (cb_getOnFail deferred)
  | cb_syncData_L74 apiClient serverInfo syncUserItemAccess deferred =>
      match v with
      | VIds localIds =>
          let request :=
            SyncDataRequest.mk (ApiClient.deviceId apiClient) localIds
              (map User.Id (default [] (ServerInfo.Users serverInfo))) in
          p <- start (Api_syncData request) ;;
          done p (cb_syncData_L82 apiClient serverInfo syncUserItemAccess deferred) ;;;
          fail p (cb_getOnFail deferred)
      | _ => TypeError
      end
  | cb_syncData_L82 apiClient serverInfo syncUserItemAccess deferred =>
      match v with
      | VSyncDataResult result =>
          afterSyncData apiClient serverInfo syncUserItemAccess result deferred
      | _ => TypeError
      end

  (* lines 98-111 *)
  | cb_afterSyncData_L98 serverInfo enableSyncUserItemAccess syncDataResult deferred =>
      if enableSyncUserItemAccess then
        p <- syncUserItemAccess syncDataResult (ServerInfo.Id serverInfo) ;;
        done p (cb_resolve deferred) ;;;
        fail p (cb_getOnFail deferred)
      else resolve deferred VUndefined

  (* lines 137-142, 151-158 *)
  | cb_removeNextLocalItem_L137 itemIdsToRemove index serverId deferred =>
      removeNextLocalItem itemIdsToRemove (index + 1) serverId deferred
  | cb_removeNextLocalItem_L140 itemIdsToRemove index serverId deferred =>
      removeNextLocalItem itemIdsToRemove (index + 1) serverId deferred
  | cb_removeLocalItem_L151 itemId serverId deferred =>
      p <- start (LAM_removeLocalItem itemId serverId) ;;
      done p (cb_resolve deferred) ;;;
      fail p (cb_getOnFail deferred)

  (* lines 169-173, 188-193 *)
  | cb_getNewMedia_L169 apiClient serverInfo deferred =>
      match v with
      | VJobItems jobItems => getNextNewItem jobItems 0 apiClient serverInfo deferred
      | _ => TypeError
      end
  | cb_getNextNewItem_L188 jobItems index apiClient serverInfo deferred =>
      getNextNewItem jobItems (index + 1) apiClient serverInfo deferred
  | cb_getNextNewItem_L191 jobItems index apiClient serverInfo deferred =>
      getNextNewItem jobItems (index + 1) apiClient serverInfo deferred

  (* lines 202-226 *)
  | cb_getNewItem_L202 jobItem apiClient serverInfo deferred =>
      let libraryItem := JobItem.Item jobItem in
      p <- start (LAM_createLocalItem libraryItem serverInfo
                    (JobItem.OriginalFileName jobItem)) ;;
      done p (cb_getNewItem_L205 jobItem apiClient deferred) ;;;
      fail p (cb_getOnFail deferred)
  | cb_getNewItem_L205 jobItem apiClient deferred =>
      match v with
      | VLocalItem localItem =>
          p <- downloadMedia apiClient jobItem localItem ;;
          done p (cb_getNewItem_L207 jobItem apiClient localItem deferred) ;;;
          fail p (cb_getOnFail deferred)
      | _ => TypeError
      end
  | cb_getNewItem_L207 jobItem apiClient localItem deferred =>
      p <- getImages G apiClient jobItem localItem ;;
      done p (cb_getNewItem_L209 jobItem apiClient localItem deferred) ;;;
      fail p (cb_getOnFail deferred)
  | cb_getNewItem_L209 jobItem apiClient localItem deferred =>
      p <- getSubtitles apiClient jobItem localItem ;;
      done p (cb_getNewItem_L211 jobItem apiClient deferred) ;;;
      fail p (cb_getOnFail deferred)
  | cb_getNewItem_L211 jobItem apiClient deferred =>
      p <- start (Api_reportSyncJobItemTransferred (JobItem.SyncJobItemId jobItem)) ;;
      done p (cb_resolve deferred) ;;;
      fail p (cb_getOnFail deferred)

  (* lines 235-255 *)
  | cb_downloadMedia_L235 apiClient jobItem localItem deferred =>
      let url := ApiClient.getUrl apiClient
                   ("Sync/JobItems/" ++ JobItem.SyncJobItemId jobItem ++ "/File")
                   [("api_key", ApiClient.accessToken apiClient)] in
      let localPath := LocalItem.LocalPath localItem in
      log ("Downloading media. Url: " ++ url ++ ". Local path: " ++ localPath) ;;;
      p <- start (LAM_downloadFile url localPath) ;;
      done p (cb_downloadMedia_L245 localItem deferred) ;;;
      fail p (cb_getOnFail deferred)
  | cb_downloadMedia_L245 localItem deferred =>
      p <- start (LAM_addOrUpdateLocalItem localItem) ;;
      done p (cb_resolve deferred) ;;;
      fail p (cb_getOnFail deferred)

  (* lines 320-324, 332-354 *)
  | cb_getNextImage_L320 index apiClient localItem deferred =>
      getNextImage G (index + 1) apiClient localItem deferred
  | cb_downloadImage_L332 apiClient serverId itemId imageTag imageType deferred =>
      p <- start (LAM_hasImage serverId itemId imageTag) ;;
      done p (cb_downloadImage_L334 apiClient serverId itemId imageTag imageType deferred)
  | cb_downloadImage_L334 apiClient serverId itemId imageTag imageType deferred =>
      match v with
      | VBool hasImage =>
          if hasImage then resolve deferred VUndefined
          else
            let imageUrl := ApiClient.getImageUrl apiClient itemId
                              [("Tag", imageTag); ("ImageType", imageType);
                               ("api_key", ApiClient.accessToken apiClient)] in
            p <- start (LAM_downloadImage imageUrl serverId itemId imageTag) ;;
            done p (cb_resolve deferred) ;;;
            fail p (cb_getOnFail deferred)
      | _ => TypeError
      end

  (* lines 364-379, 394-400, 425-435 *)
  | cb_getSubtitles_L364 apiClient jobItem localItem deferred =>
      match LibraryItem.MediaSources (JobItem.Item jobItem) with
      | [] =>
          (if g_logger G
           then log "Cannot download subtitles because video has no media source info."
           else Throw "ReferenceError: logger is not defined") ;;;
          resolve deferred VUndefined
      | mediaSource :: _ =>
          let files := List.filter (fun f => String.eqb (AdditionalFile.Type_ f) "Subtitles")
                         (JobItem.AdditionalFiles jobItem) in
          getNextSubtitle G files 0 apiClient jobItem localItem mediaSource
      end
  | cb_getNextSubtitle_L394 files index apiClient jobItem localItem mediaSource =>
      getNextSubtitle G files (index + 1) apiClient jobItem localItem mediaSource
  | cb_getNextSubtitle_L398 files index apiClient jobItem localItem mediaSource =>
      getNextSubtitle G files (index + 1) apiClient jobItem localItem mediaSource
  | cb_getItemSubtitle_L425 url localItem subtitleStream deferred =>
      p <- start (LAM_downloadSubtitles url localItem subtitleStream) ;;
      done p (cb_getItemSubtitle_L427 localItem subtitleStream deferred) ;;;
      fail p (cb_getOnFail deferred)
  | cb_getItemSubtitle_L427 localItem subtitleStream deferred =>
      match v with
      | VString subtitlePath =>
          p <- start (LAM_addOrUpdateLocalItem
                        (recordSubtitlePath subtitleStream subtitlePath localItem)) ;;
          done p (cb_resolve deferred) ;;;
          fail p (cb_getOnFail deferred)
      | _ => TypeError
      end

  (* lines 465-470, 478-497 *)
  | cb_syncNextUserAccessForItem_L465 itemIds index syncDataResult serverId deferred =>
      syncNextUserAccessForItem itemIds (index + 1) syncDataResult serverId deferred
  | cb_syncNextUserAccessForItem_L468 itemIds index syncDataResult serverId deferred =>
      syncNextUserAccessForItem itemIds (index + 1) syncDataResult serverId deferred
  | cb_syncUserAccessForItem_L478 itemId syncDataResult deferred =>
      serverId <- free "serverId" (g_serverId G) ;;
      p <- start (LAM_getLocalItem itemId serverId) ;;
      done p (cb_syncUserAccessForItem_L480 itemId syncDataResult deferred) ;;;
      fail p (cb_getOnFail deferred)
  | cb_syncUserAccessForItem_L480 itemId syncDataResult deferred =>
      match v, assoc itemId (SyncDataResult.ItemUserAccess syncDataResult) with
      | VLocalItem localItem, Some userIdsWithAccess =>
          if String.eqb (join userIdsWithAccess) (join (LocalItem.UserIdsWithAccess localItem))
          then resolve deferred VUndefined
          else
            p <- start (LAM_addOrUpdateLocalItem
                          (setUserIdsWithAccess userIdsWithAccess localItem)) ;;
            done p (cb_resolve deferred) ;;;
            fail p (cb_getOnFail deferred)
      | _, _ => TypeError
      end
  end.

End Callbacks.

(** ** The collaborators: local store and server *)

(** What [LocalAssetManager] keeps on the device. *)
Record Store := mkStore {
  st_actions : list OfflineAction.t;
  st_items : list LocalItem.t;
  st_images : list (string * string * string);
  st_files : list string
}.

(** The outside world: which request fails, what the server answers, where
    the device stores files, and which pending request completes next.
    Every field may depend on the time [clock] of the event loop. *)
Record Env := mkEnv {
  env_fails : nat -> Op -> bool;
  env_syncData : nat -> SyncDataRequest.t -> SyncDataResult.t;
  env_readyItems : nat -> string -> list JobItem.t;
  env_localPath : LibraryItem.t -> string -> string;
  env_subtitlePath : LocalItem.t -> MediaStream.t -> string;
  env_pick : nat -> nat
}.

Definition sameAction (a b : OfflineAction.t) : bool :=
  String.eqb (OfflineAction.Id a) (OfflineAction.Id b)
  && String.eqb (OfflineAction.ServerId a) (OfflineAction.ServerId b).

Definition isLocalItem (itemId serverId : string) (i : LocalItem.t) : bool :=
  String.eqb (LocalItem.ItemId i) itemId && String.eqb (LocalItem.ServerId i) serverId.

Definition isImage (serverId itemId imageTag : string) (x : string * string * string) : bool :=
  let '(s, i, t) := x in
  String.eqb s serverId && String.eqb i itemId && String.eqb t imageTag.

Definition putLocalItem (localItem : LocalItem.t) (items : list LocalItem.t)
    : list LocalItem.t :=
  let same := isLocalItem (LocalItem.ItemId localItem) (LocalItem.ServerId localItem) in
  if existsb same items
  then map (fun i => if same i then localItem else i) items
  else items ++ [localItem].

(** Modelled from the spec: the Local Store and Remote API Client contracts
    of section 6, whose implementations (localassetmanager, the API client)
    are not part of this file.  A failing request leaves the store as it
    was; a succeeding one does what its contract says: queued-action
    read/delete by server id, item identity enumeration by server id, local
    item create/read/update/delete, image existence check by (server, item,
    tag), download to a local path.  The result is the value handed to the
    [done] callbacks, [None] when the promise is rejected. *)
Definition perform (E : Env) (clock : nat) (op : Op) (st : Store) : option Val * Store :=
  if env_fails E clock op then (None, st)
  else
    match op with
    | LAM_getOfflineActions serverId =>
        (Some (VActions (List.filter (fun a => String.eqb (OfflineAction.ServerId a) serverId)
                           (st_actions st))), st)
    | Api_reportOfflineActions _ => (Some VUndefined, st)
    | LAM_deleteOfflineActions actions =>
        (Some VUndefined,
         mkStore (List.filter (fun a => negb (existsb (sameAction a) actions)) (st_actions st))
           (st_items st) (st_images st) (st_files st))
    | LAM_getServerItemIds serverId =>
        (Some (VIds (map LocalItem.ItemId
                       (List.filter (fun i => String.eqb (LocalItem.ServerId i) serverId)
                          (st_items st)))), st)
    | Api_syncData request => (Some (VSyncDataResult (env_syncData E clock request)), st)
    | LAM_removeLocalItem itemId serverId =>
        (Some VUndefined,
         mkStore (st_actions st)
           (List.filter (fun i => negb (isLocalItem itemId serverId i)) (st_items st))
           (st_images st) (st_files st))
    | Api_getReadySyncItems deviceId => (Some (VJobItems (env_readyItems E clock deviceId)), st)
    | LAM_createLocalItem libraryItem serverInfo originalFileName =>
        (Some (VLocalItem
                 (LocalItem.mk (default "" (LibraryItem.Id libraryItem))
                    (ServerInfo.Id serverInfo)
                    (env_localPath E libraryItem originalFileName) [] libraryItem)), st)
    | LAM_downloadFile _ localPath =>
        (Some VUndefined,
         mkStore (st_actions st) (st_items st) (st_images st) (st_files st ++ [localPath]))
    | LAM_addOrUpdateLocalItem localItem =>
        (Some VUndefined,
         mkStore (st_actions st) (putLocalItem localItem (st_items st))
           (st_images st) (st_files st))
    | LAM_hasImage serverId itemId imageTag =>
        (Some (VBool (existsb (isImage serverId itemId imageTag) (st_images st))), st)
    | LAM_downloadImage _ serverId itemId imageTag =>
        (Some VUndefined,
         mkStore (st_actions st) (st_items st)
           (st_images st ++ [(serverId, itemId, imageTag)]) (st_files st))
    | LAM_downloadSubtitles _ localItem stream =>
        let path := env_subtitlePath E localItem stream in
        (Some (VString path),
         mkStore (st_actions st) (st_items st) (st_images st) (st_files st ++ [path]))
    | Api_reportSyncJobItemTransferred _ => (Some VUndefined, st)
    | LAM_getLocalItem itemId serverId =>
        match find (isLocalItem itemId serverId) (st_items st) with
        | Some localItem => (Some (VLocalItem localItem), st)
        | None => (None, st)
        end
    end.

(** ** The event loop *)

Inductive Status :=
| Pending
| Resolved (v : Val)
| Rejected.

(** A Deferred: its state and the callbacks waiting on it, in registration
    order. *)
Record Cell := mkCell {
  status : Status;
  dones : list Cont;
  fails : list Cont
}.

(** Work in flight outside the script: a [require] whose callback has not
    run yet, a request whose promise [p] has not been settled yet. *)
Inductive Task :=
| TRequire (c : Cont)
| TOp (op : Op) (p : DeferredId).

Inductive Event :=
| EvLog (msg : string)
| EvStart (op : Op)
| EvOk (op : Op)
| EvFailed (op : Op)
| EvSettled (d : DeferredId) (resolved : bool)
| EvUncaught (err : string).

Record State := mkState {
  heap : gmap nat Cell;         (* the Deferreds created so far *)
  next : nat;                   (* the identity of the next one *)
  stack : list (Prog unit);
  queue : list Task;
  store : Store;
  clock : nat;
  trace : list Event            (* latest event first *)
}.

Definition set_stack (st : list (Prog unit)) (s : State) : State :=
  mkState (heap s) (next s) st (queue s) (store s) (clock s) (trace s).

Definition set_heap (h : gmap nat Cell) (s : State) : State :=
  mkState h (next s) (stack s) (queue s) (store s) (clock s) (trace s).

Definition emit (e : Event) (s : State) : State :=
  mkState (heap s) (next s) (stack s) (queue s) (store s) (clock s) (e :: trace s).

Definition alloc (s : State) : State :=
  mkState (<[next s := mkCell Pending [] []]> (heap s)) (S (next s))
    (stack s) (queue s) (store s) (clock s) (trace s).

Definition enqueue (t : Task) (s : State) : State :=
  mkState (heap s) (next s) (stack s) (queue s ++ [t]) (store s) (clock s) (trace s).

(** The task that completes next: the only one if there is only one, else
    the one the environment points at, the oldest one when it points
    outside the queue. *)
Definition take_task (i : nat) (q : list Task) : option (Task * list Task) :=
  match q with
  | [] => None
  | [t] => Some (t, [])
  | t :: q' =>
      match q !! i with
      | Some t' => Some (t', delete i q)
      | None => Some (t, q')
      end
  end.

Section EventLoop.

Variable G : Globals.
Variable E : Env.

(** Modelled from the spec: DeferredBuilder and the module loader behind
    [require] are not part of this file.  Section 5 of the specification
    has every network and storage operation non-blocking, the pipeline
    advancing only through completion callbacks, on a single thread.  The
    Deferreds follow the contract of jQuery's, which DeferredBuilder wraps:
    a Deferred is settled once, later [resolve]/[reject] calls do nothing;
    settling runs the waiting callbacks at once, in registration order;
    [done]/[fail] on a settled Deferred runs the callback at once.  A
    Deferred that is not on the heap belongs to another script; a request
    and a [require] complete in a later turn of the event loop. *)
Definition exec {X : Type} (e : Eff X)
    : (X -> Prog unit) -> list (Prog unit) -> State -> State :=
  match e in Eff X return (X -> Prog unit) -> list (Prog unit) -> State -> State with
  | ENew => fun k rest s =>
      set_stack (k (next s) :: rest) (alloc s)
  | EResolve d v => fun k rest s =>
      match heap s !! d with
      | Some (mkCell Pending ds _) =>
          set_stack (map (fun c => apply_cont G c v) ds ++ k tt :: rest)
            (emit (EvSettled d true)
               (set_heap (<[d := mkCell (Resolved v) [] []]> (heap s)) s))
      | _ => set_stack (k tt :: rest) s
      end
  | EReject d => fun k rest s =>
      match heap s !! d with
      | Some (mkCell Pending _ fs) =>
          set_stack (map (fun c => apply_cont G c VUndefined) fs ++ k tt :: rest)
            (emit (EvSettled d false)
               (set_heap (<[d := mkCell Rejected [] []]> (heap s)) s))
      | _ => set_stack (k tt :: rest) s
      end
  | EDone p c => fun k rest s =>
      match heap s !! p with
      | Some (mkCell Pending ds fs) =>
          set_stack (k tt :: rest)
            (set_heap (<[p := mkCell Pending (ds ++ [c]) fs]> (heap s)) s)
      | Some (mkCell (Resolved v) _ _) =>
          set_stack (apply_cont G c v :: k tt :: rest) s
      | _ => set_stack (k tt :: rest) s
      end
  | EFail p c => fun k rest s =>
      match heap s !! p with
      | Some (mkCell Pending ds fs) =>
          set_stack (k tt :: rest)
            (set_heap (<[p := mkCell Pending ds (fs ++ [c])]> (heap s)) s)
      | Some (mkCell Rejected _ _) =>
          set_stack (apply_cont G c VUndefined :: k tt :: rest) s
      | _ => set_stack (k tt :: rest) s
      end
  | EStart op => fun k rest s =>
      set_stack (k (next s) :: rest)
        (emit (EvStart op) (enqueue (TOp op (next s)) (alloc s)))
  | ERequire c => fun k rest s =>
      set_stack (k tt :: rest) (enqueue (TRequire c) s)
  | ELog msg => fun k rest s =>
      set_stack (k tt :: rest) (emit (EvLog msg) s)
  end.

(** One turn: complete the task [t], which puts its callback on the
    stack. *)
Definition complete (t : Task) (q : list Task) (s : State) : State :=
  match t with
  | TRequire c =>
      mkState (heap s) (next s) [apply_cont G c VUndefined] q (store s)
        (S (clock s)) (trace s)
  | TOp op p =>
      match perform E (clock s) op (store s) with
      | (Some v, st') =>
          mkState (heap s) (next s) [resolve p v] q st' (S (clock s))
            (EvOk op :: trace s)
      | (None, st') =>
          mkState (heap s) (next s) [reject p] q st' (S (clock s))
            (EvFailed op :: trace s)
      end
  end.

(** The script runs until its stack is empty; an uncaught exception
    empties it.  Then the next pending task completes. *)
Definition step (s : State) : State :=
  match stack s with
  | Ret _ :: rest => set_stack rest s
  | Throw err :: _ => set_stack [] (emit (EvUncaught err) s)
  | Vis e k :: rest => exec e k rest s
  | [] =>
      match take_task (env_pick E (clock s)) (queue s) with
      | Some (t, q) => complete t q s
      | None => s
      end
  end.

Fixpoint run (n : nat) (s : State) : State :=
  match n with
  | 0 => s
  | S n' => run n' (step s)
  end.

(** The script is called on an idle page.  Every function of the file
    that returns a promise creates its Deferred first: in a run booted on
    such a function, Deferred number 0 is the one whose promise the
    function returns. *)
Definition boot {A : Type} (main : Prog A) (st : Store) : State :=
  mkState ∅ 0 [main ;;; Ret tt] [] st 0 [].

End EventLoop.

(** Observations on a state. *)
Definition history (s : State) : list Event := rev (trace s).

Definition status_of (d : DeferredId) (s : State) : option Status :=
  status <$> heap s !! d.

Definition quiescent (s : State) : bool :=
  match stack s, queue s with
  | [], [] => true
  | _, _ => false
  end.

Definition started (s : State) : list Op :=
  omap (fun e => match e with EvStart op => Some op | _ => None end) (history s).

(** * Vocabulary of the properties *)

(** ** States *)

(** Deferreds are numbered in the order of their creation. *)
Definition wf (s : State) : Prop :=
  forall d, next s <= d -> heap s !! d = None.

(** A promise that has been resolved or rejected. *)
Definition settled (o : option Status) : bool :=
  match o with
  | Some (Resolved _) | Some Rejected => true
  | _ => false
  end.

(** [reaches G E s Q]: the run from [s] gets, after some number of steps,
    to a state that satisfies [Q]. *)
Definition reaches (G : Globals) (E : Env) (s : State) (Q : State -> Prop) : Prop :=
  exists N, Q (run G E N s).

(** The per-item pipeline at line 211: the images are done, the Deferred
    of [getNewItem] (number 0) is pending, and the callback of line 209
    calls [getSubtitles] and waits for its promise (number 1). *)
Definition atLine211 (G : Globals) (jobItem : JobItem.t) (apiClient : ApiClient.t)
    (localItem : LocalItem.t) (st : Store) : State :=
  mkState {[0 := mkCell Pending [] []]} 1
    [apply_cont G (cb_getNewItem_L209 jobItem apiClient localItem 0) VUndefined]
    [] st 0 [].

(** Image processing at slot [index]: the Deferred of [getImages] (number
    0) is pending and [getNextImage] is called for that slot. *)
Definition atSlot (G : Globals) (index : nat) (apiClient : ApiClient.t)
    (localItem : LocalItem.t) (st : Store) : State :=
  mkState {[0 := mkCell Pending [] []]} 1
    [getNextImage G index apiClient localItem 0] [] st 0 [].

(** ** Events *)

(** A request is sent. *)
Definition isStart (e : Event) : bool :=
  match e with
  | EvStart _ => true
  | _ => false
  end.

(** The Deferred [d] is resolved or rejected. *)
Definition isSettled (d : DeferredId) (e : Event) : bool :=
  match e with
  | EvSettled d' _ => Nat.eqb d' d
  | _ => false
  end.

(** The log line [msg]. *)
Definition isLog (msg : string) (e : Event) : bool :=
  match e with
  | EvLog m => String.eqb m msg
  | _ => false
  end.

(** The transfer-completion report of line 213 is sent. *)
Definition isReport (e : Event) : bool :=
  match e with
  | EvStart (Api_reportSyncJobItemTransferred _) => true
  | _ => false
  end.

(** A local item is written. *)
Definition isWrite (e : Event) : bool :=
  match e with
  | EvStart (LAM_addOrUpdateLocalItem _) => true
  | _ => false
  end.

(** The requests that change the store when they succeed. *)
Definition mutates (op : Op) : bool :=
  match op with
  | LAM_deleteOfflineActions _ | LAM_removeLocalItem _ _ | LAM_downloadFile _ _
  | LAM_addOrUpdateLocalItem _ | LAM_downloadImage _ _ _ _
  | LAM_downloadSubtitles _ _ _ => true
  | _ => false
  end.

Definition isMutation (e : Event) : bool :=
  match e with
  | EvOk op => mutates op
  | _ => false
  end.

(** The items whose deletion was requested, latest first. *)
Definition attempted (tr : list Event) : list string :=
  omap (fun e => match e with
                 | EvStart (LAM_removeLocalItem itemId _) => Some itemId
                 | _ => None
                 end) tr.

(** Anything but the failure of a deletion. *)
Definition noRemovalFailure (e : Event) : bool :=
  match e with
  | EvFailed (LAM_removeLocalItem _ _) => false
  | _ => true
  end.

(** In a trace (latest event first): every deletion of a batch of queued
    actions was started after the server acknowledged that batch. *)
Fixpoint deletes_acked (tr : list Event) : Prop :=
  match tr with
  | [] => True
  | e :: tr' =>
      match e with
      | EvStart (LAM_deleteOfflineActions actions) =>
          In (EvOk (Api_reportOfflineActions actions)) tr'
      | _ => True
      end /\ deletes_acked tr'
  end.

(** After a failed upload nothing is deleted. *)
Definition failure_keeps (tr : list Event) : Prop :=
  forall a, In (EvFailed (Api_reportOfflineActions a)) tr ->
  forall b, ~ In (EvStart (LAM_deleteOfflineActions b)) tr
            /\ ~ In (EvOk (LAM_deleteOfflineActions b)) tr.

(** The store once [localItem] has been written. *)
Definition written (localItem : LocalItem.t) (st : Store) : Store :=
  mkStore (st_actions st) (putLocalItem localItem (st_items st)) (st_images st) (st_files st).

(** Equality of two access lists as sets. *)
Definition same_set (a b : list string) : bool :=
  forallb (fun u => existsb (String.eqb u) b) a
  && forallb (fun u => existsb (String.eqb u) a) b.

(** The events of the access-propagation sub-phase: its two log lines and
    the loading of a local item. *)
Definition isAccess (e : Event) : bool :=
  match e with
  | EvLog msg =>
      String.eqb msg "Begin syncUserItemAccess"
      || String.eqb msg "Begin syncUserAccessForItem"
  | EvStart (LAM_getLocalItem _ _) => true
  | _ => false
  end.

(** ** Code that cannot reach access propagation *)

(** The callbacks that cannot lead to access propagation: those of the
    reconciliation with the flag off, and all those outside it. *)
Definition cont_quiet (c : Cont) : bool :=
  match c with
  | cb_syncData_L72 _ _ flag _ | cb_syncData_L74 _ _ flag _
  | cb_syncData_L82 _ _ flag _ | cb_afterSyncData_L98 _ flag _ _ => negb flag
  | cb_syncNextUserAccessForItem_L465 _ _ _ _ _
  | cb_syncNextUserAccessForItem_L468 _ _ _ _ _
  | cb_syncUserAccessForItem_L478 _ _ _
  | cb_syncUserAccessForItem_L480 _ _ _ => false
  | _ => true
  end.

(** An effect that is no event of access propagation and registers no
    callback that leads to it. *)
Definition eff_quiet {X : Type} (e : Eff X) : Prop :=
  match e with
  | ELog msg => isAccess (EvLog msg) = false
  | EStart op => isAccess (EvStart op) = false
  | EDone _ c | EFail _ c | ERequire c => cont_quiet c = true
  | _ => True
  end.

Fixpoint prog_quiet {A : Type} (m : Prog A) : Prop :=
  match m with
  | Ret _ => True
  | Throw _ => True
  | Vis e k => eff_quiet e /\ forall x, prog_quiet (k x)
  end.

Definition cell_quiet (c : Cell) : Prop :=
  Forall (fun k => cont_quiet k = true) (dones c)
  /\ Forall (fun k => cont_quiet k = true) (fails c).

Definition task_quiet (t : Task) : Prop :=
  match t with
  | TRequire c => cont_quiet c = true
  | TOp _ _ => True
  end.

(** Nothing on the stack, on the heap or in flight leads to access
    propagation, and none has happened. *)
Record state_quiet (s : State) : Prop := {
  sq_stack : Forall prog_quiet (stack s);
  sq_heap : forall d c, heap s !! d = Some c -> cell_quiet c;
  sq_queue : Forall task_quiet (queue s);
  sq_trace : Forall (fun e => isAccess e = false) (trace s)
}.

(** ** Pages *)

(** A page that has a global [serverId]. *)
Definition globals_serverId (serverId : string) : Globals :=
  {| g_item := None; g_serverId := Some serverId; g_deferred := None;
     g_file := None; g_logger := false |}.

(** A page that has a global [item]. *)
Definition globals_item (item : JobItem.t) : Globals :=
  {| g_item := Some item; g_serverId := None; g_deferred := None;
     g_file := None; g_logger := false |}.

(** ** A device, a server and items for the examples *)

Definition api1 : ApiClient.t :=
  ApiClient.mk "device1" "token1"
    (fun path _ => ("http://server/" ++ path)%string)
    (fun itemId _ => ("http://server/Items/" ++ itemId ++ "/Images")%string).

Definition server1 : ServerInfo.t := ServerInfo.mk "s1" (Some [User.mk "u1"]).

Definition action1 : OfflineAction.t := OfflineAction.mk "act1" "s1" "played 00:10".

Definition action2 : OfflineAction.t := OfflineAction.mk "act2" "s1" "played 00:20".

Definition plainItem (id : string) : LibraryItem.t :=
  LibraryItem.mk (Some id) "s1" None None None None None [].

Definition localItem1 (id : string) (access : list string) : LocalItem.t :=
  LocalItem.mk id "s1" ("/media/" ++ id)%string access (plainItem id).

(** A job item with every identity and every tag: an episode of a series,
    with an album. *)
Definition episode1 : LibraryItem.t :=
  LibraryItem.mk (Some "ep1") "s1" (Some {["Primary" := "tag-ep1"]})
    (Some "series1") (Some "tag-series1") (Some "album1") (Some "tag-album1")
    [MediaSource.mk [MediaStream.mk "Video" 0 None; MediaStream.mk "Subtitle" 2 None]].

Definition job1 : JobItem.t :=
  JobItem.mk episode1 "episode1.mkv" "job1"
    [AdditionalFile.mk "Subtitles" 2 "episode1.srt"].

Definition localEpisode1 : LocalItem.t :=
  LocalItem.mk "ep1" "s1" "/media/episode1.mkv" [] episode1.

(** An episode with a series but no series tag, and an album with a tag
    (the scenario of the specification). *)
Definition episode2 : LibraryItem.t :=
  LibraryItem.mk (Some "ep2") "s1" (Some {["Primary" := "tag-ep2"]})
    (Some "series1") None (Some "album1") (Some "tag-album1") [].

Definition job2 : JobItem.t := JobItem.mk episode2 "episode2.mkv" "job2" [].

Definition localEpisode2 : LocalItem.t :=
  LocalItem.mk "ep2" "s1" "/media/episode2.mkv" [] episode2.

(** An environment in which exactly the requests selected by [bad] fail;
    the server asks for the removal of [toRemove], reports [access] and has
    [ready] to transfer; requests complete in the order they were sent. *)
Definition env1 (bad : Op -> bool) (toRemove : list string)
    (access : list (string * list string)) (ready : list JobItem.t) : Env :=
  mkEnv (fun _ op => bad op)
    (fun _ _ => SyncDataResult.mk toRemove access)
    (fun _ _ => ready)
    (fun _ name => ("/media/" ++ name)%string)
    (fun _ _ => "/media/subtitle.srt")
    (fun _ => 0).

Definition all_succeed (op : Op) : bool := false.

Definition upload_fails (op : Op) : bool :=
  match op with
  | Api_reportOfflineActions _ => true
  | _ => false
  end.

Definition primary_download_fails (op : Op) : bool :=
  match op with
  | LAM_downloadImage _ _ itemId _ => String.eqb itemId "ep1"
  | _ => false
  end.

Definition removal_of_a_fails (op : Op) : bool :=
  match op with
  | LAM_removeLocalItem itemId _ => String.eqb itemId "a"
  | _ => false
  end.

Definition creation_fails (op : Op) : bool :=
  match op with
  | LAM_createLocalItem _ _ _ => true
  | _ => false
  end.

(** ** Outcomes of requests *)

(** A request has failed. *)
Definition isFailed (e : Event) : bool :=
  match e with
  | EvFailed _ => true
  | _ => false
  end.

(** The download of a media file has failed. *)
Definition downloadFailed (e : Event) : bool :=
  match e with
  | EvFailed (LAM_downloadFile _ _) => true
  | _ => false
  end.

(** Neither a write of a local item nor a transfer report. *)
Definition noWriteNoReport (e : Event) : bool := negb (isWrite e) && negb (isReport e).

(** The requests of the offline action reporter. *)
Definition reporterOp (op : Op) : bool :=
  match op with
  | LAM_getOfflineActions _ | Api_reportOfflineActions _
  | LAM_deleteOfflineActions _ => true
  | _ => false
  end.

(** The requests about images. *)
Definition isImageOp (op : Op) : bool :=
  match op with
  | LAM_hasImage _ _ _ | LAM_downloadImage _ _ _ _ => true
  | _ => false
  end.

(** The queued actions of a server, and those of the other servers. *)
Definition actionsOf (serverId : string) (actions : list OfflineAction.t)
    : list OfflineAction.t :=
  List.filter (fun a => String.eqb (OfflineAction.ServerId a) serverId) actions.

Definition actionsNotOf (serverId : string) (actions : list OfflineAction.t)
    : list OfflineAction.t :=
  List.filter (fun a => negb (String.eqb (OfflineAction.ServerId a) serverId)) actions.

(** The reconciliation request of lines 76-80 for a device whose store is
    [st]. *)
Definition requestOf (apiClient : ApiClient.t) (serverInfo : ServerInfo.t) (st : Store)
    : SyncDataRequest.t :=
  SyncDataRequest.mk (ApiClient.deviceId apiClient)
    (map LocalItem.ItemId
       (List.filter (fun i => String.eqb (LocalItem.ServerId i) (ServerInfo.Id serverInfo))
          (st_items st)))
    (map User.Id (default [] (ServerInfo.Users serverInfo))).

(** What is left of [items] once the items of [serverId] named in [ids]
    are deleted. *)
Definition keptItems (serverId : string) (ids : list string) (items : list LocalItem.t)
    : list LocalItem.t :=
  List.filter (fun i => negb (existsb (fun id => isLocalItem id serverId i) ids)) items.

(** The local items loaded for access propagation, each with the server it
    was asked for, latest first. *)
Definition loaded (tr : list Event) : list (string * string) :=
  omap (fun e => match e with
                 | EvStart (LAM_getLocalItem itemId serverId) => Some (itemId, serverId)
                 | _ => None
                 end) tr.

(** The library items whose local item was requested, latest first. *)
Definition created (tr : list Event) : list LibraryItem.t :=
  omap (fun e => match e with
                 | EvStart (LAM_createLocalItem libraryItem _ _) => Some libraryItem
                 | _ => None
                 end) tr.

(** ** Code confined to a phase

    A phase is given by its callbacks [okC], its requests [okOp] and its
    log lines [okLog]. *)

Section Phase.

Variable okC : Cont -> bool.
Variable okOp : Op -> bool.
Variable okLog : string -> bool.

Definition ev_ok (e : Event) : bool :=
  match e with
  | EvStart op => okOp op
  | EvLog msg => okLog msg
  | _ => true
  end.

Definition eff_ok {X : Type} (e : Eff X) : Prop :=
  match e with
  | ELog msg => okLog msg = true
  | EStart op => okOp op = true
  | EDone _ c | EFail _ c | ERequire c => okC c = true
  | _ => True
  end.

Fixpoint prog_ok {A : Type} (m : Prog A) : Prop :=
  match m with
  | Ret _ => True
  | Throw _ => True
  | Vis e k => eff_ok e /\ forall x, prog_ok (k x)
  end.

Definition task_ok (t : Task) : Prop :=
  match t with
  | TRequire c => okC c = true
  | TOp _ _ => True
  end.

(** Everything on the stack and in flight belongs to the phase, and so do
    the callbacks that wait on the heap, but for those that wait for the
    Deferred [gate] to be resolved; only events of the phase have
    happened. *)
Record confined (gate : DeferredId) (s : State) : Prop := {
  cf_stack : Forall prog_ok (stack s);
  cf_fails : forall d c, heap s !! d = Some c -> Forall (fun k => okC k = true) (fails c);
  cf_dones : forall d c, heap s !! d = Some c -> d <> gate ->
             Forall (fun k => okC k = true) (dones c);
  cf_queue : Forall task_ok (queue s);
  cf_trace : Forall (fun e => ev_ok e = true) (trace s)
}.

(** The gate has been resolved, or the state is still confined. *)
Definition until_gate (gate : DeferredId) (s : State) : Prop :=
  In (EvSettled gate true) (trace s) \/ confined gate s.

End Phase.

(** The callbacks and the log line of the offline action reporter. *)
Definition cont_reporter (c : Cont) : bool :=
  match c with
  | cb_resolve _ | cb_getOnFail _
  | cb_reportOfflineActions_L41 _ _ _ | cb_reportOfflineActions_L43 _ _
  | cb_reportOfflineActions_L50 _ _ => true
  | _ => false
  end.

Definition log_reporter (msg : string) : bool :=
  String.eqb msg "Begin reportOfflineActions".

(** An event that the offline action reporter can cause: no request and no
    log line of another phase. *)
Definition isReporting : Event -> bool := ev_ok reporterOp log_reporter.

(** ** More pages, data and environments for the examples *)

(** A page that has a global [file]. *)
Definition globals_file (file : AdditionalFile.t) : Globals :=
  {| g_item := None; g_serverId := None; g_deferred := None;
     g_file := Some file; g_logger := false |}.

(** An action queued for another server. *)
Definition action3 : OfflineAction.t := OfflineAction.mk "act3" "s2" "played 00:30".

(** An episode of a series, without an album. *)
Definition episode3 : LibraryItem.t :=
  LibraryItem.mk (Some "ep3") "s1" (Some {["Primary" := "tag-ep3"]})
    (Some "series1") (Some "tag-series1") None None [].

Definition job3 : JobItem.t := JobItem.mk episode3 "episode3.mkv" "job3" [].

Definition localEpisode3 : LocalItem.t :=
  LocalItem.mk "ep3" "s1" "/media/episode3.mkv" [] episode3.

(** A subtitle file for which [episode1] has no stream. *)
Definition strayFile : AdditionalFile.t := AdditionalFile.mk "Subtitles" 7 "stray.srt".

Definition queue_read_fails (op : Op) : bool :=
  match op with
  | LAM_getOfflineActions _ => true
  | _ => false
  end.

Definition reconciliation_fails (op : Op) : bool :=
  match op with
  | Api_syncData _ => true
  | _ => false
  end.

Definition media_download_fails (op : Op) : bool :=
  match op with
  | LAM_downloadFile _ _ => true
  | _ => false
  end.

Definition image_check_fails (op : Op) : bool :=
  match op with
  | LAM_hasImage _ _ _ => true
  | _ => false
  end.

(** * Chapter images (MediaEncoder/EncodingManager.cs)

    [EncodingManager] refreshes the chapter images of a video: it walks
    the chapters, extracts the images that are missing, repairs the image
    paths of the chapters, saves the chapters when something changed and
    deletes the images no chapter refers to.  The embedding is a function
    of the state of the world it reads: the file system, the encoder and
    the chapter manager are the fields of [World].  The chapters are
    mutable objects in the source; the embedding returns them as they are
    when the method ends, with what the method did to the world and
    whether it returned or threw.  The calls of the logger are left out,
    and the path and string functions of the platform are taken to
    return. *)

Module EncodingManager.

Module ChapterInfo.
Record t := mk { StartPositionTicks : Z; ImagePath : option string }.
End ChapterInfo.

(** [video is Movie], [video is Episode], or any other video. *)
Inductive VideoKind := Movie | Episode | OtherVideo.

Module VideoType.
Inductive t := VideoFile | Iso | Dvd | BluRay | HdDvd.
End VideoType.

Module Video.
Record t := mk {
  Id : string;
  Kind : VideoKind;
  IsPlaceHolder : bool;
  DefaultVideoStreamIndex : option Z;     (* int? *)
  RunTimeTicks : option Z;                (* long? *)
  VideoType : VideoType.t;
  DateModifiedTicks : Z;                  (* DateModified.Ticks *)
  InternalMetadataPath : string           (* GetInternalMetadataPath() *)
}.
End Video.

Module ChapterOptions.
Record t := mk {
  EnableMovieChapterImageExtraction : bool;
  EnableEpisodeChapterImageExtraction : bool;
  EnableOtherVideoChapterImageExtraction : bool
}.
End ChapterOptions.

Module ChapterImageRefreshOptions.
Record t := mk {
  Video : Video.t;
  Chapters : list ChapterInfo.t;
  SaveChapters : bool;
  ExtractImages : bool
}.
End ChapterImageRefreshOptions.

(** [IFileSystem.GetFilePaths]: the paths, a DirectoryNotFoundException,
    or another exception. *)
Inductive Listing :=
| Paths (paths : list string)
| DirectoryNotFound
| ListingFails.

(** [IFileSystem.DeleteFile]: done, an IOException, or another
    exception. *)
Inductive Deletion :=
| Deleted
| DeleteIOFails
| DeleteFails.

(** What the method reads from its collaborators and from the platform.
    [nth] is the position of the chapter, or of the dead image, the call
    is made for: two calls with the same arguments need not give the same
    result. *)
Record World := mkWorld {
  chapterManager_GetConfiguration : ChapterOptions.t;
  chapterManager_SaveChapters : string -> list ChapterInfo.t -> bool;  (* false: it throws *)
  fileSystem_GetFilePaths : string -> Listing;
  fileSystem_DeleteFile : nat -> string -> Deletion;
  (* MediaEncoderHelpers.GetInputArgument (line 137): false when it throws *)
  encoder_GetInputArgument : nat -> Video.t -> bool;
  (* the [try] block of lines 141-149, for an image path and a time:
     false when it throws *)
  encoder_ExtractVideoImage : nat -> Video.t -> string -> Z -> bool;
  Path_Combine : string -> string -> string;
  Path_GetExtension : string -> string;
  OrdinalIgnoreCase : string -> string -> bool;
  SupportedImageExtensions : list string
}.

(** What the method does to the world, in order. *)
Inductive Action :=
| AExtract (nth : nat) (path : string) (time : Z)
| ASave (videoId : string) (chapters : list ChapterInfo.t)
| ADelete (path : string).

Inductive Outcome :=
| Returns (success : bool)
| Throws.

Definition GetChapterImagesPath (W : World) (item : Video.t) : string :=
  Path_Combine W (Video.InternalMetadataPath item) "chapters".

Definition IsEligibleForChapterImageExtraction (W : World) (video : Video.t) : bool :=
  if Video.IsPlaceHolder video then false
  else
    let options := chapterManager_GetConfiguration W in
    let enabled :=
      match Video.Kind video with
      | Movie => ChapterOptions.EnableMovieChapterImageExtraction options
      | Episode => ChapterOptions.EnableEpisodeChapterImageExtraction options
      | OtherVideo => ChapterOptions.EnableOtherVideoChapterImageExtraction options
      end in
    if negb enabled then false
    else
      match Video.DefaultVideoStreamIndex video with
      | Some _ => true
      | None => false
      end.

(** [long.ToString(_usCulture)]: the decimal digits, after a minus sign
    for a negative number. *)
Definition long_ToString (n : Z) : string :=
  DecimalString.NilZero.string_of_int (Z.to_int n).

(** [TimeSpan.FromSeconds(15).Ticks]: a tick is 100 nanoseconds. *)
Definition FirstChapterTicks : Z := 150000000.

Definition GetChapterImagePath (W : World) (video : Video.t) (chapterPositionTicks : Z)
    : string :=
  let filename := (long_ToString (Video.DateModifiedTicks video) ++ "_"
                   ++ long_ToString chapterPositionTicks ++ ".jpg")%string in
  Path_Combine W (GetChapterImagesPath W video) filename.

(** [None] when an exception other than DirectoryNotFoundException
    escapes. *)
Definition GetSavedChapterImages (W : World) (video : Video.t) : option (list string) :=
  match fileSystem_GetFilePaths W (GetChapterImagesPath W video) with
  | Paths paths => Some paths
  | DirectoryNotFound => Some []
  | ListingFails => None
  end.

Definition IsNullOrEmpty (s : option string) : bool :=
  match s with
  | None => true
  | Some s => String.eqb s ""
  end.

(** [string.Equals(a, b, StringComparison.OrdinalIgnoreCase)] with [b]
    possibly null. *)
Definition EqualsIgnoreCase (W : World) (a : string) (b : option string) : bool :=
  match b with
  | None => false
  | Some b => OrdinalIgnoreCase W a b
  end.

(** [source.Contains(value, StringComparer.OrdinalIgnoreCase)]. *)
Definition ContainsIgnoreCase (W : World) (source : list string) (value : string) : bool :=
  existsb (fun element => OrdinalIgnoreCase W element value) source.

(** [first.Except(second, StringComparer.OrdinalIgnoreCase)]: the elements
    of [first] that are not in [second], each once. *)
Fixpoint Except (W : World) (first second : list string) : list string :=
  match first with
  | [] => []
  | x :: rest =>
      if ContainsIgnoreCase W second x then Except W rest second
      else x :: Except W rest (x :: second)
  end.

Definition isDisc (t : VideoType.t) : bool :=
  match t with
  | VideoType.HdDvd | VideoType.Iso | VideoType.BluRay => true
  | _ => false
  end.

Definition setImagePath (path : option string) (chapter : ChapterInfo.t) : ChapterInfo.t :=
  ChapterInfo.mk (ChapterInfo.StartPositionTicks chapter) path.

(** The local variables of [RefreshChapterImages] after the [foreach] of
    lines 113-172, the chapters as the loop leaves them and what it did;
    [escaped] when an exception left the loop and the method. *)
Record Loop := mkLoop {
  escaped : bool;
  success : bool;
  changesMade : bool;
  loopChapters : list ChapterInfo.t;
  extractions : list Action
}.

(** The same loop with one more chapter, [chapter], in front of it. *)
Definition before (chapter : ChapterInfo.t) (changed : bool) (acts : list Action)
    (l : Loop) : Loop :=
  mkLoop (escaped l) (success l) (changed || changesMade l) (chapter :: loopChapters l)
    (acts ++ extractions l).

Fixpoint refreshChapters (W : World) (video : Video.t) (extractImages : bool)
    (runtimeTicks : Z) (currentImages : list string) (nth : nat)
    (chapters : list ChapterInfo.t) : Loop :=
  match chapters with
  | [] => mkLoop false true false [] []
  | chapter :: rest =>
      let start := ChapterInfo.StartPositionTicks chapter in
      let continue := refreshChapters W video extractImages runtimeTicks currentImages
                        (S nth) rest in
      if (runtimeTicks <=? start)%Z then
        mkLoop false true false (chapter :: rest) []                      (* break *)
      else
        let path := GetChapterImagePath W video start in
        if negb (ContainsIgnoreCase W currentImages path) then
          if extractImages then
            if isDisc (Video.VideoType video) then
              before chapter false [] continue                              (* continue *)
            else
              let time := if (start =? 0)%Z
                          then Z.min FirstChapterTicks (default 0%Z (Video.RunTimeTicks video))
                          else start in
              if negb (encoder_GetInputArgument W nth video) then
                mkLoop true true false (chapter :: rest) []
              else if encoder_ExtractVideoImage W nth video path time then
                before (setImagePath (Some path) chapter) true [AExtract nth path time] continue
              else
                mkLoop false false false (chapter :: rest) [AExtract nth path time]  (* break *)
          else if negb (IsNullOrEmpty (ChapterInfo.ImagePath chapter)) then
            before (setImagePath None chapter) true [] continue
          else before chapter false [] continue
        else if negb (EqualsIgnoreCase W path (ChapterInfo.ImagePath chapter)) then
          before (setImagePath (Some path) chapter) true [] continue
        else before chapter false [] continue
  end.

Definition deadImages (W : World) (images : list string) (chapters : list ChapterInfo.t)
    : list string :=
  List.filter
    (fun i => ContainsIgnoreCase W (SupportedImageExtensions W) (Path_GetExtension W i))
    (Except W images
       (List.filter (fun i => negb (IsNullOrEmpty (Some i)))
          (omap ChapterInfo.ImagePath chapters))).

(** The [foreach] of lines 213-225: an IOException is logged and the loop
    goes on; another exception leaves the method.  The result says
    whether the loop ended normally, and which deletions were made. *)
Fixpoint deleteImages (W : World) (nth : nat) (images : list string) : bool * list Action :=
  match images with
  | [] => (true, [])
  | image :: rest =>
      match fileSystem_DeleteFile W nth image with
      | Deleted | DeleteIOFails =>
          let '(ok, acts) := deleteImages W (S nth) rest in (ok, ADelete image :: acts)
      | DeleteFails => (false, [ADelete image])
      end
  end.

Definition DeleteDeadImages (W : World) (images : list string)
    (chapters : list ChapterInfo.t) : bool * list Action :=
  deleteImages W 0 (deadImages W images chapters).

Record Refreshed := mkRefreshed {
  outcome : Outcome;
  refreshed : list ChapterInfo.t;
  performed : list Action
}.

Definition RefreshChapterImages (W : World) (options : ChapterImageRefreshOptions.t)
    : Refreshed :=
  let video := ChapterImageRefreshOptions.Video options in
  let given := ChapterImageRefreshOptions.Chapters options in
  let saveChapters := ChapterImageRefreshOptions.SaveChapters options in
  let extractImages :=
    if negb (IsEligibleForChapterImageExtraction W video) then false
    else ChapterImageRefreshOptions.ExtractImages options in
  let runtimeTicks := default 0%Z (Video.RunTimeTicks video) in
  match GetSavedChapterImages W video with
  | None => mkRefreshed Throws given []
  | Some currentImages =>
      let l := refreshChapters W video extractImages runtimeTicks currentImages 0 given in
      if escaped l then mkRefreshed Throws (loopChapters l) (extractions l)
      else if saveChapters && changesMade l then
        let save := ASave (Video.Id video) (loopChapters l) in
        if chapterManager_SaveChapters W (Video.Id video) (loopChapters l) then
          let '(ok, deletions) := DeleteDeadImages W currentImages (loopChapters l) in
          mkRefreshed (if ok then Returns (success l) else Throws) (loopChapters l)
            (extractions l ++ save :: deletions)
        else mkRefreshed Throws (loopChapters l) (extractions l ++ [save])
      else
        let '(ok, deletions) := DeleteDeadImages W currentImages (loopChapters l) in
        mkRefreshed (if ok then Returns (success l) else Throws) (loopChapters l)
          (extractions l ++ deletions)
  end.

(** ** Vocabulary *)

Definition isExtract (a : Action) : bool :=
  match a with
  | AExtract _ _ _ => true
  | _ => false
  end.

Definition isSave (a : Action) : bool :=
  match a with
  | ASave _ _ => true
  | _ => false
  end.

(** The extraction [a] went well ([true] for the other actions). *)
Definition extracted (W : World) (video : Video.t) (a : Action) : bool :=
  match a with
  | AExtract nth path time => encoder_ExtractVideoImage W nth video path time
  | _ => true
  end.

(** The time at which the image of a chapter is taken (line 133). *)
Definition extractionTime (video : Video.t) (chapter : ChapterInfo.t) : Z :=
  if (ChapterInfo.StartPositionTicks chapter =? 0)%Z
  then Z.min FirstChapterTicks (default 0%Z (Video.RunTimeTicks video))
  else ChapterInfo.StartPositionTicks chapter.

(** The image paths the chapters refer to. *)
Definition referenced (chapters : list ChapterInfo.t) : list string :=
  List.filter (fun i => negb (IsNullOrEmpty (Some i))) (omap ChapterInfo.ImagePath chapters).

(** The [foreach] of a call, for the images [currentImages] found on
    disk: with the [extractImages] of lines 96-104 and the [runtimeTicks]
    of line 109. *)
Definition loopOf (W : World) (options : ChapterImageRefreshOptions.t)
    (currentImages : list string) : Loop :=
  let video := ChapterImageRefreshOptions.Video options in
  refreshChapters W video
    (if negb (IsEligibleForChapterImageExtraction W video) then false
     else ChapterImageRefreshOptions.ExtractImages options)
    (default 0%Z (Video.RunTimeTicks video)) currentImages 0
    (ChapterImageRefreshOptions.Chapters options).

(** ** A video for the examples *)

(** A world where the chapter folder of every video holds [saved], the
    extraction for the chapter at position [n] goes well when
    [extracts n], and nothing else fails.  Paths are joined with a slash
    and compared as they are, and the extension of a path is its last four
    characters. *)
Definition world_of (saved : list string) (extracts : nat -> bool) : World :=
  mkWorld (ChapterOptions.mk true true true) (fun _ _ => true) (fun _ => Paths saved)
    (fun _ _ => Deleted) (fun _ _ => true) (fun nth _ _ _ => extracts nth)
    (fun a b => (a ++ "/" ++ b)%string)
    (fun path => String.substring (String.length path - 4) 4 path)
    String.eqb [".jpg"; ".png"].

(** A movie of ten minutes, and the same movie with an unknown runtime. *)
Definition movie1 : Video.t :=
  Video.mk "v1" Movie false (Some 0%Z) (Some 6000000000%Z) VideoType.VideoFile 42
    "/meta/v1".

Definition movie2 : Video.t :=
  Video.mk "v2" Movie false (Some 0%Z) None VideoType.VideoFile 42 "/meta/v2".

(** Chapters at 0, 5 and 15 minutes, none with an image. *)
Definition chapters1 : list ChapterInfo.t :=
  [ChapterInfo.mk 0 None; ChapterInfo.mk 3000000000 None; ChapterInfo.mk 9000000000 None].

Definition refresh1 : ChapterImageRefreshOptions.t :=
  ChapterImageRefreshOptions.mk movie1 chapters1 true true.

Definition refresh2 : ChapterImageRefreshOptions.t :=
  ChapterImageRefreshOptions.mk movie2 chapters1 true true.

End EncodingManager.

(** * Properties *)

(** ** The event loop *)

Arguments run G E n s : simpl never.
Arguments set_stack st s /.
Arguments set_heap h s /.
Arguments emit e s /.
Arguments alloc s /.
Arguments enqueue t s /.
Arguments complete G E t q s /.
Arguments lookup : simpl never.
Arguments insert : simpl never.
Arguments newDeferred /.
Arguments resolve d v /.
Arguments reject d /.
Arguments done p c /.
Arguments fail p c /.
Arguments start op /.
Arguments require c /.
Arguments log msg /.
Arguments TypeError {A} /.

Section EventLoopFacts.

Variable G : Globals.
Variable E : Env.

Lemma run_S (n : nat) (s : State) : run G E (S n) s = run G E n (step G E s).
Proof. reflexivity. Qed.

Lemma run_add (n m : nat) (s : State) : run G E (n + m) s = run G E m (run G E n s).
Proof.
  revert s. induction n as [|n IH]; intros s; [reflexivity|].
  change (S n + m) with (S (n + m)). rewrite !run_S. apply IH.
Qed.

(** A state with nothing on the stack and nothing in flight stays as it
    is. *)
Lemma step_quiescent (s : State) : quiescent s = true -> step G E s = s.
Proof.
  unfold quiescent, step. destruct (stack s); [|discriminate].
  destruct (queue s); [reflexivity|discriminate].
Qed.

Lemma run_quiescent (n : nat) (s : State) : quiescent s = true -> run G E n s = s.
Proof.
  intros Hq. induction n as [|n IH]; [reflexivity|].
  rewrite run_S, step_quiescent; assumption.
Qed.

(** Once the run has come to rest after [N] steps, every state of the run
    is one of the first [N]. *)
Lemma run_rest (N : nat) (s : State) :
  quiescent (run G E N s) = true ->
  forall n, exists k, k <= N /\ run G E n s = run G E k s.
Proof.
  intros Hq n. destruct (le_lt_dec n N) as [Hle|Hlt].
  - exists n. split; [assumption|reflexivity].
  - exists N. split; [lia|].
    replace n with (N + (n - N)) by lia.
    rewrite run_add. apply run_quiescent, Hq.
Qed.

(** Events are only ever added. *)
Lemma exec_trace {X : Type} (e : Eff X) (k : X -> Prog unit) (rest : list (Prog unit))
    (s : State) :
  exists es : list Event, trace (exec G e k rest s) = es ++ trace s.
Proof.
  destruct e; cbn.
  - exists []. reflexivity.
  - destruct (heap s !! d) as [[[] ? ?]|]; cbn;
      first [exists [EvSettled d true]; reflexivity | exists []; reflexivity].
  - destruct (heap s !! d) as [[[] ? ?]|]; cbn;
      first [exists [EvSettled d false]; reflexivity | exists []; reflexivity].
  - destruct (heap s !! p) as [[[] ? ?]|]; cbn; exists []; reflexivity.
  - destruct (heap s !! p) as [[[] ? ?]|]; cbn; exists []; reflexivity.
  - exists [EvStart op]. reflexivity.
  - exists []. reflexivity.
  - exists [EvLog msg]. reflexivity.
Qed.

Lemma step_trace (s : State) : exists es : list Event, trace (step G E s) = es ++ trace s.
Proof.
  unfold step. destruct (stack s) as [|[u|err|X e k] rest].
  - destruct (take_task _ _) as [[[c|op p] q]|]; cbn.
    + exists []. reflexivity.
    + destruct (perform E (clock s) op (store s)) as [[v|] st']; cbn.
      * exists [EvOk op]. reflexivity.
      * exists [EvFailed op]. reflexivity.
    + exists []. reflexivity.
  - exists []. reflexivity.
  - exists [EvUncaught err]. reflexivity.
  - apply exec_trace.
Qed.

Lemma run_trace (n : nat) (s : State) :
  exists es : list Event, trace (run G E n s) = es ++ trace s.
Proof.
  revert s. induction n as [|n IH]; intros s.
  - exists []. reflexivity.
  - rewrite run_S. destruct (IH (step G E s)) as [es1 H1].
    destruct (step_trace s) as [es2 H2].
    exists (es1 ++ es2). rewrite H1, H2. rewrite <- app_assoc. reflexivity.
Qed.

Lemma run_trace_le (k n : nat) (s : State) :
  k <= n -> exists es : list Event, trace (run G E n s) = es ++ trace (run G E k s).
Proof.
  intros Hle. replace n with (k + (n - k)) by lia.
  rewrite run_add. apply run_trace.
Qed.

(** Once the run has come to rest, the trace at any time is an earlier
    part of the final trace. *)
Lemma run_earlier (N : nat) (s : State) :
  quiescent (run G E N s) = true ->
  forall n, exists es : list Event, trace (run G E N s) = es ++ trace (run G E n s).
Proof.
  intros Hq n. destruct (run_rest N s Hq n) as (k & Hk & ->).
  apply run_trace_le, Hk.
Qed.

(** A property of the trace that holds once the run has come to rest, and
    that passes from a trace to its earlier parts, holds all along. *)
Lemma always_from_rest (P : list Event -> Prop) (N : nat) (s : State) :
  (forall es tr, P (es ++ tr) -> P tr) ->
  quiescent (run G E N s) = true ->
  P (trace (run G E N s)) ->
  forall n, P (trace (run G E n s)).
Proof.
  intros Hsuf Hq HP n. destruct (run_rest N s Hq n) as (k & Hk & ->).
  destruct (run_trace_le k N s Hk) as [es Hes].
  rewrite Hes in HP. apply (Hsuf es), HP.
Qed.

(** What has not happened by the time the run has come to rest never
    happens. *)
Lemma never_happens (P : Event -> Prop) (N : nat) (s : State) :
  quiescent (run G E N s) = true ->
  Forall P (trace (run G E N s)) ->
  forall n, Forall P (trace (run G E n s)).
Proof.
  intros Hq HP. apply (always_from_rest (Forall P) N s); try assumption.
  intros es tr H. apply Forall_app in H. apply H.
Qed.

Lemma exec_wf {X : Type} (e : Eff X) (k : X -> Prog unit) (rest : list (Prog unit))
    (s : State) :
  wf s -> wf (exec G e k rest s).
Proof.
  unfold wf. intros Hwf.
  assert (Hins : forall d' c c0, heap s !! d' = Some c0 ->
             forall d, next s <= d -> <[d' := c]> (heap s) !! d = None).
  { intros d' c c0 Hc0 d Hd. destruct (decide (d' = d)) as [->|Hne].
    - rewrite (Hwf d Hd) in Hc0. discriminate.
    - rewrite lookup_insert_ne by assumption. apply Hwf, Hd. }
  assert (Hall : forall c d, S (next s) <= d -> <[next s := c]> (heap s) !! d = None).
  { intros c d Hd. rewrite lookup_insert_ne by lia. apply Hwf. lia. }
  destruct e; cbn.
  - apply Hall.
  - destruct (heap s !! d) as [[[] ds fs]|] eqn:Hd0; cbn; try exact Hwf.
    eapply Hins, Hd0.
  - destruct (heap s !! d) as [[[] ds fs]|] eqn:Hd0; cbn; try exact Hwf.
    eapply Hins, Hd0.
  - destruct (heap s !! p) as [[[] ds fs]|] eqn:Hd0; cbn; try exact Hwf.
    eapply Hins, Hd0.
  - destruct (heap s !! p) as [[[] ds fs]|] eqn:Hd0; cbn; try exact Hwf.
    eapply Hins, Hd0.
  - apply Hall.
  - exact Hwf.
  - exact Hwf.
Qed.

Lemma step_wf (s : State) : wf s -> wf (step G E s).
Proof.
  intros Hwf. unfold step. destruct (stack s) as [|[u|err|X e k] rest].
  - destruct (take_task _ _) as [[[c|op p] q]|]; cbn; try exact Hwf.
    destruct (perform E (clock s) op (store s)) as [[v|] st']; exact Hwf.
  - exact Hwf.
  - exact Hwf.
  - apply exec_wf, Hwf.
Qed.

Lemma run_wf (n : nat) (s : State) : wf s -> wf (run G E n s).
Proof.
  revert s. induction n as [|n IH]; intros s Hwf; [exact Hwf|].
  rewrite run_S. apply IH, step_wf, Hwf.
Qed.

Lemma boot_wf {A : Type} (main : Prog A) (st : Store) : wf (boot main st).
Proof. intros d _. apply lookup_empty. Qed.

(** A settled Deferred keeps its state. *)
Lemma exec_settled {X : Type} (e : Eff X) (k : X -> Prog unit) (rest : list (Prog unit))
    (s : State) (d : DeferredId) (st : Status) :
  wf s -> status_of d s = Some st -> st <> Pending ->
  status_of d (exec G e k rest s) = Some st.
Proof.
  unfold status_of. intros Hwf Hd Hst.
  assert (Hins : forall d' c c0, heap s !! d' = Some c0 -> status c0 = Pending ->
             status <$> (<[d' := c]> (heap s)) !! d = Some st).
  { intros d' c c0 Hc0 Hp. destruct (decide (d' = d)) as [->|Hne].
    - rewrite Hc0 in Hd. cbn in Hd. congruence.
    - rewrite lookup_insert_ne; assumption. }
  assert (Hall : forall c, status <$> (<[next s := c]> (heap s)) !! d = Some st).
  { intros c. destruct (decide (next s = d)) as [<-|Hne].
    - rewrite (Hwf (next s)) in Hd by lia. discriminate.
    - rewrite lookup_insert_ne; assumption. }
  destruct e; cbn.
  - apply Hall.
  - destruct (heap s !! d0) as [[[] ds fs]|] eqn:Hd0; cbn; try exact Hd.
    eapply Hins; [exact Hd0|reflexivity].
  - destruct (heap s !! d0) as [[[] ds fs]|] eqn:Hd0; cbn; try exact Hd.
    eapply Hins; [exact Hd0|reflexivity].
  - destruct (heap s !! p) as [[[] ds fs]|] eqn:Hd0; cbn; try exact Hd.
    eapply Hins; [exact Hd0|reflexivity].
  - destruct (heap s !! p) as [[[] ds fs]|] eqn:Hd0; cbn; try exact Hd.
    eapply Hins; [exact Hd0|reflexivity].
  - apply Hall.
  - exact Hd.
  - exact Hd.
Qed.

Lemma step_settled (s : State) (d : DeferredId) (st : Status) :
  wf s -> status_of d s = Some st -> st <> Pending ->
  status_of d (step G E s) = Some st.
Proof.
  intros Hwf Hd Hst. unfold step. destruct (stack s) as [|[u|err|X e k] rest].
  - destruct (take_task _ _) as [[[c|op p] q]|]; cbn; try exact Hd.
    destruct (perform E (clock s) op (store s)) as [[v|] st']; exact Hd.
  - exact Hd.
  - exact Hd.
  - apply exec_settled; assumption.
Qed.

Lemma run_settled (n : nat) (s : State) (d : DeferredId) (st : Status) :
  wf s -> status_of d s = Some st -> st <> Pending ->
  status_of d (run G E n s) = Some st.
Proof.
  revert s. induction n as [|n IH]; intros s Hwf Hd Hst; [exact Hd|].
  rewrite run_S. apply IH; [apply step_wf|apply step_settled|]; assumption.
Qed.

(** A Deferred that is still pending when the run has come to rest is
    never settled. *)
Lemma never_settled (N : nat) (s : State) (d : DeferredId) :
  wf s ->
  quiescent (run G E N s) = true ->
  status_of d (run G E N s) = Some Pending ->
  forall n st, status_of d (run G E n s) = Some st -> st = Pending.
Proof.
  intros Hwf Hq HN n st Hn. destruct (run_rest N s Hq n) as (k & Hk & Hrun).
  rewrite Hrun in Hn.
  assert (Hkeep : st <> Pending -> status_of d (run G E N s) = Some st).
  { intros Hst. replace N with (k + (N - k)) by lia. rewrite run_add.
    apply run_settled; [apply run_wf, Hwf|assumption|assumption]. }
  destruct st as [|v|]; [reflexivity| |];
    (rewrite Hkeep in HN by discriminate; discriminate).
Qed.

End EventLoopFacts.

(** ** Symbolic execution

    [run1] takes one step of the event loop when the state is explicit
    enough to decide it; [split1] makes a case distinction on what blocks
    the next step (the outcome of a request, a test on the data);
    [at_rest] stops at a quiescent state. *)

Ltac heap_simpl :=
  repeat first
    [ rewrite lookup_insert_eq
    | rewrite lookup_insert_ne by lia
    | rewrite lookup_singleton_eq
    | rewrite lookup_singleton_ne by lia
    | rewrite lookup_empty ].

Ltac run1 :=
  lazymatch goal with
  | |- context [run ?G ?E (S ?n) (mkState ?h ?nx ?k ?q ?st ?c ?t)] =>
      lazymatch k with
      | [] => lazymatch q with _ :: _ => idtac end
      | Ret _ :: _ => idtac
      | Throw _ :: _ => idtac
      | Vis _ _ :: _ => idtac
      end;
      rewrite (run_S G E n (mkState h nx k q st c t)); cbn; heap_simpl; cbn
  end.

Ltac at_rest :=
  lazymatch goal with
  | |- context [run ?G ?E ?n (mkState ?h ?nx [] [] ?st ?c ?t)] =>
      rewrite (run_quiescent G E n (mkState h nx [] [] st c t) eq_refl)
  end.

Ltac split1 :=
  match goal with
  | |- context [perform ?E ?t ?o ?st] =>
      unfold perform at 1; destruct (env_fails E t o) eqn:?; cbn
  | |- context [run _ _ _ (mkState _ _ ((if ?b then _ else _) :: _) _ _ _ _)] =>
      destruct b eqn:?; cbn
  | |- context [run _ _ _ (mkState _ _ ((match ?x with _ => _ end) :: _) _ _ _ _)] =>
      destruct x eqn:?; cbn
  end.

Ltac run_all := repeat first [at_rest | run1 | split1].

(** A property of every element of an explicit list, element by element. *)
Ltac forall_list :=
  repeat lazymatch goal with
    | |- Forall _ (_ :: _) => constructor
    | |- Forall _ [] => constructor
    end.

(** Keeps what is to be proved about the run aside while the run is
    computed. *)
Ltac focus_run P :=
  lazymatch goal with
  | |- context [run ?G ?E ?n ?s0] =>
      pattern (run G E n s0);
      lazymatch goal with |- ?Q _ => set (P := Q) end
  end.

(** ** Offline action reporter *)

Lemma deletes_acked_earlier (es tr : list Event) :
  deletes_acked (es ++ tr) -> deletes_acked tr.
Proof.
  induction es as [|e es IH]; [trivial|]. cbn. intros [_ H]. apply IH, H.
Qed.

Lemma failure_keeps_earlier (es tr : list Event) :
  failure_keeps (es ++ tr) -> failure_keeps tr.
Proof.
  unfold failure_keeps. intros H a Ha b.
  assert (Hin : In (EvFailed (Api_reportOfflineActions a)) (es ++ tr))
    by (apply in_or_app; right; exact Ha).
  destruct (H a Hin b) as [H1 H2].
  split; intros Hb; [apply H1|apply H2]; apply in_or_app; right; exact Hb.
Qed.

Section Reporter.

Variable G : Globals.
Variable E : Env.

(** The queue of offline actions changes only when a deletion completes. *)
Lemma exec_store {X : Type} (e : Eff X) (k : X -> Prog unit) (rest : list (Prog unit))
    (s : State) :
  store (exec G e k rest s) = store s.
Proof.
  destruct e; cbn; try reflexivity.
  - destruct (heap s !! d) as [[[] ? ?]|]; reflexivity.
  - destruct (heap s !! d) as [[[] ? ?]|]; reflexivity.
  - destruct (heap s !! p) as [[[] ? ?]|]; reflexivity.
  - destruct (heap s !! p) as [[[] ? ?]|]; reflexivity.
Qed.

Lemma step_actions (s : State) :
  st_actions (store (step G E s)) = st_actions (store s)
  \/ exists a, trace (step G E s) = EvOk (LAM_deleteOfflineActions a) :: trace s.
Proof.
  unfold step. destruct (stack s) as [|[u|err|X e k] rest].
  - destruct (take_task _ _) as [[[c|op p] q]|]; cbn; try (left; reflexivity).
    unfold perform. destruct (env_fails E (clock s) op); [left; reflexivity|].
    destruct op; cbn; try (left; reflexivity).
    + right. eexists. reflexivity.
    + destruct (find _ _); left; reflexivity.
  - left. reflexivity.
  - left. reflexivity.
  - left. rewrite exec_store. reflexivity.
Qed.

Lemma run_actions (n : nat) (s : State) :
  (forall a, ~ In (EvOk (LAM_deleteOfflineActions a)) (trace (run G E n s))) ->
  st_actions (store (run G E n s)) = st_actions (store s).
Proof.
  revert s. induction n as [|n IH]; intros s Hno; [reflexivity|].
  rewrite run_S in *. rewrite (IH _ Hno).
  destruct (step_actions s) as [Heq|[a Ha]]; [exact Heq|].
  exfalso. apply (Hno a).
  destruct (run_trace G E n (step G E s)) as [es Hes].
  rewrite Hes, Ha. apply in_or_app. right. left. reflexivity.
Qed.

Lemma reportOfflineActions_rest (apiClient : ApiClient.t) (serverInfo : ServerInfo.t)
    (st : Store) :
  quiescent (run G E 60 (boot (reportOfflineActions apiClient serverInfo) st)) = true
  /\ deletes_acked (trace (run G E 60 (boot (reportOfflineActions apiClient serverInfo) st)))
  /\ failure_keeps (trace (run G E 60 (boot (reportOfflineActions apiClient serverInfo) st))).
Proof.
  focus_run P. unfold boot, reportOfflineActions. cbn.
  run_all; subst P; cbn beta; (split; [reflexivity|]); cbn;
    (split; [intuition auto|]); unfold failure_keeps; cbn;
    intros a Ha b; split; intros Hb;
    repeat (destruct Ha as [Ha|Ha]; try discriminate Ha);
    repeat (destruct Hb as [Hb|Hb]; try discriminate Hb); contradiction.
Qed.

(** C3. For every run of the offline action reporter: a deletion of queued
    actions is started only after the server has acknowledged the upload
    of that very batch; and once an upload has failed, no deletion is
    started and the local queue of offline actions is as it was. *)
Theorem reportOfflineActions_failure_keeps_queue (apiClient : ApiClient.t)
    (serverInfo : ServerInfo.t) (st : Store) (n : nat) :
  deletes_acked (trace (run G E n (boot (reportOfflineActions apiClient serverInfo) st)))
  /\ forall actions,
       In (EvFailed (Api_reportOfflineActions actions))
          (trace (run G E n (boot (reportOfflineActions apiClient serverInfo) st))) ->
       (forall b, ~ In (EvStart (LAM_deleteOfflineActions b))
                      (trace (run G E n (boot (reportOfflineActions apiClient serverInfo) st))))
       /\ st_actions (store (run G E n (boot (reportOfflineActions apiClient serverInfo) st)))
          = st_actions st.
Proof.
  destruct (reportOfflineActions_rest apiClient serverInfo st) as (Hq & Hack & Hkeep).
  split.
  - exact (always_from_rest G E deletes_acked 60 _ deletes_acked_earlier Hq Hack n).
  - intros actions Hfail.
    pose proof (always_from_rest G E failure_keeps 60 _ failure_keeps_earlier Hq Hkeep n)
      as Hk.
    split.
    + intros b. apply (Hk actions Hfail b).
    + rewrite run_actions; [reflexivity|].
      intros b. apply (Hk actions Hfail b).
Qed.

End Reporter.

(** The scenario of the specification: two queued actions, the report
    succeeds; both are deleted and the call succeeds. *)
Example report_scenario :
  st_actions (store (run no_globals (env1 all_succeed [] [] []) 60
                       (boot (reportOfflineActions api1 server1)
                          (mkStore [action1; action2] [] [] []))))
  = []
  /\ status_of 0 (run no_globals (env1 all_succeed [] [] []) 60
                    (boot (reportOfflineActions api1 server1)
                       (mkStore [action1; action2] [] [] [])))
     = Some (Resolved VUndefined).
Proof. split; vm_compute; reflexivity. Qed.

Lemma reportOfflineActions_failure_keeps_queue_witness :
  In (EvFailed (Api_reportOfflineActions [action1; action2]))
     (trace (run no_globals (env1 upload_fails [] [] []) 60
               (boot (reportOfflineActions api1 server1)
                  (mkStore [action1; action2] [] [] []))))
  /\ (forall b, ~ In (EvStart (LAM_deleteOfflineActions b))
                    (trace (run no_globals (env1 upload_fails [] [] []) 60
                              (boot (reportOfflineActions api1 server1)
                                 (mkStore [action1; action2] [] [] [])))))
  /\ st_actions (store (run no_globals (env1 upload_fails [] [] []) 60
                          (boot (reportOfflineActions api1 server1)
                             (mkStore [action1; action2] [] [] []))))
     = [action1; action2].
Proof.
  assert (Hfail : In (EvFailed (Api_reportOfflineActions [action1; action2]))
     (trace (run no_globals (env1 upload_fails [] [] []) 60
               (boot (reportOfflineActions api1 server1)
                  (mkStore [action1; action2] [] [] [])))))
    by (vm_compute; auto 10).
  split; [exact Hfail|].
  exact (proj2 (reportOfflineActions_failure_keeps_queue no_globals
                  (env1 upload_fails [] [] []) api1 server1
                  (mkStore [action1; action2] [] [] []) 60)
           [action1; action2] Hfail).
Defined.

(** ** Images: the unbound [item] *)

Section Images.

Variable E : Env.

(** With no global [item], [getImages] stops at line 277, on the first
    slot, with its Deferred (number 0) pending. *)
Lemma getImages_unbound_rest (G : Globals) (apiClient : ApiClient.t) (jobItem : JobItem.t)
    (localItem : LocalItem.t) (st : Store) :
  g_item G = None ->
  quiescent (run G E 4 (boot (getImages G apiClient jobItem localItem) st)) = true
  /\ history (run G E 4 (boot (getImages G apiClient jobItem localItem) st))
     = [EvUncaught "ReferenceError: item is not defined"]
  /\ status_of 0 (run G E 4 (boot (getImages G apiClient jobItem localItem) st))
     = Some Pending.
Proof.
  intros Hitem. focus_run P. unfold boot, getImages, getNextImage. cbn.
  rewrite Hitem. cbn. run_all. subst P. cbn beta.
  split; [reflexivity|]. split; [reflexivity|].
  unfold status_of. cbn. heap_simpl. reflexivity.
Qed.

(** The job item is not passed on to [getNextImage]: the image sub-step is
    the same program whatever the job item is. *)
Lemma getImages_ignores_jobItem (G : Globals) (apiClient : ApiClient.t)
    (jobItem jobItem' : JobItem.t) (localItem : LocalItem.t) :
  getImages G apiClient jobItem localItem = getImages G apiClient jobItem' localItem.
Proof. reflexivity. Qed.

(** C9. For every job item, when [item] is bound nowhere, the image
    sub-step faults on the read of [item.Item] for the first slot: the
    ReferenceError is the only thing that ever happens, so no slot is
    resolved, skipped or downloaded (no request is ever started), and the
    promise of [getImages] is never settled. *)
Theorem getImages_faults_before_any_slot (G : Globals) (apiClient : ApiClient.t)
    (jobItem : JobItem.t) (localItem : LocalItem.t) (st : Store) :
  g_item G = None ->
  history (run G E 4 (boot (getImages G apiClient jobItem localItem) st))
    = [EvUncaught "ReferenceError: item is not defined"]
  /\ forall n,
       Forall (fun e => e = EvUncaught "ReferenceError: item is not defined")
         (trace (run G E n (boot (getImages G apiClient jobItem localItem) st)))
       /\ forall s', status_of 0 (run G E n (boot (getImages G apiClient jobItem localItem) st))
                     = Some s' -> s' = Pending.
Proof.
  intros Hitem.
  destruct (getImages_unbound_rest G apiClient jobItem localItem st Hitem)
    as (Hq & Hh & Hp).
  split; [exact Hh|]. intros n. split.
  - refine (never_happens G E _ 4 _ Hq _ n).
    unfold history in Hh. apply (f_equal (@rev Event)) in Hh.
    rewrite rev_involutive in Hh. rewrite Hh. cbn.
    repeat constructor.
  - exact (never_settled G E 4 _ 0 (boot_wf _ _) Hq Hp n).
Qed.

End Images.

Lemma getImages_faults_before_any_slot_witness :
  g_item no_globals = None
  /\ history (run no_globals (env1 all_succeed [] [] [job1]) 4
               (boot (getImages no_globals api1 job1 localEpisode1) (mkStore [] [] [] [])))
     = [EvUncaught "ReferenceError: item is not defined"].
Proof.
  split; [reflexivity|].
  exact (proj1 (getImages_faults_before_any_slot (env1 all_succeed [] [] [job1])
                  no_globals api1 job1 localEpisode1 (mkStore [] [] [] []) eq_refl)).
Defined.

(** ** Subtitles: the unbound [deferred] and [file] *)

Lemma atLine211_wf (G : Globals) (jobItem : JobItem.t) (apiClient : ApiClient.t)
    (localItem : LocalItem.t) (st : Store) :
  wf (atLine211 G jobItem apiClient localItem st).
Proof. intros d Hd. cbn in *. apply lookup_singleton_ne. lia. Qed.

Section Subtitles.

Variable E : Env.

Lemma getSubtitles_unbound_rest (G : Globals) (apiClient : ApiClient.t) (jobItem : JobItem.t)
    (localItem : LocalItem.t) (st : Store) :
  g_deferred G = None -> g_file G = None ->
  LibraryItem.MediaSources (JobItem.Item jobItem) <> [] ->
  quiescent (run G E 12 (atLine211 G jobItem apiClient localItem st)) = true
  /\ Forall (fun e => isReport e = false /\ isSettled 0 e = false /\ isSettled 1 e = false)
       (trace (run G E 12 (atLine211 G jobItem apiClient localItem st)))
  /\ (exists err, In (EvUncaught err) (trace (run G E 12 (atLine211 G jobItem apiClient localItem st))))
  /\ status_of 0 (run G E 12 (atLine211 G jobItem apiClient localItem st)) = Some Pending
  /\ status_of 1 (run G E 12 (atLine211 G jobItem apiClient localItem st)) = Some Pending.
Proof.
  intros Hd Hf Hms. focus_run P. unfold atLine211.
  destruct jobItem as [[id sid tags series stag album atag ms] name jid files].
  cbn in Hms. destruct ms as [|mediaSource ms]; [congruence|].
  destruct G as [gi gs gd gf gl]. cbn in Hd, Hf. subst gd gf.
  cbn. unfold getSubtitles. cbn.
  repeat run1.
  unfold getNextSubtitle. cbn.
  run_all; subst P; cbn beta;
    (split; [reflexivity|]);
    (split; [repeat constructor|]);
    (split; [eexists; left; reflexivity|]);
    unfold status_of; cbn; heap_simpl; split; reflexivity.
Qed.

Lemma getSubtitles_alone_rest (G : Globals) (apiClient : ApiClient.t) (jobItem : JobItem.t)
    (localItem : LocalItem.t) (st : Store) :
  g_deferred G = None -> g_file G = None ->
  LibraryItem.MediaSources (JobItem.Item jobItem) <> [] ->
  quiescent (run G E 12 (boot (getSubtitles apiClient jobItem localItem) st)) = true
  /\ status_of 0 (run G E 12 (boot (getSubtitles apiClient jobItem localItem) st))
     = Some Pending.
Proof.
  intros Hd Hf Hms. focus_run P. unfold boot.
  destruct jobItem as [[id sid tags series stag album atag ms] name jid files].
  cbn in Hms. destruct ms as [|mediaSource ms]; [congruence|].
  destruct G as [gi gs gd gf gl]. cbn in Hd, Hf. subst gd gf.
  unfold getSubtitles. cbn.
  repeat run1.
  unfold getNextSubtitle. cbn.
  run_all; subst P; cbn beta;
    (split; [reflexivity|]);
    unfold status_of; cbn; heap_simpl; reflexivity.
Qed.

(** C10. For every job item whose media source list is not empty, with
    [deferred] and [file] bound nowhere: the promise returned by
    [getSubtitles] is never resolved nor rejected; and once [getNewItem]
    has called [getSubtitles] (line 211), [getNextSubtitle] raises a
    ReferenceError, in its base case as in its recursive case, the promise
    of [getSubtitles] is never settled, the transfer-completion report is
    never sent, and the promise of [getNewItem] is never settled. *)
Theorem getSubtitles_never_settles (G : Globals) (apiClient : ApiClient.t)
    (jobItem : JobItem.t) (localItem : LocalItem.t) (st : Store) :
  g_deferred G = None -> g_file G = None ->
  LibraryItem.MediaSources (JobItem.Item jobItem) <> [] ->
  (forall n s', status_of 0 (run G E n (boot (getSubtitles apiClient jobItem localItem) st))
                = Some s' -> s' = Pending)
  /\ (exists err,
        In (EvUncaught err)
           (trace (run G E 12 (atLine211 G jobItem apiClient localItem st))))
  /\ forall n,
       (forall s', status_of 1 (run G E n (atLine211 G jobItem apiClient localItem st))
                   = Some s' -> s' = Pending)
       /\ (forall s', status_of 0 (run G E n (atLine211 G jobItem apiClient localItem st))
                      = Some s' -> s' = Pending)
       /\ Forall (fun e => isReport e = false)
            (trace (run G E n (atLine211 G jobItem apiClient localItem st))).
Proof.
  intros Hd Hf Hms.
  destruct (getSubtitles_unbound_rest G apiClient jobItem localItem st Hd Hf Hms)
    as (Hq & Hall & Herr & H0 & H1).
  destruct (getSubtitles_alone_rest G apiClient jobItem localItem st Hd Hf Hms)
    as (Hq' & H0').
  split; [|split; [exact Herr|]].
  - intros n. exact (never_settled G E 12 _ 0 (boot_wf _ _) Hq' H0' n).
  - intros n. split; [|split].
    + exact (never_settled G E 12 _ 1 (atLine211_wf _ _ _ _ _) Hq H1 n).
    + exact (never_settled G E 12 _ 0 (atLine211_wf _ _ _ _ _) Hq H0 n).
    + pose proof (never_happens G E _ 12 _ Hq Hall n) as Hn.
      eapply Forall_impl; [exact Hn|]. intros e He. apply He.
Qed.

End Subtitles.

Lemma getSubtitles_never_settles_witness :
  g_deferred no_globals = None /\ g_file no_globals = None
  /\ LibraryItem.MediaSources (JobItem.Item job1) <> []
  /\ Forall (fun e => isReport e = false)
       (trace (run no_globals (env1 all_succeed [] [] [job1]) 12
                 (atLine211 no_globals job1 api1 localEpisode1 (mkStore [] [] [] [])))).
Proof.
  split; [reflexivity|]. split; [reflexivity|]. split; [discriminate|].
  exact (proj2 (proj2 (proj2 (proj2 (getSubtitles_never_settles
                  (env1 all_succeed [] [] [job1])
                  no_globals api1 job1 localEpisode1 (mkStore [] [] [] [])
                  eq_refl eq_refl ltac:(discriminate))) 12))).
Defined.

(** ** The store changes only when a writing request completes *)

Section StoreFacts.

Variable G : Globals.
Variable E : Env.

Lemma step_store (s : State) :
  store (step G E s) = store s
  \/ exists op, mutates op = true /\ trace (step G E s) = EvOk op :: trace s.
Proof.
  unfold step. destruct (stack s) as [|[u|err|X e k] rest].
  - destruct (take_task _ _) as [[[c|op p] q]|]; cbn; try (left; reflexivity).
    unfold perform. destruct (env_fails E (clock s) op); [left; reflexivity|].
    destruct op; cbn; try (left; reflexivity);
      try (right; eexists; split; [|reflexivity]; reflexivity).
    destruct (find _ _); left; reflexivity.
  - left. reflexivity.
  - left. reflexivity.
  - left. apply exec_store.
Qed.

Lemma run_store (n : nat) (s : State) :
  Forall (fun e => isMutation e = false) (trace (run G E n s)) ->
  store (run G E n s) = store s.
Proof.
  revert s. induction n as [|n IH]; intros s Hno; [reflexivity|].
  rewrite run_S in *. rewrite (IH _ Hno).
  destruct (step_store s) as [Heq|(op & Hop & Htr)]; [exact Heq|].
  exfalso. destruct (run_trace G E n (step G E s)) as [es Hes].
  rewrite Hes, Htr in Hno. apply Forall_app in Hno. destruct Hno as [_ Hno].
  inversion Hno as [|? ? Hhd _]; subst. cbn in Hhd. congruence.
Qed.

End StoreFacts.

(** ** Access propagation: the comparison of access lists *)

(** The stored list and the reported list hold the same two users, in a
    different order: the item is written all the same. *)
Lemma access_same_set_is_written :
  same_set ["u1"; "u2"] ["u2"; "u1"] = true
  /\ In (EvStart (LAM_addOrUpdateLocalItem (localItem1 "i1" ["u2"; "u1"])))
       (trace (run (globals_serverId "s1") (env1 all_succeed [] [] []) 40
                 (boot (syncUserItemAccess
                          (SyncDataResult.mk [] [("i1", ["u2"; "u1"])]) "s1")
                    (mkStore [] [localItem1 "i1" ["u1"; "u2"]] [] []))))
  /\ st_items (store (run (globals_serverId "s1") (env1 all_succeed [] [] []) 40
                 (boot (syncUserItemAccess
                          (SyncDataResult.mk [] [("i1", ["u2"; "u1"])]) "s1")
                    (mkStore [] [localItem1 "i1" ["u1"; "u2"]] [] []))))
     = [localItem1 "i1" ["u2"; "u1"]].
Proof.
  split; [reflexivity|]. split.
  - vm_compute. auto 20.
  - vm_compute. reflexivity.
Qed.

Section Access.

Variable E : Env.

Lemma syncUserAccessForItem_rest (G : Globals) (itemId serverId : string)
    (syncDataResult : SyncDataResult.t) (st : Store) (localItem : LocalItem.t)
    (userIdsWithAccess : list string) :
  g_serverId G = Some serverId ->
  (forall t, env_fails E t (LAM_getLocalItem itemId serverId) = false) ->
  find (isLocalItem itemId serverId) (st_items st) = Some localItem ->
  assoc itemId (SyncDataResult.ItemUserAccess syncDataResult) = Some userIdsWithAccess ->
  quiescent (run G E 40 (boot (syncUserAccessForItem itemId syncDataResult) st)) = true
  /\ if String.eqb (join userIdsWithAccess) (join (LocalItem.UserIdsWithAccess localItem))
     then Forall (fun e => isWrite e = false /\ isMutation e = false)
            (trace (run G E 40 (boot (syncUserAccessForItem itemId syncDataResult) st)))
          /\ status_of 0 (run G E 40 (boot (syncUserAccessForItem itemId syncDataResult) st))
             = Some (Resolved VUndefined)
     else In (EvStart (LAM_addOrUpdateLocalItem
                         (setUserIdsWithAccess userIdsWithAccess localItem)))
            (trace (run G E 40 (boot (syncUserAccessForItem itemId syncDataResult) st))).
Proof.
  intros Hsid Hok Hfind Hassoc. focus_run P.
  destruct G as [gi gs gd gf gl]. cbn in Hsid. subst gs.
  unfold boot, syncUserAccessForItem. cbn.
  repeat run1.
  unfold perform. rewrite Hok, Hfind. cbn.
  repeat run1.
  rewrite Hassoc. cbn.
  destruct (String.eqb (join userIdsWithAccess) (join (LocalItem.UserIdsWithAccess localItem)))
    eqn:Hjoin; cbn.
  - run_all. subst P. cbn beta iota.
    split; [reflexivity|]. cbn. split; [repeat constructor|].
    unfold status_of. cbn. heap_simpl. reflexivity.
  - run_all; subst P; cbn beta iota;
      (split; [reflexivity|]); cbn; auto 20.
Qed.

Lemma syncUserAccessForItem_write_rest (G : Globals) (itemId serverId : string)
    (syncDataResult : SyncDataResult.t) (st : Store) (localItem : LocalItem.t)
    (userIdsWithAccess : list string) :
  g_serverId G = Some serverId ->
  (forall t, env_fails E t (LAM_getLocalItem itemId serverId) = false) ->
  find (isLocalItem itemId serverId) (st_items st) = Some localItem ->
  assoc itemId (SyncDataResult.ItemUserAccess syncDataResult) = Some userIdsWithAccess ->
  join userIdsWithAccess <> join (LocalItem.UserIdsWithAccess localItem) ->
  quiescent (run G E 40 (boot (syncUserAccessForItem itemId syncDataResult) st)) = true
  /\ ((In (EvOk (LAM_addOrUpdateLocalItem (setUserIdsWithAccess userIdsWithAccess localItem)))
          (trace (run G E 40 (boot (syncUserAccessForItem itemId syncDataResult) st)))
       /\ store (run G E 40 (boot (syncUserAccessForItem itemId syncDataResult) st))
          = written (setUserIdsWithAccess userIdsWithAccess localItem) st
       /\ status_of 0 (run G E 40 (boot (syncUserAccessForItem itemId syncDataResult) st))
          = Some (Resolved VUndefined))
      \/ (In (EvFailed (LAM_addOrUpdateLocalItem
                          (setUserIdsWithAccess userIdsWithAccess localItem)))
            (trace (run G E 40 (boot (syncUserAccessForItem itemId syncDataResult) st)))
          /\ store (run G E 40 (boot (syncUserAccessForItem itemId syncDataResult) st)) = st
          /\ status_of 0 (run G E 40 (boot (syncUserAccessForItem itemId syncDataResult) st))
             = Some Rejected)).
Proof.
  intros Hsid Hok Hfind Hassoc Hne. apply String.eqb_neq in Hne. focus_run P.
  destruct G as [gi gs gd gf gl]. cbn in Hsid. subst gs.
  unfold boot, syncUserAccessForItem. cbn.
  repeat run1.
  unfold perform. rewrite Hok, Hfind. cbn.
  repeat run1.
  rewrite Hassoc. cbn. rewrite Hne. cbn.
  run_all; subst P; cbn beta iota; (split; [reflexivity|]).
  - right. split; [cbn; auto 20|]. split; [reflexivity|].
    unfold status_of. cbn. heap_simpl. reflexivity.
  - left. split; [cbn; auto 20|]. split; [reflexivity|].
    unfold status_of. cbn. heap_simpl. reflexivity.
Qed.

(** C4, as the code has it, on a page that binds the [serverId] that line
    480 reads.  For every local item named in the access mapping and found
    in the store under that id: when the reported list and the stored
    list, each joined with commas, are the same string, nothing is ever
    written and the store stays as it is; when the two strings differ,
    the write of the item with the reported list is requested, and from
    the rest of the run on either that write has succeeded, the store
    holds the item with the reported list and the promise is resolved, or
    the write has failed, the store is as it was and the promise is
    rejected.  The comparison is textual and sensitive to order. *)
Theorem syncUserAccessForItem_writes_iff_joined_differ (G : Globals)
    (itemId serverId : string) (syncDataResult : SyncDataResult.t) (st : Store)
    (localItem : LocalItem.t) (userIdsWithAccess : list string) :
  g_serverId G = Some serverId ->
  (forall t, env_fails E t (LAM_getLocalItem itemId serverId) = false) ->
  find (isLocalItem itemId serverId) (st_items st) = Some localItem ->
  assoc itemId (SyncDataResult.ItemUserAccess syncDataResult) = Some userIdsWithAccess ->
  (join userIdsWithAccess = join (LocalItem.UserIdsWithAccess localItem) ->
   forall n,
     Forall (fun e => isWrite e = false)
       (trace (run G E n (boot (syncUserAccessForItem itemId syncDataResult) st)))
     /\ store (run G E n (boot (syncUserAccessForItem itemId syncDataResult) st)) = st)
  /\ (join userIdsWithAccess <> join (LocalItem.UserIdsWithAccess localItem) ->
      In (EvStart (LAM_addOrUpdateLocalItem
                     (setUserIdsWithAccess userIdsWithAccess localItem)))
         (trace (run G E 40 (boot (syncUserAccessForItem itemId syncDataResult) st)))
      /\ forall n,
           (In (EvOk (LAM_addOrUpdateLocalItem
                        (setUserIdsWithAccess userIdsWithAccess localItem)))
               (trace (run G E (40 + n)
                         (boot (syncUserAccessForItem itemId syncDataResult) st)))
            /\ store (run G E (40 + n)
                        (boot (syncUserAccessForItem itemId syncDataResult) st))
               = written (setUserIdsWithAccess userIdsWithAccess localItem) st
            /\ status_of 0 (run G E (40 + n)
                              (boot (syncUserAccessForItem itemId syncDataResult) st))
               = Some (Resolved VUndefined))
           \/ (In (EvFailed (LAM_addOrUpdateLocalItem
                               (setUserIdsWithAccess userIdsWithAccess localItem)))
                  (trace (run G E (40 + n)
                            (boot (syncUserAccessForItem itemId syncDataResult) st)))
               /\ store (run G E (40 + n)
                           (boot (syncUserAccessForItem itemId syncDataResult) st))
                  = st
               /\ status_of 0 (run G E (40 + n)
                                 (boot (syncUserAccessForItem itemId syncDataResult) st))
                  = Some Rejected)).
Proof.
  intros Hsid Hok Hfind Hassoc.
  destruct (syncUserAccessForItem_rest G itemId serverId syncDataResult st localItem
              userIdsWithAccess Hsid Hok Hfind Hassoc) as [Hq Hrest].
  split.
  - intros Heq. apply String.eqb_eq in Heq. rewrite Heq in Hrest.
    destruct Hrest as (Hno & _). intros n.
    pose proof (never_happens G E _ 40 _ Hq Hno n) as Hn. split.
    + eapply Forall_impl; [exact Hn|]. intros e He. apply He.
    + rewrite run_store; [reflexivity|].
      eapply Forall_impl; [exact Hn|]. intros e He. apply He.
  - intros Hne. split.
    + apply String.eqb_neq in Hne. rewrite Hne in Hrest. exact Hrest.
    + intros n. rewrite run_add, (run_quiescent G E n _ Hq).
      exact (proj2 (syncUserAccessForItem_write_rest G itemId serverId syncDataResult st
                      localItem userIdsWithAccess Hsid Hok Hfind Hassoc Hne)).
Qed.

End Access.

Lemma syncUserAccessForItem_writes_iff_joined_differ_witness :
  g_serverId (globals_serverId "s1") = Some "s1"
  /\ join ["u2"; "u1"] <> join ["u1"; "u2"]
  /\ In (EvStart (LAM_addOrUpdateLocalItem (localItem1 "i1" ["u2"; "u1"])))
       (trace (run (globals_serverId "s1") (env1 all_succeed [] [] []) 40
                 (boot (syncUserAccessForItem "i1"
                          (SyncDataResult.mk [] [("i1", ["u2"; "u1"])]))
                    (mkStore [] [localItem1 "i1" ["u1"; "u2"]] [] [])))).
Proof.
  split; [reflexivity|].
  assert (Hne : join ["u2"; "u1"] <> join ["u1"; "u2"]) by (vm_compute; discriminate).
  split; [exact Hne|].
  exact (proj1 (proj2 (syncUserAccessForItem_writes_iff_joined_differ
                         (env1 all_succeed [] [] []) (globals_serverId "s1") "i1" "s1"
                         (SyncDataResult.mk [] [("i1", ["u2"; "u1"])])
                         (mkStore [] [localItem1 "i1" ["u1"; "u2"]] [] [])
                         (localItem1 "i1" ["u1"; "u2"]) ["u2"; "u1"]
                         eq_refl (fun _ => eq_refl) eq_refl eq_refl) Hne)).
Defined.

(** ** Images: a failing download *)

(** The direct recursion of line 316 unfolds as written in the source. *)
Lemma getNextImage_eq (G : Globals) (index : nat) (apiClient : ApiClient.t)
    (localItem : LocalItem.t) (deferred : DeferredId) :
  getNextImage G index apiClient localItem deferred =
  if 4 <=? index then resolve deferred VUndefined
  else
    (item <- free "item" (g_item G) ;;
     let libraryItem := JobItem.Item item in
     let serverId := LibraryItem.ServerId libraryItem in
     let '(itemId, imageType, imageTag) := imageSlot index libraryItem in
     if negb (truthy itemId) then resolve deferred VUndefined
     else if negb (truthy imageTag) then
       getNextImage G (index + 1) apiClient localItem deferred
     else
       p <- downloadImage apiClient serverId (default "" itemId) (default "" imageTag)
              imageType ;;
       done p (cb_getNextImage_L320 index apiClient localItem deferred) ;;;
       fail p (cb_getOnFail deferred))%prog.
Proof.
  unfold getNextImage.
  do 4 (destruct index as [|index]; [reflexivity|]).
  reflexivity.
Qed.

(** The download of the first slot fails: the image sub-step is rejected,
    and the series slot, which has an identity and a tag, is not looked
    at. *)
Lemma image_failure_rejects_images :
  imageSlot 1 episode1 = (Some "series1", "Primary", Some "tag-series1")
  /\ In (EvFailed (LAM_downloadImage "http://server/Items/ep1/Images" "s1" "ep1" "tag-ep1"))
       (trace (run (globals_item job1) (env1 primary_download_fails [] [] [job1]) 60
                 (boot (getImages (globals_item job1) api1 job1 localEpisode1)
                    (mkStore [] [] [] []))))
  /\ status_of 0 (run (globals_item job1) (env1 primary_download_fails [] [] [job1]) 60
                    (boot (getImages (globals_item job1) api1 job1 localEpisode1)
                       (mkStore [] [] [] [])))
     = Some Rejected
  /\ started (run (globals_item job1) (env1 primary_download_fails [] [] [job1]) 60
                (boot (getImages (globals_item job1) api1 job1 localEpisode1)
                   (mkStore [] [] [] [])))
     = [LAM_hasImage "s1" "ep1" "tag-ep1";
        LAM_downloadImage "http://server/Items/ep1/Images" "s1" "ep1" "tag-ep1"]
  /\ quiescent (run (globals_item job1) (env1 primary_download_fails [] [] [job1]) 60
                  (boot (getImages (globals_item job1) api1 job1 localEpisode1)
                     (mkStore [] [] [] [])))
     = true.
Proof.
  split; [reflexivity|]. split; [vm_compute; auto 20|].
  split; [vm_compute; reflexivity|]. split; vm_compute; reflexivity.
Qed.

Section ImageFailure.

Variable E : Env.

(** C5, as the code has it.  For every slot that has an identity and a
    tag and whose image is not on the device yet: when the download of
    the image fails, the promise of the image sub-step is rejected, and
    the existence check and the download of this slot are the only two
    requests there ever are: no later slot is evaluated. *)
Theorem image_download_failure_rejects (G : Globals) (item : JobItem.t) (index : nat)
    (apiClient : ApiClient.t) (localItem : LocalItem.t) (st : Store)
    (itemId imageType imageTag : string) :
  g_item G = Some item ->
  index < 4 ->
  imageSlot index (JobItem.Item item) = (Some itemId, imageType, Some imageTag) ->
  itemId <> "" -> imageTag <> "" ->
  (forall t, env_fails E t
     (LAM_hasImage (LibraryItem.ServerId (JobItem.Item item)) itemId imageTag) = false) ->
  existsb (isImage (LibraryItem.ServerId (JobItem.Item item)) itemId imageTag) (st_images st)
    = false ->
  (forall t url, env_fails E t
     (LAM_downloadImage url (LibraryItem.ServerId (JobItem.Item item)) itemId imageTag) = true) ->
  status_of 0 (run G E 60 (atSlot G index apiClient localItem st)) = Some Rejected
  /\ started (run G E 60 (atSlot G index apiClient localItem st))
     = [LAM_hasImage (LibraryItem.ServerId (JobItem.Item item)) itemId imageTag;
        LAM_downloadImage
          (ApiClient.getImageUrl apiClient itemId
             [("Tag", imageTag); ("ImageType", imageType);
              ("api_key", ApiClient.accessToken apiClient)])
          (LibraryItem.ServerId (JobItem.Item item)) itemId imageTag]
  /\ forall n, exists es : list Event,
       trace (run G E 60 (atSlot G index apiClient localItem st))
       = es ++ trace (run G E n (atSlot G index apiClient localItem st)).
Proof.
  intros Hitem Hindex Hslot Hid Htag Hhas Hnot Hfails.
  assert (Hrest :
    quiescent (run G E 60 (atSlot G index apiClient localItem st)) = true
    /\ status_of 0 (run G E 60 (atSlot G index apiClient localItem st)) = Some Rejected
    /\ started (run G E 60 (atSlot G index apiClient localItem st))
       = [LAM_hasImage (LibraryItem.ServerId (JobItem.Item item)) itemId imageTag;
          LAM_downloadImage
            (ApiClient.getImageUrl apiClient itemId
               [("Tag", imageTag); ("ImageType", imageType);
                ("api_key", ApiClient.accessToken apiClient)])
            (LibraryItem.ServerId (JobItem.Item item)) itemId imageTag]).
  { focus_run P. unfold atSlot. rewrite getNextImage_eq.
    apply Nat.leb_gt in Hindex. rewrite Hindex, Hitem. cbn. rewrite Hslot. cbn.
    apply String.eqb_neq in Hid, Htag. rewrite Hid, Htag. cbn.
    unfold downloadImage. cbn.
    repeat run1.
    unfold perform at 1. rewrite Hhas. cbn. rewrite Hnot.
    repeat run1.
    unfold perform at 1. rewrite Hfails. cbn.
    run_all. subst P. cbn beta.
    split; [reflexivity|]. split.
    - unfold status_of. cbn. heap_simpl. reflexivity.
    - reflexivity. }
  destruct Hrest as (Hq & Hrej & Hall).
  split; [exact Hrej|]. split; [exact Hall|].
  exact (run_earlier G E 60 _ Hq).
Qed.

End ImageFailure.

Lemma image_download_failure_rejects_witness :
  status_of 0 (run (globals_item job1) (env1 primary_download_fails [] [] [job1]) 60
                 (atSlot (globals_item job1) 0 api1 localEpisode1 (mkStore [] [] [] [])))
  = Some Rejected.
Proof.
  refine (proj1 (image_download_failure_rejects
                   (env1 primary_download_fails [] [] [job1]) (globals_item job1) job1 0
                   api1 localEpisode1 (mkStore [] [] [] []) "ep1" "Primary" "tag-ep1"
                   eq_refl _ eq_refl _ _ (fun _ => eq_refl) eq_refl (fun _ _ => eq_refl)));
    [lia|discriminate|discriminate].
Defined.

(** ** Reaching a state

    [reaches s Q]: the run from [s] gets, after some number of steps, to a
    state that satisfies [Q]. *)

Section Reach.

Variable G : Globals.
Variable E : Env.

Lemma reaches_now (s : State) (Q : State -> Prop) : Q s -> reaches G E s Q.
Proof. intros H. exists 0. exact H. Qed.

Lemma reaches_step (s : State) (Q : State -> Prop) :
  reaches G E (step G E s) Q -> reaches G E s Q.
Proof. intros [N H]. exists (S N). exact H. Qed.

Lemma reaches_impl (s : State) (Q Q' : State -> Prop) :
  reaches G E s Q -> (forall s', Q s' -> Q' s') -> reaches G E s Q'.
Proof. intros [N H] Himp. exists N. apply Himp, H. Qed.

(** A state of rest that is reached is where the run stays. *)
Lemma reaches_rest (s : State) (Q : State -> Prop) :
  reaches G E s (fun s' => quiescent s' = true /\ Q s') ->
  exists N, forall n, N <= n -> quiescent (run G E n s) = true /\ Q (run G E n s).
Proof.
  intros (N & Hq & HQ). exists N. intros n Hle.
  replace n with (N + (n - N)) by lia.
  rewrite run_add, run_quiescent by exact Hq. split; assumption.
Qed.

End Reach.

Ltac reach1 :=
  lazymatch goal with
  | |- reaches ?G ?E (mkState ?h ?nx ?k ?q ?st ?c ?t) ?Q =>
      lazymatch k with
      | [] => lazymatch q with _ :: _ => idtac end
      | Ret _ :: _ => idtac
      | Throw _ :: _ => idtac
      | Vis _ _ :: _ => idtac
      end;
      apply reaches_step; cbn; heap_simpl; cbn
  end.

(** ** Removal sub-phase *)

Ltac now_tac Hnow :=
  apply Hnow;
  [ cbn; forall_list; reflexivity
  | first [ left; reflexivity
          | right; unfold status_of; cbn; heap_simpl; reflexivity ] ].

Section Removal.

Variable G : Globals.
Variable E : Env.

(** The loop of lines 127-143, entered from one of its own callbacks with
    [k] items left: whatever the deletions do, it goes through all of them
    and resolves its Deferred. *)
Lemma removeNextLocalItem_loop (k : nat) :
  forall (ids : list string) (j : nat) (sid : string) (d : DeferredId)
         (h : gmap nat Cell) (nx : nat) (st : Store) (c : nat) (tr : list Event),
  length ids = j + k ->
  d < nx ->
  h !! d = Some (mkCell Pending [] []) ->
  reaches G E
    (mkState h nx [removeNextLocalItem ids j sid d; Ret tt; Ret tt] [] st c tr)
    (fun s' => quiescent s' = true
               /\ heap s' !! d = Some (mkCell (Resolved VUndefined) [] [])
               /\ attempted (trace s') = rev (drop j ids) ++ attempted tr).
Proof.
  induction k as [|k IH]; intros ids j sid d h nx st c tr Hlen Hd Hhd;
    unfold removeNextLocalItem.
  - assert (Hle : (length ids <=? j) = true) by (apply Nat.leb_le; lia).
    rewrite Hle. cbn. set (Q := fun s' : State => _).
    reach1. rewrite Hhd. cbn. repeat reach1.
    apply reaches_now. subst Q. cbn.
    split; [reflexivity|]. split; [heap_simpl; reflexivity|].
    rewrite drop_ge by lia. reflexivity.
  - assert (Hle : (length ids <=? j) = false) by (apply Nat.leb_gt; lia).
    rewrite Hle.
    destruct (ids !! j) as [itemId|] eqn:Hj;
      [|apply lookup_ge_None in Hj; lia].
    unfold removeLocalItem. cbn. set (Q := fun s' : State => _).
    repeat reach1.
    unfold perform.
    destruct (env_fails E (S c) (LAM_removeLocalItem itemId sid)); cbn;
      repeat reach1; subst Q;
      (eapply reaches_impl;
       [ apply (IH ids (j + 1) sid d); [lia|lia|heap_simpl; exact Hhd]
       | cbn; intros s' (Hq & Hres & Hatt);
         split; [exact Hq|]; split; [exact Hres|];
         rewrite Hatt, (drop_S _ _ _ Hj); cbn;
         replace (j + 1) with (S j) by lia;
         rewrite <- app_assoc; reflexivity ]).
Qed.

(** The removal sub-phase on its own: every item of the list gets its
    deletion request, in the order of the list, and the promise is
    resolved. *)
Lemma removeLocalItems_all_attempted (syncDataResult : SyncDataResult.t)
    (serverId : string) (st : Store) :
  reaches G E (boot (removeLocalItems syncDataResult serverId) st)
    (fun s' => quiescent s' = true
               /\ (status_of 0 s' = Some (Resolved VUndefined)
                   /\ rev (attempted (trace s'))
                      = SyncDataResult.ItemIdsToRemove syncDataResult)).
Proof.
  unfold boot, removeLocalItems. destruct syncDataResult as [ids access]. cbn.
  set (Q := fun s' : State => _).
  repeat reach1. unfold removeNextLocalItem.
  destruct ids as [|itemId rest]; cbn.
  - repeat reach1. apply reaches_now. subst Q. cbn.
    split; [reflexivity|]. split; [|reflexivity].
    unfold status_of. cbn. heap_simpl. reflexivity.
  - change ((itemId :: rest) !! 0) with (Some itemId). cbn.
    repeat reach1.
    unfold perform.
    destruct (env_fails E 1 (LAM_removeLocalItem itemId serverId)); cbn;
      repeat reach1; subst Q;
      (eapply reaches_impl;
       [ apply (removeNextLocalItem_loop (length rest) (itemId :: rest) 1 serverId 0);
         [cbn; lia|lia|heap_simpl; reflexivity]
       | cbn; intros s' (Hq & Hres & Hatt);
         split; [exact Hq|]; split;
         [ unfold status_of; rewrite Hres; reflexivity
         | rewrite Hatt, rev_app_distr, rev_involutive; reflexivity ] ]).
Qed.

(** Reconciliation: unless one of its two requests fails, the Deferred of
    [syncData] (number 0) is resolved by line 113 before any deletion has
    had time to fail. *)
Lemma syncData_resolved_early (apiClient : ApiClient.t) (serverInfo : ServerInfo.t)
    (flag : bool) (st : Store) :
  reaches G E (boot (syncData apiClient serverInfo flag) st)
    (fun s' => Forall (fun e => noRemovalFailure e = true) (trace s')
               /\ (quiescent s' = true \/ status_of 0 s' = Some (Resolved VUndefined))).
Proof.
  unfold boot, syncData. cbn. set (Q := fun s' : State => _).
  assert (Hnow : forall s', Forall (fun e => noRemovalFailure e = true) (trace s') ->
            (quiescent s' = true \/ status_of 0 s' = Some (Resolved VUndefined)) ->
            reaches G E s' Q).
  { intros s' H1 H2. apply reaches_now. split; assumption. }
  clearbody Q.
  repeat reach1.
  unfold perform at 1. destruct (env_fails E 1 _); cbn.
  { repeat reach1. now_tac Hnow. }
  repeat reach1.
  unfold perform at 1. destruct (env_fails E 2 _); cbn.
  { repeat reach1. now_tac Hnow. }
  repeat reach1.
  unfold removeNextLocalItem.
  destruct (SyncDataResult.ItemIdsToRemove _) as [|itemId rest]; cbn.
  - repeat reach1. destruct flag; cbn.
    + repeat reach1. unfold syncNextUserAccessForItem.
      destruct (map fst _) as [|x xs]; cbn.
      * repeat first [solve [now_tac Hnow] | reach1].
      * change ((x :: xs) !! 0) with (Some x). cbn.
        repeat first [solve [now_tac Hnow] | reach1].
    + repeat first [solve [now_tac Hnow] | reach1].
  - change ((itemId :: rest) !! 0) with (Some itemId). cbn.
    repeat first [solve [now_tac Hnow] | reach1].
Qed.

(** C8. (1) For every removal list, whichever deletions fail, the removal
    sub-phase requests the deletion of every item of the list, once and in
    the order of the list, and its promise (Deferred 0 of its run) is
    resolved.  (2) For every
    reconciliation call, whenever a deletion has failed the promise of the
    call is resolved: no deletion failure fails the call. *)
Theorem removal_failures_are_isolated :
  (forall (syncDataResult : SyncDataResult.t) (serverId : string) (st : Store),
     exists N, forall n, N <= n ->
       quiescent (run G E n (boot (removeLocalItems syncDataResult serverId) st)) = true
       /\ status_of 0 (run G E n (boot (removeLocalItems syncDataResult serverId) st))
          = Some (Resolved VUndefined)
       /\ rev (attempted (trace (run G E n (boot (removeLocalItems syncDataResult serverId) st))))
          = SyncDataResult.ItemIdsToRemove syncDataResult)
  /\ (forall (apiClient : ApiClient.t) (serverInfo : ServerInfo.t) (flag : bool)
             (st : Store) (n : nat) (itemId serverId : string),
        In (EvFailed (LAM_removeLocalItem itemId serverId))
           (trace (run G E n (boot (syncData apiClient serverInfo flag) st))) ->
        status_of 0 (run G E n (boot (syncData apiClient serverInfo flag) st))
        = Some (Resolved VUndefined)).
Proof.
  split.
  - intros syncDataResult serverId st.
    exact (reaches_rest G E _ _ (removeLocalItems_all_attempted syncDataResult serverId st)).
  - intros apiClient serverInfo flag st n itemId serverId Hin.
    destruct (syncData_resolved_early apiClient serverInfo flag st) as (K & Hno & Hor).
    assert (Hcontra : forall tr : list Event,
              Forall (fun e => noRemovalFailure e = true) tr ->
              ~ In (EvFailed (LAM_removeLocalItem itemId serverId)) tr).
    { intros tr Hall Hin'. rewrite List.Forall_forall in Hall.
      specialize (Hall _ Hin'). discriminate Hall. }
    destruct (le_lt_dec n K) as [Hle|Hlt].
    + exfalso.
      destruct (run_trace_le G E n K (boot (syncData apiClient serverInfo flag) st) Hle)
        as [es Hes].
      apply (Hcontra _ Hno). rewrite Hes. apply in_or_app. right. exact Hin.
    + replace n with (K + (n - K)) in * by lia. rewrite run_add in *.
      destruct Hor as [Hq|Hres].
      * exfalso. rewrite run_quiescent in Hin by exact Hq.
        exact (Hcontra _ Hno Hin).
      * apply run_settled; [apply run_wf, boot_wf|exact Hres|discriminate].
Qed.

End Removal.

Lemma removal_failures_are_isolated_witness :
  In (EvFailed (LAM_removeLocalItem "a" "s1"))
     (trace (run no_globals (env1 removal_of_a_fails ["a"; "b"] [] []) 80
               (boot (syncData api1 server1 false)
                  (mkStore [] [localItem1 "a" []; localItem1 "b" []] [] []))))
  /\ status_of 0 (run no_globals (env1 removal_of_a_fails ["a"; "b"] [] []) 80
                    (boot (syncData api1 server1 false)
                       (mkStore [] [localItem1 "a" []; localItem1 "b" []] [] [])))
     = Some (Resolved VUndefined).
Proof.
  assert (Hin : In (EvFailed (LAM_removeLocalItem "a" "s1"))
     (trace (run no_globals (env1 removal_of_a_fails ["a"; "b"] [] []) 80
               (boot (syncData api1 server1 false)
                  (mkStore [] [localItem1 "a" []; localItem1 "b" []] [] [])))))
    by (vm_compute; auto 40).
  split; [exact Hin|].
  exact (proj2 (removal_failures_are_isolated no_globals
                  (env1 removal_of_a_fails ["a"; "b"] [] []))
           api1 server1 false (mkStore [] [localItem1 "a" []; localItem1 "b" []] [] [])
           80 "a" "s1" Hin).
Defined.

(** The scenario of the specification: deleting "a" fails, deleting "b"
    succeeds; "b" is removed, "a" remains, and the call succeeds. *)
Example removal_scenario :
  map LocalItem.ItemId
    (st_items (store (run no_globals (env1 removal_of_a_fails ["a"; "b"] [] []) 80
                        (boot (syncData api1 server1 false)
                           (mkStore [] [localItem1 "a" []; localItem1 "b" []] [] [])))))
  = ["a"]
  /\ rev (attempted (trace (run no_globals (env1 removal_of_a_fails ["a"; "b"] [] []) 80
                        (boot (syncData api1 server1 false)
                           (mkStore [] [localItem1 "a" []; localItem1 "b" []] [] [])))))
     = ["a"; "b"].
Proof. split; vm_compute; reflexivity. Qed.

(** ** Reconciliation: completion before the removals (line 113) *)

Lemma settled_pending (o : option Status) :
  (forall st, o = Some st -> st = Pending) -> settled o = false.
Proof.
  intros H. destruct o as [[|v|]|]; try reflexivity;
    specialize (H _ eq_refl); discriminate H.
Qed.

Section EarlyCompletion.

Variable G : Globals.
Variable E : Env.

(** Whenever the two requests of the reconciliation succeed and the server
    asks for at least one removal, the promise of the call is resolved
    while the first deletion is still waiting to be requested and the store
    is untouched. *)
Lemma syncData_resolves_with_removals_pending (apiClient : ApiClient.t)
    (serverInfo : ServerInfo.t) (flag : bool) (st : Store) :
  (forall t serverId, env_fails E t (LAM_getServerItemIds serverId) = false) ->
  (forall t request, env_fails E t (Api_syncData request) = false) ->
  (forall t request, SyncDataResult.ItemIdsToRemove (env_syncData E t request) <> []) ->
  reaches G E (boot (syncData apiClient serverInfo flag) st)
    (fun s' => status_of 0 s' = Some (Resolved VUndefined)
               /\ attempted (trace s') = []
               /\ store s' = st
               /\ exists itemId serverId d,
                    queue s' = [TRequire (cb_removeLocalItem_L151 itemId serverId d)]).
Proof.
  intros Hids Hsync Hrem.
  unfold boot, syncData. cbn. set (Q := fun s' : State => _).
  repeat reach1.
  unfold perform at 1. rewrite Hids. cbn.
  repeat reach1.
  unfold perform at 1. rewrite Hsync. cbn.
  repeat reach1.
  unfold removeNextLocalItem.
  destruct (SyncDataResult.ItemIdsToRemove _) as [|itemId rest] eqn:Hr;
    [exfalso; exact (Hrem _ _ Hr)|]. cbn.
  change ((itemId :: rest) !! 0) with (Some itemId). cbn.
  do 9 reach1.
  apply reaches_now. subst Q. cbn.
  split; [unfold status_of; cbn; heap_simpl; reflexivity|].
  split; [reflexivity|]. split; [reflexivity|]. eauto.
Qed.

End EarlyCompletion.

(** C2, at a removal list of one item.  The server asks for the removal of
    "a".  After 29 steps the promise of the reconciliation call is resolved
    (by line 113) while the deletion of "a" has not even been requested: the
    [require] of [removeLocalItem] is still waiting, and "a" is still in the
    store.  The deletion is requested, and done, only later. *)
Theorem syncData_resolved_before_removal :
  status_of 0 (run no_globals (env1 all_succeed ["a"] [] []) 29
                 (boot (syncData api1 server1 false) (mkStore [] [localItem1 "a" []] [] [])))
  = Some (Resolved VUndefined)
  /\ attempted (trace (run no_globals (env1 all_succeed ["a"] [] []) 29
                 (boot (syncData api1 server1 false) (mkStore [] [localItem1 "a" []] [] []))))
     = []
  /\ queue (run no_globals (env1 all_succeed ["a"] [] []) 29
              (boot (syncData api1 server1 false) (mkStore [] [localItem1 "a" []] [] [])))
     = [TRequire (cb_removeLocalItem_L151 "a" "s1" 4)]
  /\ st_items (store (run no_globals (env1 all_succeed ["a"] [] []) 29
              (boot (syncData api1 server1 false) (mkStore [] [localItem1 "a" []] [] []))))
     = [localItem1 "a" []]
  /\ attempted (trace (run no_globals (env1 all_succeed ["a"] [] []) 45
                 (boot (syncData api1 server1 false) (mkStore [] [localItem1 "a" []] [] []))))
     = ["a"]
  /\ st_items (store (run no_globals (env1 all_succeed ["a"] [] []) 45
              (boot (syncData api1 server1 false) (mkStore [] [localItem1 "a" []] [] []))))
     = [].
Proof. repeat split; vm_compute; reflexivity. Qed.

(** ** Images: the slots *)

Section Slots.

Variable G : Globals.

(** With [item] bound, a slot without an identity ends the image sub-step
    (line 310) and a slot with an identity but no tag is passed over (line
    315): this is what lines 284-318 are written to do. *)
Lemma getNextImage_no_identity (item : JobItem.t) (index : nat) (apiClient : ApiClient.t)
    (localItem : LocalItem.t) (deferred : DeferredId) :
  g_item G = Some item ->
  truthy (fst (fst (imageSlot index (JobItem.Item item)))) = false ->
  getNextImage G index apiClient localItem deferred = resolve deferred VUndefined.
Proof.
  intros Hitem Hid. rewrite getNextImage_eq.
  destruct (4 <=? index); [reflexivity|].
  rewrite Hitem. cbn.
  destruct (imageSlot index (JobItem.Item item)) as [[itemId imageType] imageTag].
  cbn in Hid. rewrite Hid. reflexivity.
Qed.

Lemma getNextImage_no_tag (item : JobItem.t) (index : nat) (apiClient : ApiClient.t)
    (localItem : LocalItem.t) (deferred : DeferredId) :
  g_item G = Some item ->
  index < 4 ->
  truthy (fst (fst (imageSlot index (JobItem.Item item)))) = true ->
  truthy (snd (imageSlot index (JobItem.Item item))) = false ->
  getNextImage G index apiClient localItem deferred
  = getNextImage G (index + 1) apiClient localItem deferred.
Proof.
  intros Hitem Hindex Hid Htag. rewrite (getNextImage_eq G index).
  apply Nat.leb_gt in Hindex. rewrite Hindex, Hitem. cbn.
  destruct (imageSlot index (JobItem.Item item)) as [[itemId imageType] imageTag].
  cbn in Hid, Htag. rewrite Hid, Htag. reflexivity.
Qed.

End Slots.

(** On a page where [item] is the job item: slot 0 is downloaded, slots 1
    and 2 are passed over, slot 3 is downloaded. *)
Example slots_when_item_is_bound :
  started (run (globals_item job2) (env1 all_succeed [] [] [job2]) 80
             (boot (getImages (globals_item job2) api1 job2 localEpisode2)
                (mkStore [] [] [] [])))
  = [LAM_hasImage "s1" "ep2" "tag-ep2";
     LAM_downloadImage "http://server/Items/ep2/Images" "s1" "ep2" "tag-ep2";
     LAM_hasImage "s1" "album1" "tag-album1";
     LAM_downloadImage "http://server/Items/album1/Images" "s1" "album1" "tag-album1"]
  /\ status_of 0 (run (globals_item job2) (env1 all_succeed [] [] [job2]) 80
                    (boot (getImages (globals_item job2) api1 job2 localEpisode2)
                       (mkStore [] [] [] [])))
     = Some (Resolved VUndefined).
Proof. split; vm_compute; reflexivity. Qed.

(** C6, at the job item of the scenario.  As the file is, with [item]
    bound nowhere, no slot is evaluated: the image sub-step stops on the
    ReferenceError of line 277, requests nothing, and its promise stays
    pending. *)
Theorem slots_are_not_evaluated :
  history (run no_globals (env1 all_succeed [] [] [job2]) 80
             (boot (getImages no_globals api1 job2 localEpisode2) (mkStore [] [] [] [])))
  = [EvUncaught "ReferenceError: item is not defined"]
  /\ started (run no_globals (env1 all_succeed [] [] [job2]) 80
                (boot (getImages no_globals api1 job2 localEpisode2) (mkStore [] [] [] [])))
     = []
  /\ status_of 0 (run no_globals (env1 all_succeed [] [] [job2]) 80
                    (boot (getImages no_globals api1 job2 localEpisode2) (mkStore [] [] [] [])))
     = Some Pending.
Proof. repeat split; vm_compute; reflexivity. Qed.

(** ** Content fetcher: a fetch that never completes *)

Section StuckFetch.

Variable G : Globals.
Variable E : Env.

(** For every job list whose first item is created and downloaded, with
    [item] bound nowhere: the fetch comes to rest on the ReferenceError of
    line 277 with its promise pending, whatever the rest of the list is. *)
Lemma getNewMedia_stops_at_first_item (apiClient : ApiClient.t) (serverInfo : ServerInfo.t)
    (st : Store) (jobItem : JobItem.t) (rest : list JobItem.t) :
  g_item G = None ->
  (forall t deviceId, env_readyItems E t deviceId = jobItem :: rest) ->
  (forall t op, match op with
                | Api_getReadySyncItems _ | LAM_createLocalItem _ _ _
                | LAM_downloadFile _ _ | LAM_addOrUpdateLocalItem _ => env_fails E t op = false
                | _ => True
                end) ->
  reaches G E (boot (getNewMedia apiClient serverInfo) st)
    (fun s' => quiescent s' = true
               /\ status_of 0 s' = Some Pending
               /\ In (EvUncaught "ReferenceError: item is not defined") (trace s')).
Proof.
  intros Hitem Hready Hok.
  destruct G as [gi gs gd gf gl]. cbn in Hitem. subst gi.
  unfold boot, getNewMedia. cbn. set (Q := fun s' : State => _).
  repeat reach1.
  unfold perform at 1. rewrite (Hok _ (Api_getReadySyncItems _)), Hready. cbn.
  repeat reach1.
  unfold getNextNewItem. cbn.
  change ((jobItem :: rest) !! 0) with (Some jobItem). cbn.
  repeat reach1.
  unfold perform at 1. rewrite (Hok _ (LAM_createLocalItem _ _ _)). cbn.
  repeat reach1.
  unfold perform at 1. rewrite (Hok _ (LAM_downloadFile _ _)). cbn.
  repeat reach1.
  unfold perform at 1. rewrite (Hok _ (LAM_addOrUpdateLocalItem _)). cbn.
  repeat reach1.
  unfold getImages, getNextImage. cbn.
  repeat reach1.
  apply reaches_now. subst Q. cbn.
  split; [reflexivity|]. split; [unfold status_of; cbn; heap_simpl; reflexivity|].
  auto.
Qed.

Lemma getNewMedia_stops_forever (apiClient : ApiClient.t) (serverInfo : ServerInfo.t)
    (st : Store) (jobItem : JobItem.t) (rest : list JobItem.t) :
  g_item G = None ->
  (forall t deviceId, env_readyItems E t deviceId = jobItem :: rest) ->
  (forall t op, match op with
                | Api_getReadySyncItems _ | LAM_createLocalItem _ _ _
                | LAM_downloadFile _ _ | LAM_addOrUpdateLocalItem _ => env_fails E t op = false
                | _ => True
                end) ->
  forall n, settled (status_of 0 (run G E n (boot (getNewMedia apiClient serverInfo) st)))
            = false.
Proof.
  intros Hitem Hready Hok n.
  destruct (getNewMedia_stops_at_first_item apiClient serverInfo st jobItem rest
              Hitem Hready Hok) as (N & Hq & Hp & _).
  apply settled_pending.
  exact (never_settled G E N _ 0 (boot_wf _ _) Hq Hp n).
Qed.

End StuckFetch.

(** C7, at a job list of one item whose creation and media download
    succeed.  The item's pipeline stops on the ReferenceError of line 277;
    the promise of [getNewItem] (number 2) is never settled, neither
    handler of lines 188-193 runs, and the promise of [getNewMedia] (number
    0) is never settled: the fetch phase does not complete. *)
Theorem getNewMedia_never_completes :
  In (EvUncaught "ReferenceError: item is not defined")
     (trace (run no_globals (env1 all_succeed [] [] [job1]) 46
               (boot (getNewMedia api1 server1) (mkStore [] [] [] []))))
  /\ forall n,
       settled (status_of 0 (run no_globals (env1 all_succeed [] [] [job1]) n
                               (boot (getNewMedia api1 server1) (mkStore [] [] [] []))))
       = false
       /\ settled (status_of 2 (run no_globals (env1 all_succeed [] [] [job1]) n
                                  (boot (getNewMedia api1 server1) (mkStore [] [] [] []))))
          = false.
Proof.
  split; [vm_compute; auto 40|].
  assert (Hq : quiescent (run no_globals (env1 all_succeed [] [] [job1]) 46
                            (boot (getNewMedia api1 server1) (mkStore [] [] [] []))) = true)
    by (vm_compute; reflexivity).
  assert (H0 : status_of 0 (run no_globals (env1 all_succeed [] [] [job1]) 46
                              (boot (getNewMedia api1 server1) (mkStore [] [] [] [])))
               = Some Pending)
    by (vm_compute; reflexivity).
  assert (H2 : status_of 2 (run no_globals (env1 all_succeed [] [] [job1]) 46
                              (boot (getNewMedia api1 server1) (mkStore [] [] [] [])))
               = Some Pending)
    by (vm_compute; reflexivity).
  intros n. split; apply settled_pending.
  - exact (never_settled _ _ 46 _ 0 (boot_wf _ _) Hq H0 n).
  - exact (never_settled _ _ 46 _ 2 (boot_wf _ _) Hq H2 n).
Qed.

(** When the creation of every item fails, the failures are swallowed and
    the fetch completes: the iteration of lines 178-194 does what it is
    written to do as long as each item's promise is settled. *)
Example getNewMedia_swallows_rejections :
  status_of 0 (run no_globals (env1 creation_fails [] [] [job1; job2]) 80
                 (boot (getNewMedia api1 server1) (mkStore [] [] [] [])))
  = Some (Resolved VUndefined)
  /\ length (List.filter isStart
               (trace (run no_globals (env1 creation_fails [] [] [job1; job2]) 80
                         (boot (getNewMedia api1 server1) (mkStore [] [] [] [])))))
     = 3.
Proof. split; vm_compute; reflexivity. Qed.

(** ** Orchestrator: access propagation is switched off *)

Arguments prog_quiet {A} m : simpl nomatch.

Lemma prog_quiet_bind {A B : Type} (m : Prog A) (f : A -> Prog B) :
  prog_quiet m -> (forall a, prog_quiet (f a)) -> prog_quiet (bind m f).
Proof.
  intros Hm Hf. induction m as [a|err|X e k IH]; cbn in *.
  - apply Hf.
  - exact I.
  - destruct Hm as [He Hk]. split; [exact He|]. intros x. apply IH, Hk.
Qed.

Ltac quiet :=
  cbn;
  lazymatch goal with
  | |- True => exact I
  | |- _ /\ _ => split; quiet
  | |- forall _, _ => intros; quiet
  | |- _ = _ => first [reflexivity | assumption]
  | |- prog_quiet (bind _ _) => apply prog_quiet_bind; quiet
  | |- prog_quiet (if ?b then _ else _) => destruct b; quiet
  | |- prog_quiet (match ?x with _ => _ end) => destruct x; quiet
  | |- prog_quiet (free _ ?b) => unfold free; quiet
  | |- _ => idtac
  end.

Section Quiet.
Variable G : Globals.

Lemma getNextImage_rec_quiet (budget : nat) :
  forall index apiClient localItem deferred,
    prog_quiet (getNextImage_rec G budget index apiClient localItem deferred).
Proof.
  induction budget as [|budget IH]; intros index apiClient localItem deferred;
    unfold getNextImage_rec; fold getNextImage_rec.
  - quiet.
  - destruct (4 <=? index); [quiet|].
    apply prog_quiet_bind; [quiet|]. intros item.
    destruct (imageSlot index (JobItem.Item item)) as [[itemId imageType] imageTag].
    destruct (negb (truthy itemId)); [quiet|].
    destruct (negb (truthy imageTag)); [apply IH|quiet].
Qed.

Lemma apply_cont_quiet (c : Cont) (v : Val) :
  cont_quiet c = true -> prog_quiet (apply_cont G c v).
Proof.
  intros Hc. destruct c; cbn in Hc; try discriminate Hc;
    try (apply negb_true_iff in Hc; subst);
    try (apply getNextImage_rec_quiet);
    unfold apply_cont, afterSyncData, removeLocalItems, removeNextLocalItem, removeLocalItem,
      getNextNewItem, getNewItem, getImages, getNextImage, getNextSubtitle, getItemSubtitle;
    quiet.
Qed.

End Quiet.

Section QuietRun.

Variable G : Globals.
Variable E : Env.

Lemma heap_quiet_insert (h : gmap nat Cell) (d : DeferredId) (c : Cell) :
  (forall d' c', h !! d' = Some c' -> cell_quiet c') ->
  cell_quiet c ->
  forall d' c', <[d := c]> h !! d' = Some c' -> cell_quiet c'.
Proof.
  intros Hh Hc d' c' Hl. destruct (decide (d = d')) as [->|Hne].
  - rewrite lookup_insert_eq in Hl. congruence.
  - rewrite lookup_insert_ne in Hl by assumption. eapply Hh, Hl.
Qed.

Lemma map_apply_quiet (cs : list Cont) (v : Val) :
  Forall (fun k => cont_quiet k = true) cs ->
  Forall prog_quiet (map (fun c => apply_cont G c v) cs).
Proof.
  induction 1; cbn; constructor; auto using apply_cont_quiet.
Qed.

Lemma exec_quiet {X : Type} (e : Eff X) (k : X -> Prog unit) (rest : list (Prog unit))
    (s : State) :
  state_quiet s -> eff_quiet e -> (forall x, prog_quiet (k x)) -> Forall prog_quiet rest ->
  state_quiet (exec G e k rest s).
Proof.
  intros [Hst Hh Hq Htr] He Hk Hrest.
  assert (Hnil : cell_quiet (mkCell Pending [] [])) by (split; constructor).
  destruct e; cbn in *.
  - split; cbn; auto. eapply heap_quiet_insert; eauto.
  - destruct (heap s !! d) as [[[] ds fs]|] eqn:Hd; cbn;
      try (split; cbn; auto; fail).
    destruct (Hh _ _ Hd) as [Hds Hfs]. split; cbn.
    + apply Forall_app_2; [apply map_apply_quiet, Hds|auto].
    + eapply heap_quiet_insert; eauto; split; constructor.
    + exact Hq.
    + constructor; [reflexivity|exact Htr].
  - destruct (heap s !! d) as [[[] ds fs]|] eqn:Hd; cbn;
      try (split; cbn; auto; fail).
    destruct (Hh _ _ Hd) as [Hds Hfs]. split; cbn.
    + apply Forall_app_2; [apply map_apply_quiet, Hfs|auto].
    + eapply heap_quiet_insert; eauto; split; constructor.
    + exact Hq.
    + constructor; [reflexivity|exact Htr].
  - destruct (heap s !! p) as [[[] ds fs]|] eqn:Hd; cbn;
      try (split; cbn; auto; fail).
    + destruct (Hh _ _ Hd) as [Hds Hfs]. split; cbn; auto.
      eapply heap_quiet_insert; eauto. split; cbn; [|exact Hfs].
      apply Forall_app_2; [exact Hds|constructor; [exact He|constructor]].
    + split; cbn; auto. constructor; [apply apply_cont_quiet, He|auto].
  - destruct (heap s !! p) as [[[] ds fs]|] eqn:Hd; cbn;
      try (split; cbn; auto; fail).
    + destruct (Hh _ _ Hd) as [Hds Hfs]. split; cbn; auto.
      eapply heap_quiet_insert; eauto. split; cbn; [exact Hds|].
      apply Forall_app_2; [exact Hfs|constructor; [exact He|constructor]].
    + split; cbn; auto. constructor; [apply apply_cont_quiet, He|auto].
  - split; cbn; auto.
    + eapply heap_quiet_insert; eauto.
    + apply Forall_app_2; [exact Hq|constructor; [exact I|constructor]].
  - split; cbn; auto.
    apply Forall_app_2; [exact Hq|constructor; [exact He|constructor]].
  - split; cbn; auto.
Qed.

Lemma take_task_quiet (i : nat) (q q' : list Task) (t : Task) :
  take_task i q = Some (t, q') ->
  Forall task_quiet q -> task_quiet t /\ Forall task_quiet q'.
Proof.
  unfold take_task. intros Htake Hq.
  destruct q as [|t0 [|t1 q1]]; [discriminate| |].
  - inversion Htake; subst. inversion Hq; subst. split; [assumption|constructor].
  - destruct ((t0 :: t1 :: q1) !! i) as [t'|] eqn:Hi; inversion Htake; subst.
    + split; [eapply Forall_lookup_1; eauto|apply Forall_delete, Hq].
    + inversion Hq; subst. split; assumption.
Qed.

Lemma step_quiet (s : State) : state_quiet s -> state_quiet (step G E s).
Proof.
  intros Hs. pose proof Hs as [Hst Hh Hq Htr]. unfold step.
  destruct (stack s) as [|[u|err|X e k] rest] eqn:Hstack.
  - destruct (take_task _ _) as [[t q']|] eqn:Htake; [|exact Hs].
    destruct (take_task_quiet _ _ _ _ Htake Hq) as [Ht Hq'].
    destruct t as [c|op p]; cbn.
    + split; cbn; auto. constructor; [apply apply_cont_quiet, Ht|constructor].
    + destruct (perform E (clock s) op (store s)) as [[v|] st'];
        split; cbn; auto; repeat constructor; auto.
  - inversion Hst; subst. split; cbn; auto.
  - split; cbn; auto.
  - inversion Hst as [|? ? Hhd Hrest]; subst.
    cbn in Hhd. destruct Hhd as [He Hk].
    apply exec_quiet; auto.
Qed.

Lemma run_quiet (n : nat) (s : State) : state_quiet s -> state_quiet (run G E n s).
Proof.
  revert s. induction n as [|n IH]; intros s Hs; [exact Hs|].
  rewrite run_S. apply IH, step_quiet, Hs.
Qed.

(** No run of [sync] propagates access.  In every run, whatever the server
    answers, whichever requests fail and in whatever order they complete:
    no event of the access-propagation sub-phase ever occurs.  Both
    reconciliation passes are called with the flag off (lines 14 and 20),
    and nothing else reaches [syncUserItemAccess]: the code of lines
    100-106 and 440-500 is never run. *)
Theorem sync_never_propagates_access (apiClient : ApiClient.t) (serverInfo : ServerInfo.t)
    (st : Store) (n : nat) :
  Forall (fun e => isAccess e = false)
    (trace (run G E n (boot (sync apiClient serverInfo) st))).
Proof.
  apply sq_trace, run_quiet. split.
  - cbn. constructor; [|constructor]. unfold sync, reportOfflineActions. quiet.
  - cbn. intros d c Hl. rewrite lookup_empty in Hl. discriminate.
  - constructor.
  - constructor.
Qed.

End QuietRun.

(** C1, at a successful run.  The server reports that "u1" may access
    "i1", which the device holds with an empty access list, and no request
    fails.  The run succeeds after two reconciliation passes, the second
    one after the fetch; no item is loaded for access propagation in
    either pass, and the access list of "i1" is still empty: the second
    pass has not run with access propagation enabled. *)
Lemma second_pass_without_access_propagation :
  status_of 0 (run no_globals (env1 all_succeed [] [("i1", ["u1"])] []) 150
                 (boot (sync api1 server1) (mkStore [] [localItem1 "i1" []] [] [])))
  = Some (Resolved VUndefined)
  /\ SyncDataResult.ItemUserAccess
       (env_syncData (env1 all_succeed [] [("i1", ["u1"])] []) 0
          (SyncDataRequest.mk "device1" ["i1"] ["u1"]))
     = [("i1", ["u1"])]
  /\ List.filter isAccess
       (trace (run no_globals (env1 all_succeed [] [("i1", ["u1"])] []) 150
                 (boot (sync api1 server1) (mkStore [] [localItem1 "i1" []] [] []))))
     = []
  /\ length (List.filter (isLog "Begin syncData")
               (trace (run no_globals (env1 all_succeed [] [("i1", ["u1"])] []) 150
                         (boot (sync api1 server1) (mkStore [] [localItem1 "i1" []] [] [])))))
     = 2
  /\ st_items (store (run no_globals (env1 all_succeed [] [("i1", ["u1"])] []) 150
                 (boot (sync api1 server1) (mkStore [] [localItem1 "i1" []] [] []))))
     = [localItem1 "i1" []].
Proof. repeat split; vm_compute; reflexivity. Qed.

(** ** Runs that have come to rest *)

Section AtRest.

Variable G : Globals.
Variable E : Env.

Lemma run_after_rest (N n : nat) (s : State) :
  quiescent (run G E N s) = true -> run G E (N + n) s = run G E N s.
Proof. intros Hq. rewrite run_add. apply run_quiescent, Hq. Qed.

(** The requests sent so far stay at the head of the list of requests. *)
Lemma started_more (k n : nat) (s : State) :
  exists more, started (run G E (k + n) s) = started (run G E k s) ++ more.
Proof.
  rewrite run_add. destruct (run_trace G E n (run G E k s)) as [es Hes].
  exists (omap (fun e => match e with EvStart op => Some op | _ => None end) (rev es)).
  unfold started, history. rewrite Hes, rev_app_distr, omap_app. reflexivity.
Qed.

End AtRest.

Lemma no_start_started (s : State) :
  Forall (fun e => isStart e = false) (trace s) -> started s = [].
Proof.
  unfold started, history. induction (trace s) as [|e tr IH]; intros Hno; [reflexivity|].
  inversion Hno as [|? ? He Htr]; subst. cbn. rewrite omap_app, IH by exact Htr.
  destruct e; try reflexivity. discriminate He.
Qed.

(** ** Offline action reporter: outcomes *)

(** Deleting the actions read for a server leaves exactly the actions of
    the other servers. *)
Lemma delete_own_actions (serverId : string) (actions : list OfflineAction.t) :
  List.filter (fun a => negb (existsb (sameAction a) (actionsOf serverId actions))) actions
  = actionsNotOf serverId actions.
Proof.
  unfold actionsNotOf. apply filter_ext_in. intros a Ha. f_equal.
  destruct (String.eqb (OfflineAction.ServerId a) serverId) eqn:Hs.
  - apply existsb_exists. exists a. split.
    + apply filter_In. split; assumption.
    + unfold sameAction. rewrite !String.eqb_refl. reflexivity.
  - apply not_true_is_false. intros Hex. apply existsb_exists in Hex.
    destruct Hex as (b & Hb & Hsame). apply filter_In in Hb. destruct Hb as [_ Hb].
    unfold sameAction in Hsame. apply andb_true_iff in Hsame. destruct Hsame as [_ Hsame].
    apply String.eqb_eq in Hsame, Hb. rewrite Hsame, Hb, String.eqb_refl in Hs.
    discriminate.
Qed.

Lemma actionsNotOf_all (serverId : string) (actions : list OfflineAction.t) :
  actionsOf serverId actions = [] -> actionsNotOf serverId actions = actions.
Proof.
  unfold actionsOf, actionsNotOf. induction actions as [|a l IH]; [reflexivity|].
  cbn. destruct (String.eqb (OfflineAction.ServerId a) serverId); [discriminate|].
  cbn. intros H. rewrite IH by exact H. reflexivity.
Qed.

Section ReporterOutcome.

Variable G : Globals.
Variable E : Env.

(** X1. Every run of [reportOfflineActions] comes to rest within 60 steps,
    whatever the queue holds and whatever the three requests do.  From
    then on its promise is settled: rejected when a request has failed
    (lines 56, 58, 60), resolved otherwise (lines 46, 54); and the local
    items, images and files of the device are as they were. *)
Theorem reportOfflineActions_outcome (apiClient : ApiClient.t) (serverInfo : ServerInfo.t)
    (st : Store) (n : nat) :
  quiescent (run G E (60 + n) (boot (reportOfflineActions apiClient serverInfo) st)) = true
  /\ status_of 0 (run G E (60 + n) (boot (reportOfflineActions apiClient serverInfo) st))
     = Some (if existsb isFailed
                  (trace (run G E (60 + n)
                            (boot (reportOfflineActions apiClient serverInfo) st)))
             then Rejected else Resolved VUndefined)
  /\ st_items (store (run G E (60 + n) (boot (reportOfflineActions apiClient serverInfo) st)))
     = st_items st
  /\ st_images (store (run G E (60 + n) (boot (reportOfflineActions apiClient serverInfo) st)))
     = st_images st
  /\ st_files (store (run G E (60 + n) (boot (reportOfflineActions apiClient serverInfo) st)))
     = st_files st.
Proof.
  rewrite (run_after_rest G E 60 n _
             (proj1 (reportOfflineActions_rest G E apiClient serverInfo st))).
  focus_run P. unfold boot, reportOfflineActions. cbn.
  run_all; subst P; cbn beta; (split; [reflexivity|]);
    (split; [unfold status_of; cbn; heap_simpl; reflexivity|]);
    (split; [reflexivity|]); split; reflexivity.
Qed.

(** X2. When the device holds no queued action for the server (and the
    queue can be read), [reportOfflineActions] resolves its promise without
    uploading anything: reading the queue is the only request it ever
    sends (lines 45-48), and the store is untouched. *)
Theorem reportOfflineActions_nothing_queued (apiClient : ApiClient.t)
    (serverInfo : ServerInfo.t) (st : Store) (n : nat) :
  (forall t, env_fails E t (LAM_getOfflineActions (ServerInfo.Id serverInfo)) = false) ->
  actionsOf (ServerInfo.Id serverInfo) (st_actions st) = [] ->
  status_of 0 (run G E (60 + n) (boot (reportOfflineActions apiClient serverInfo) st))
  = Some (Resolved VUndefined)
  /\ started (run G E (60 + n) (boot (reportOfflineActions apiClient serverInfo) st))
     = [LAM_getOfflineActions (ServerInfo.Id serverInfo)]
  /\ store (run G E (60 + n) (boot (reportOfflineActions apiClient serverInfo) st)) = st.
Proof.
  intros Hok Hnone.
  rewrite (run_after_rest G E 60 n _
             (proj1 (reportOfflineActions_rest G E apiClient serverInfo st))).
  focus_run P. unfold boot, reportOfflineActions. cbn.
  repeat run1. unfold perform at 1. rewrite Hok. cbn.
  unfold actionsOf in Hnone. rewrite Hnone. cbn.
  run_all. subst P. cbn beta.
  split; [unfold status_of; cbn; heap_simpl; reflexivity|].
  split; reflexivity.
Qed.

(** X3. When none of its requests fails, [reportOfflineActions] uploads
    the actions queued for the server in one batch, deletes that very
    batch (line 52 passes on the [actions] of line 43) and resolves its
    promise; the queue is left with exactly the actions of the other
    servers, in their order. *)
Theorem reportOfflineActions_clears_own_queue (apiClient : ApiClient.t)
    (serverInfo : ServerInfo.t) (st : Store) (n : nat) :
  (forall t op, reporterOp op = true -> env_fails E t op = false) ->
  status_of 0 (run G E (60 + n) (boot (reportOfflineActions apiClient serverInfo) st))
  = Some (Resolved VUndefined)
  /\ st_actions (store (run G E (60 + n)
                          (boot (reportOfflineActions apiClient serverInfo) st)))
     = actionsNotOf (ServerInfo.Id serverInfo) (st_actions st)
  /\ started (run G E (60 + n) (boot (reportOfflineActions apiClient serverInfo) st))
     = LAM_getOfflineActions (ServerInfo.Id serverInfo)
       :: match actionsOf (ServerInfo.Id serverInfo) (st_actions st) with
          | [] => []
          | actions => [Api_reportOfflineActions actions; LAM_deleteOfflineActions actions]
          end.
Proof.
  intros Hok.
  rewrite (run_after_rest G E 60 n _
             (proj1 (reportOfflineActions_rest G E apiClient serverInfo st))).
  focus_run P. unfold boot, reportOfflineActions. cbn.
  repeat run1. unfold perform at 1.
  rewrite (Hok _ (LAM_getOfflineActions _) eq_refl). cbn.
  fold (actionsOf (ServerInfo.Id serverInfo) (st_actions st)).
  destruct (actionsOf (ServerInfo.Id serverInfo) (st_actions st)) as [|a l] eqn:Hacts.
  - cbn. run_all. subst P. cbn beta.
    split; [unfold status_of; cbn; heap_simpl; reflexivity|].
    split; [|reflexivity]. cbn. symmetry. apply actionsNotOf_all, Hacts.
  - cbn. repeat run1. unfold perform at 1.
    rewrite (Hok _ (Api_reportOfflineActions _) eq_refl). cbn.
    repeat run1. unfold perform at 1.
    rewrite (Hok _ (LAM_deleteOfflineActions _) eq_refl). cbn.
    run_all. subst P. cbn beta.
    split; [unfold status_of; cbn; heap_simpl; reflexivity|].
    split; [|reflexivity].
    rewrite <- delete_own_actions, Hacts. reflexivity.
Qed.

End ReporterOutcome.

Lemma reportOfflineActions_nothing_queued_witness :
  actionsOf (ServerInfo.Id server1) (st_actions (mkStore [action3] [] [] [])) = []
  /\ started (run no_globals (env1 all_succeed [] [] []) (60 + 0)
                (boot (reportOfflineActions api1 server1) (mkStore [action3] [] [] [])))
     = [LAM_getOfflineActions (ServerInfo.Id server1)].
Proof.
  split; [reflexivity|].
  exact (proj1 (proj2 (reportOfflineActions_nothing_queued no_globals
                         (env1 all_succeed [] [] []) api1 server1
                         (mkStore [action3] [] [] []) 0 (fun _ => eq_refl) eq_refl))).
Defined.

Lemma reportOfflineActions_clears_own_queue_witness :
  st_actions (store (run no_globals (env1 all_succeed [] [] []) (60 + 0)
                       (boot (reportOfflineActions api1 server1)
                          (mkStore [action1; action3; action2] [] [] []))))
  = actionsNotOf (ServerInfo.Id server1)
      (st_actions (mkStore [action1; action3; action2] [] [] [])).
Proof.
  exact (proj1 (proj2 (reportOfflineActions_clears_own_queue no_globals
                         (env1 all_succeed [] [] []) api1 server1
                         (mkStore [action1; action3; action2] [] [] []) 0
                         (fun _ _ _ => eq_refl)))).
Defined.

(** ** Symbolic execution up to a state

    [reach_sync] runs the script and completes a request; it stops when the
    stack is empty and a [require] is waiting, which is where the loops of
    the file hand over to their next item.  [reach_split] makes a case
    distinction on what blocks the next step. *)

Ltac heap_hyps :=
  repeat match goal with
    | H : ?h !! ?d = Some _ |- context [?h !! ?d] => rewrite H
    end.

Ltac reach_sync :=
  lazymatch goal with
  | |- reaches ?G ?E (mkState ?h ?nx ?k ?q ?st ?c ?t) ?Q =>
      lazymatch k with
      | [] => lazymatch q with TOp _ _ :: _ => idtac end
      | Ret _ :: _ => idtac
      | Throw _ :: _ => idtac
      | Vis _ _ :: _ => idtac
      end;
      apply reaches_step; cbn; heap_simpl; heap_hyps; cbn
  end.

Ltac reach_split :=
  lazymatch goal with
  | |- reaches _ _ ?s _ =>
      match s with
      | context [perform ?E ?t ?o ?st] =>
          unfold perform at 1; destruct (env_fails E t o) eqn:?; cbn
      | context [match find ?f ?l with _ => _ end] => destruct (find f l) eqn:?; cbn
      | mkState _ _ ((if ?b then _ else _) :: _) _ _ _ _ => destruct b eqn:?; cbn
      | mkState _ _ ((match ?x with _ => _ end) :: _) _ _ _ _ => destruct x eqn:?; cbn
      end
  end.

Ltac reach_downloadMedia :=
  lazymatch goal with
  | |- reaches _ _ (mkState _ _ [] [TRequire (cb_downloadMedia_L235 _ _ _ _)] _ _ _) _ =>
      apply reaches_step; cbn; heap_simpl; heap_hyps; cbn
  end.

(** ** Orchestrator: the order of the phases *)

Arguments prog_ok okC okOp okLog {A} m : simpl nomatch.

Section Confinement.

Variable G : Globals.
Variable E : Env.
Variable okC : Cont -> bool.
Variable okOp : Op -> bool.
Variable okLog : string -> bool.
Variable gate : DeferredId.

Hypothesis apply_cont_ok :
  forall c v, okC c = true -> prog_ok okC okOp okLog (apply_cont G c v).

Lemma map_apply_ok (cs : list Cont) (v : Val) :
  Forall (fun k => okC k = true) cs ->
  Forall (prog_ok okC okOp okLog) (map (fun c => apply_cont G c v) cs).
Proof.
  induction 1; cbn; constructor; auto.
Qed.

Lemma confined_insert (h : gmap nat Cell) (d : DeferredId) (c : Cell) :
  (forall d' c', h !! d' = Some c' -> Forall (fun k => okC k = true) (fails c')) ->
  (forall d' c', h !! d' = Some c' -> d' <> gate ->
     Forall (fun k => okC k = true) (dones c')) ->
  Forall (fun k => okC k = true) (fails c) ->
  (d <> gate -> Forall (fun k => okC k = true) (dones c)) ->
  (forall d' c', <[d := c]> h !! d' = Some c' -> Forall (fun k => okC k = true) (fails c'))
  /\ (forall d' c', <[d := c]> h !! d' = Some c' -> d' <> gate ->
        Forall (fun k => okC k = true) (dones c')).
Proof.
  intros Hf Hd Hcf Hcd. split; intros d' c' Hl.
  - destruct (decide (d = d')) as [->|Hne].
    + rewrite lookup_insert_eq in Hl. congruence.
    + rewrite lookup_insert_ne in Hl by assumption. eapply Hf, Hl.
  - intros Hg. destruct (decide (d = d')) as [->|Hne].
    + rewrite lookup_insert_eq in Hl. inversion Hl; subst. apply Hcd, Hg.
    + rewrite lookup_insert_ne in Hl by assumption. eapply Hd; eassumption.
Qed.

Lemma exec_confined {X : Type} (e : Eff X) (k : X -> Prog unit) (rest : list (Prog unit))
    (s : State) :
  confined okC okOp okLog gate s -> eff_ok okC okOp okLog e ->
  (forall x, prog_ok okC okOp okLog (k x)) -> Forall (prog_ok okC okOp okLog) rest ->
  until_gate okC okOp okLog gate (exec G e k rest s).
Proof.
  intros [Hst Hf Hd Hq Htr] He Hk Hrest. unfold until_gate.
  assert (Hnil : Forall (fun k => okC k = true) []) by constructor.
  destruct e; cbn in *.
  - right. destruct (confined_insert (heap s) (next s) (mkCell Pending [] []) Hf Hd Hnil
                       (fun _ => Hnil)) as [Hf' Hd'].
    split; cbn; auto.
  - destruct (heap s !! d) as [[[] ds fs]|] eqn:Hl; cbn;
      try (right; split; cbn; auto; fail).
    destruct (decide (d = gate)) as [->|Hne]; [left; left; reflexivity|].
    right.
    destruct (confined_insert (heap s) d (mkCell (Resolved v) [] []) Hf Hd Hnil
                (fun _ => Hnil)) as [Hf' Hd'].
    split; cbn; auto.
    apply Forall_app_2; [apply map_apply_ok, (Hd _ _ Hl Hne)|auto].
  - destruct (heap s !! d) as [[[] ds fs]|] eqn:Hl; cbn;
      try (right; split; cbn; auto; fail).
    right.
    destruct (confined_insert (heap s) d (mkCell Rejected [] []) Hf Hd Hnil
                (fun _ => Hnil)) as [Hf' Hd'].
    split; cbn; auto.
    apply Forall_app_2; [apply map_apply_ok, (Hf _ _ Hl)|auto].
  - destruct (heap s !! p) as [[[] ds fs]|] eqn:Hl; cbn;
      try (right; split; cbn; auto; fail).
    right.
    assert (Hds : p <> gate -> Forall (fun k => okC k = true) (ds ++ [c])).
    { intros Hne. apply Forall_app_2; [apply (Hd _ _ Hl Hne)|].
      constructor; [exact He|constructor]. }
    destruct (confined_insert (heap s) p (mkCell Pending (ds ++ [c]) fs) Hf Hd
                (Hf _ _ Hl) Hds) as [Hf' Hd'].
    split; cbn; auto.
  - destruct (heap s !! p) as [[[] ds fs]|] eqn:Hl; cbn;
      try (right; split; cbn; auto; fail).
    right.
    assert (Hfs : Forall (fun k => okC k = true) (fs ++ [c])).
    { apply Forall_app_2; [apply (Hf _ _ Hl)|]. constructor; [exact He|constructor]. }
    destruct (confined_insert (heap s) p (mkCell Pending ds (fs ++ [c])) Hf Hd
                Hfs (fun Hne => Hd _ _ Hl Hne)) as [Hf' Hd'].
    split; cbn; auto.
  - right. destruct (confined_insert (heap s) (next s) (mkCell Pending [] []) Hf Hd Hnil
                       (fun _ => Hnil)) as [Hf' Hd'].
    split; cbn; auto.
    apply Forall_app_2; [exact Hq|constructor; [exact I|constructor]].
  - right. split; cbn; auto.
    apply Forall_app_2; [exact Hq|constructor; [exact He|constructor]].
  - right. split; cbn; auto.
Qed.

Lemma take_task_ok (i : nat) (q q' : list Task) (t : Task) :
  take_task i q = Some (t, q') ->
  Forall (task_ok okC) q -> task_ok okC t /\ Forall (task_ok okC) q'.
Proof.
  unfold take_task. intros Htake Hq.
  destruct q as [|t0 [|t1 q1]]; [discriminate| |].
  - inversion Htake; subst. inversion Hq; subst. split; [assumption|constructor].
  - destruct ((t0 :: t1 :: q1) !! i) as [t'|] eqn:Hi; inversion Htake; subst.
    + split; [eapply Forall_lookup_1; eauto|apply Forall_delete, Hq].
    + inversion Hq; subst. split; assumption.
Qed.

Lemma step_until_gate (s : State) :
  until_gate okC okOp okLog gate s -> until_gate okC okOp okLog gate (step G E s).
Proof.
  intros [Hin|Hs].
  - left. destruct (step_trace G E s) as [es ->]. apply in_or_app. right. exact Hin.
  - pose proof Hs as [Hst Hf Hd Hq Htr]. unfold step.
    destruct (stack s) as [|[u|err|X e k] rest] eqn:Hstack.
    + destruct (take_task _ _) as [[t q']|] eqn:Htake; [|right; exact Hs].
      destruct (take_task_ok _ _ _ _ Htake Hq) as [Ht Hq'].
      right. destruct t as [c|op p]; cbn.
      * split; cbn; auto.
      * destruct (perform E (clock s) op (store s)) as [[v|] st'];
          split; cbn; auto; repeat constructor; auto.
    + right. inversion Hst; subst. split; cbn; auto.
    + right. split; cbn; auto.
    + inversion Hst as [|? ? Hhd Hrest]; subst.
      cbn in Hhd. destruct Hhd as [He Hk].
      apply exec_confined; auto.
Qed.

Lemma run_until_gate (n : nat) (s : State) :
  until_gate okC okOp okLog gate s -> until_gate okC okOp okLog gate (run G E n s).
Proof.
  revert s. induction n as [|n IH]; intros s Hs; [exact Hs|].
  rewrite run_S. apply IH, step_until_gate, Hs.
Qed.

(** From a state confined to a phase, only events of the phase happen
    until the gate is resolved. *)
Lemma confined_until_gate (n : nat) (s : State) :
  confined okC okOp okLog gate s ->
  In (EvSettled gate true) (trace (run G E n s))
  \/ Forall (fun e => ev_ok okOp okLog e = true) (trace (run G E n s)).
Proof.
  intros Hs. destruct (run_until_gate n s (or_intror Hs)) as [Hin|Hc].
  - left. exact Hin.
  - right. apply (cf_trace _ _ _ _ _ Hc).
Qed.

End Confinement.

Section Orchestrator.

Variable G : Globals.
Variable E : Env.

Lemma apply_cont_reporter (c : Cont) (v : Val) :
  cont_reporter c = true ->
  prog_ok cont_reporter reporterOp log_reporter (apply_cont G c v).
Proof.
  intros Hc. destruct c; cbn in Hc; try discriminate Hc; cbn; auto.
  destruct v; cbn; auto. destruct (length actions =? 0); cbn; auto.
Qed.

(** Once [sync] has returned, everything in flight belongs to the offline
    action reporter; the callback of line 11 waits for the promise of the
    reporter (Deferred 1). *)
Lemma sync_starts_confined (apiClient : ApiClient.t) (serverInfo : ServerInfo.t)
    (st : Store) :
  confined cont_reporter reporterOp log_reporter 1
    (run G E 7 (boot (sync apiClient serverInfo) st)).
Proof.
  unfold boot, sync, reportOfflineActions. cbn. do 7 run1. unfold run.
  split; cbn.
  - constructor.
  - intros d c Hl.
    destruct d as [|[|d]]; revert Hl; heap_simpl; intros Hl; inversion Hl; subst; cbn;
      forall_list; reflexivity.
  - intros d c Hl Hne.
    destruct d as [|[|d]]; [| lia |]; revert Hl; heap_simpl; intros Hl; inversion Hl;
      subst; cbn; forall_list.
  - forall_list. reflexivity.
  - forall_list. reflexivity.
Qed.

(** X4. In every run of [sync], whatever the requests do and in whatever
    order they complete: as long as the promise of [reportOfflineActions]
    (Deferred 1) has not been resolved, the only requests sent are those of
    the reporter and no other phase has logged its start.  Reconciliation
    and fetch begin only inside the [done] callback of line 11. *)
Theorem sync_reports_first (apiClient : ApiClient.t) (serverInfo : ServerInfo.t)
    (st : Store) (n : nat) :
  In (EvSettled 1 true) (trace (run G E n (boot (sync apiClient serverInfo) st)))
  \/ Forall (fun e => isReporting e = true)
       (trace (run G E n (boot (sync apiClient serverInfo) st))).
Proof.
  pose proof (sync_starts_confined apiClient serverInfo st) as H7.
  destruct (le_lt_dec n 7) as [Hle|Hlt].
  - right.
    destruct (run_trace_le G E n 7 (boot (sync apiClient serverInfo) st) Hle) as [es Hes].
    pose proof (cf_trace _ _ _ _ _ H7) as Htr. rewrite Hes in Htr.
    apply Forall_app in Htr. apply Htr.
  - replace n with (7 + (n - 7)) by lia. rewrite run_add.
    apply (confined_until_gate G E cont_reporter reporterOp log_reporter 1
             apply_cont_reporter), H7.
Qed.

(** The reporter phase of [sync] ends in one of two ways: [sync] at rest
    and rejected, or the promise of the reporter resolved. *)
Lemma sync_reporting_outcomes (apiClient : ApiClient.t) (serverInfo : ServerInfo.t)
    (st : Store) :
  reaches G E (boot (sync apiClient serverInfo) st)
    (fun s' => (quiescent s' = true /\ status_of 0 s' = Some Rejected
                /\ Forall (fun e => isReporting e = true) (trace s'))
               \/ status_of 1 s' = Some (Resolved VUndefined)).
Proof.
  unfold boot, sync, reportOfflineActions. cbn. set (Q := fun s' : State => _).
  assert (Hnow : forall s',
            (quiescent s' = true /\ status_of 0 s' = Some Rejected
             /\ Forall (fun e => isReporting e = true) (trace s'))
            \/ status_of 1 s' = Some (Resolved VUndefined) ->
            reaches G E s' Q).
  { intros s' H. apply reaches_now. exact H. }
  clearbody Q.
  repeat first
    [ solve [ apply Hnow; right; unfold status_of; cbn; heap_simpl; reflexivity ]
    | solve [ apply Hnow; left; split; [reflexivity|];
              split; [unfold status_of; cbn; heap_simpl; reflexivity|];
              cbn; forall_list; reflexivity ]
    | reach1
    | reach_split ].
Qed.

(** X5. When the promise of [reportOfflineActions] (Deferred 1) is
    rejected, [sync] comes to rest with its own promise rejected (line 30),
    and it has sent no request and logged no start of any later phase:
    no reconciliation and no fetch follow a failed report. *)
Theorem sync_fails_with_reporting (apiClient : ApiClient.t) (serverInfo : ServerInfo.t)
    (st : Store) (n : nat) :
  status_of 1 (run G E n (boot (sync apiClient serverInfo) st)) = Some Rejected ->
  exists N, forall m, N <= m ->
    quiescent (run G E m (boot (sync apiClient serverInfo) st)) = true
    /\ status_of 0 (run G E m (boot (sync apiClient serverInfo) st)) = Some Rejected
    /\ Forall (fun e => isReporting e = true)
         (trace (run G E m (boot (sync apiClient serverInfo) st))).
Proof.
  intros Hrej.
  destruct (sync_reporting_outcomes apiClient serverInfo st) as (K & [Hrest|Hres]).
  - exists K. intros m Hm. replace m with (K + (m - K)) by lia.
    rewrite (run_after_rest G E K (m - K) _ (proj1 Hrest)). exact Hrest.
  - exfalso. destruct (le_lt_dec n K) as [Hle|Hlt].
    + replace K with (n + (K - n)) in Hres by lia. rewrite run_add in Hres.
      rewrite (run_settled G E (K - n) _ 1 Rejected) in Hres;
        [discriminate Hres|apply run_wf, boot_wf|exact Hrej|discriminate].
    + replace n with (K + (n - K)) in Hrej by lia. rewrite run_add in Hrej.
      rewrite (run_settled G E (n - K) _ 1 (Resolved VUndefined)) in Hrej;
        [discriminate Hrej|apply run_wf, boot_wf|exact Hres|discriminate].
Qed.

End Orchestrator.

Lemma sync_fails_with_reporting_witness :
  status_of 1 (run no_globals (env1 queue_read_fails [] [] []) 20
                 (boot (sync api1 server1) (mkStore [action1] [] [] [])))
  = Some Rejected
  /\ exists N, forall m, N <= m ->
       quiescent (run no_globals (env1 queue_read_fails [] [] []) m
                    (boot (sync api1 server1) (mkStore [action1] [] [] []))) = true
       /\ status_of 0 (run no_globals (env1 queue_read_fails [] [] []) m
                         (boot (sync api1 server1) (mkStore [action1] [] [] [])))
          = Some Rejected
       /\ Forall (fun e => isReporting e = true)
            (trace (run no_globals (env1 queue_read_fails [] [] []) m
                      (boot (sync api1 server1) (mkStore [action1] [] [] [])))).
Proof.
  assert (Hrej : status_of 1 (run no_globals (env1 queue_read_fails [] [] []) 20
                                (boot (sync api1 server1) (mkStore [action1] [] [] [])))
                 = Some Rejected) by (vm_compute; reflexivity).
  split; [exact Hrej|].
  exact (sync_fails_with_reporting no_globals (env1 queue_read_fails [] [] []) api1 server1
           (mkStore [action1] [] [] []) 20 Hrej).
Defined.

Section Idle.

Variable G : Globals.
Variable E : Env.

(** X6. A run of [sync] with nothing to do: no request fails, no action
    is queued for the server, the server asks for no removal and has
    nothing ready.  The promise of [sync] is resolved after exactly six
    requests, in the order of lines 11-20: the read of the queue, a first
    reconciliation, the listing of the ready items, and a second
    reconciliation that sends the same request as the first; the store is
    untouched. *)
Theorem sync_with_nothing_to_do (apiClient : ApiClient.t) (serverInfo : ServerInfo.t)
    (st : Store) (n : nat) :
  (forall t op, env_fails E t op = false) ->
  actionsOf (ServerInfo.Id serverInfo) (st_actions st) = [] ->
  (forall t request, SyncDataResult.ItemIdsToRemove (env_syncData E t request) = []) ->
  (forall t deviceId, env_readyItems E t deviceId = []) ->
  status_of 0 (run G E (200 + n) (boot (sync apiClient serverInfo) st))
  = Some (Resolved VUndefined)
  /\ started (run G E (200 + n) (boot (sync apiClient serverInfo) st))
     = [LAM_getOfflineActions (ServerInfo.Id serverInfo);
        LAM_getServerItemIds (ServerInfo.Id serverInfo);
        Api_syncData (requestOf apiClient serverInfo st);
        Api_getReadySyncItems (ApiClient.deviceId apiClient);
        LAM_getServerItemIds (ServerInfo.Id serverInfo);
        Api_syncData (requestOf apiClient serverInfo st)]
  /\ store (run G E (200 + n) (boot (sync apiClient serverInfo) st)) = st.
Proof.
  intros Hok Hnone Hrem Hready.
  assert (Hrest :
    quiescent (run G E 200 (boot (sync apiClient serverInfo) st)) = true
    /\ status_of 0 (run G E 200 (boot (sync apiClient serverInfo) st))
       = Some (Resolved VUndefined)
    /\ started (run G E 200 (boot (sync apiClient serverInfo) st))
       = [LAM_getOfflineActions (ServerInfo.Id serverInfo);
          LAM_getServerItemIds (ServerInfo.Id serverInfo);
          Api_syncData (requestOf apiClient serverInfo st);
          Api_getReadySyncItems (ApiClient.deviceId apiClient);
          LAM_getServerItemIds (ServerInfo.Id serverInfo);
          Api_syncData (requestOf apiClient serverInfo st)]
    /\ store (run G E 200 (boot (sync apiClient serverInfo) st)) = st).
  { focus_run P. unfold boot, sync, reportOfflineActions. cbn.
    unfold actionsOf in Hnone.
    repeat first
      [ run1
      | unfold perform at 1; rewrite Hok; cbn
      | rewrite Hnone; cbn
      | rewrite Hrem; cbn
      | rewrite Hready; cbn
      | progress unfold syncData, afterSyncData, removeLocalItems, removeNextLocalItem,
          getNewMedia, getNextNewItem; cbn ].
    at_rest. subst P. cbn beta. split; [reflexivity|].
    split; [unfold status_of; cbn; heap_simpl; reflexivity|].
    split; reflexivity. }
  destruct Hrest as (Hq & Hrest). rewrite (run_after_rest G E 200 n _ Hq). exact Hrest.
Qed.

End Idle.

Lemma sync_with_nothing_to_do_witness :
  started (run no_globals (env1 all_succeed [] [("i1", ["u1"])] []) (200 + 0)
             (boot (sync api1 server1) (mkStore [action3] [localItem1 "i1" []] [] [])))
  = [LAM_getOfflineActions "s1";
     LAM_getServerItemIds "s1";
     Api_syncData (SyncDataRequest.mk "device1" ["i1"] ["u1"]);
     Api_getReadySyncItems "device1";
     LAM_getServerItemIds "s1";
     Api_syncData (SyncDataRequest.mk "device1" ["i1"] ["u1"])].
Proof.
  exact (proj1 (proj2 (sync_with_nothing_to_do no_globals
                         (env1 all_succeed [] [("i1", ["u1"])] []) api1 server1
                         (mkStore [action3] [localItem1 "i1" []] [] []) 0
                         (fun _ _ => eq_refl) eq_refl (fun _ _ => eq_refl)
                         (fun _ _ => eq_refl)))).
Defined.

(** ** Reconciliation: the request and its failure *)

Section Reconcile.

Variable G : Globals.
Variable E : Env.

(** X7. When the identities of the local items can be read, the first two
    requests of [syncData] are that read and the reconciliation request,
    which carries the identity of the device, the identities the store
    holds for this server, and the identities of the users of
    [serverInfo], none when [serverInfo.Users] is absent (lines 76-80). *)
Theorem syncData_request (apiClient : ApiClient.t) (serverInfo : ServerInfo.t)
    (flag : bool) (st : Store) (n : nat) :
  (forall t, env_fails E t (LAM_getServerItemIds (ServerInfo.Id serverInfo)) = false) ->
  exists more,
    started (run G E (14 + n) (boot (syncData apiClient serverInfo flag) st))
    = [LAM_getServerItemIds (ServerInfo.Id serverInfo);
       Api_syncData (requestOf apiClient serverInfo st)] ++ more.
Proof.
  intros Hok.
  destruct (started_more G E 14 n (boot (syncData apiClient serverInfo flag) st))
    as [more Hmore].
  exists more. rewrite Hmore. f_equal.
  focus_run P. unfold boot, syncData. cbn.
  repeat run1. unfold perform at 1. rewrite Hok. cbn.
  do 4 run1. subst P. cbn beta. unfold run. reflexivity.
Qed.

(** X8. When one of the two requests of [syncData] fails, the promise of
    the call is rejected (lines 86, 88), [afterSyncData] is never entered,
    no deletion is requested and the store is untouched. *)
Theorem syncData_request_failure_rejects (apiClient : ApiClient.t)
    (serverInfo : ServerInfo.t) (flag : bool) (st : Store) (n : nat) :
  (forall t, env_fails E t (LAM_getServerItemIds (ServerInfo.Id serverInfo)) = true)
  \/ (forall t request, env_fails E t (Api_syncData request) = true) ->
  status_of 0 (run G E (40 + n) (boot (syncData apiClient serverInfo flag) st))
  = Some Rejected
  /\ Forall (fun e => isLog "Begin afterSyncData" e = false)
       (trace (run G E n (boot (syncData apiClient serverInfo flag) st)))
  /\ attempted (trace (run G E (40 + n) (boot (syncData apiClient serverInfo flag) st))) = []
  /\ store (run G E (40 + n) (boot (syncData apiClient serverInfo flag) st)) = st.
Proof.
  intros Hfail.
  assert (Hrest :
    quiescent (run G E 40 (boot (syncData apiClient serverInfo flag) st)) = true
    /\ status_of 0 (run G E 40 (boot (syncData apiClient serverInfo flag) st))
       = Some Rejected
    /\ Forall (fun e => isLog "Begin afterSyncData" e = false)
         (trace (run G E 40 (boot (syncData apiClient serverInfo flag) st)))
    /\ attempted (trace (run G E 40 (boot (syncData apiClient serverInfo flag) st))) = []
    /\ store (run G E 40 (boot (syncData apiClient serverInfo flag) st)) = st).
  { focus_run P. unfold boot, syncData. cbn. repeat run1.
    unfold perform at 1. destruct Hfail as [Hfail|Hfail].
    - rewrite Hfail. cbn. run_all. subst P. cbn beta.
      split; [reflexivity|]. split; [unfold status_of; cbn; heap_simpl; reflexivity|].
      split; [cbn; forall_list; reflexivity|]. split; reflexivity.
    - destruct (env_fails E 1 _); cbn; repeat run1;
        try (unfold perform at 1; rewrite Hfail; cbn);
        run_all; subst P; cbn beta;
        (split; [reflexivity|]);
        (split; [unfold status_of; cbn; heap_simpl; reflexivity|]);
        (split; [cbn; forall_list; reflexivity|]); split; reflexivity. }
  destruct Hrest as (Hq & Hst & Hno & Hatt & Hstore).
  rewrite (run_after_rest G E 40 n _ Hq).
  split; [exact Hst|]. split; [|split; assumption].
  exact (never_happens G E _ 40 _ Hq Hno n).
Qed.

End Reconcile.

Lemma syncData_request_witness :
  exists more,
    started (run no_globals (env1 all_succeed [] [] []) (14 + 0)
               (boot (syncData api1 server1 false)
                  (mkStore [] [localItem1 "a" []; localItem1 "b" []] [] [])))
    = [LAM_getServerItemIds "s1";
       Api_syncData (SyncDataRequest.mk "device1" ["a"; "b"] ["u1"])] ++ more.
Proof.
  exact (syncData_request no_globals (env1 all_succeed [] [] []) api1 server1 false
           (mkStore [] [localItem1 "a" []; localItem1 "b" []] [] []) 0
           (fun _ => eq_refl)).
Defined.

Lemma syncData_request_failure_rejects_witness :
  status_of 0 (run no_globals (env1 reconciliation_fails ["a"] [] []) (40 + 0)
                 (boot (syncData api1 server1 false) (mkStore [] [localItem1 "a" []] [] [])))
  = Some Rejected.
Proof.
  exact (proj1 (syncData_request_failure_rejects no_globals
                  (env1 reconciliation_fails ["a"] [] []) api1 server1 false
                  (mkStore [] [localItem1 "a" []] [] []) 0
                  (or_intror (fun _ _ => eq_refl)))).
Defined.

(** ** Removal sub-phase: what is left on the device *)

Lemma keptItems_cons (serverId id : string) (ids : list string) (items : list LocalItem.t) :
  keptItems serverId ids
    (List.filter (fun i => negb (isLocalItem id serverId i)) items)
  = keptItems serverId (id :: ids) items.
Proof.
  unfold keptItems. induction items as [|i items IH]; [reflexivity|].
  cbn. destruct (isLocalItem id serverId i); cbn; [exact IH|].
  destruct (existsb _ ids); cbn; [exact IH|]. rewrite IH. reflexivity.
Qed.

Section RemovalStore.

Variable G : Globals.
Variable E : Env.
Hypothesis Hrm : forall t itemId serverId,
  env_fails E t (LAM_removeLocalItem itemId serverId) = false.

(** The iteration of lines 127-143 when the [require] of item [j] is
    waiting, with [k] items after it, in an environment where no deletion
    fails. *)
Lemma removeLocalItem_item (k : nat) :
  forall (ids : list string) (j : nat) (id sid : string) (d di : DeferredId)
         (h : gmap nat Cell) (nx : nat) (st : Store) (c : nat) (tr : list Event),
  ids !! j = Some id ->
  length ids = S j + k ->
  d < nx -> di < nx -> d <> di ->
  h !! d = Some (mkCell Pending [] []) ->
  h !! di = Some (mkCell Pending [cb_removeNextLocalItem_L137 ids j sid d]
                    [cb_removeNextLocalItem_L140 ids j sid d]) ->
  reaches G E
    (mkState h nx [] [TRequire (cb_removeLocalItem_L151 id sid di)] st c tr)
    (fun s' => quiescent s' = true
               /\ heap s' !! d = Some (mkCell (Resolved VUndefined) [] [])
               /\ store s'
                  = mkStore (st_actions st) (keptItems sid (drop j ids) (st_items st))
                      (st_images st) (st_files st)).
Proof.
  induction k as [|k IH]; intros ids j id sid d di h nx st c tr Hj Hlen Hd Hdi Hne Hhd Hhdi;
    set (Q := fun s' : State => _);
    apply reaches_step; cbn.
  - assert (Hle : (length ids <=? j + 1) = true) by (apply Nat.leb_le; lia).
    repeat first [ reach_sync | rewrite Hle; cbn
                 | unfold perform at 1; rewrite Hrm; cbn
                 | progress unfold removeNextLocalItem ].
    apply reaches_now; subst Q; cbn.
    split; [reflexivity|]; split; [heap_simpl; heap_hyps; reflexivity|].
    rewrite (drop_S _ _ _ Hj), drop_ge by lia.
    rewrite <- keptItems_cons. unfold keptItems at 1. cbn.
    rewrite filter_true. reflexivity.
  - assert (Hle : (length ids <=? j + 1) = false) by (apply Nat.leb_gt; lia).
    destruct (ids !! (j + 1)) as [id'|] eqn:Hj'; [|apply lookup_ge_None in Hj'; lia].
    repeat first [ reach_sync | rewrite Hle; cbn | rewrite Hj'; cbn
                 | unfold perform at 1; rewrite Hrm; cbn
                 | progress unfold removeNextLocalItem, removeLocalItem ].
    subst Q; eapply reaches_impl;
      [ eapply (IH ids (j + 1) id' sid d);
        [ exact Hj' | lia | lia | lia | lia | heap_simpl; exact Hhd
        | heap_simpl; reflexivity ]
      | intros s' H; cbn beta in H; destruct H as (Hq & Hres & Hst); cbn beta;
        split; [exact Hq|]; split; [exact Hres|];
        rewrite Hst, (drop_S _ _ _ Hj); cbn [st_actions st_items st_images st_files];
        replace (j + 1) with (S j) by lia;
        rewrite keptItems_cons; reflexivity ].
Qed.

(** X9. When no deletion fails: for every removal list, once the removal
    sub-phase has come to rest, its promise is resolved and the device
    holds exactly the local items it held before that are not an item of
    the list on this server, in their order; the items of other servers,
    the queued actions, the images and the files are untouched (line 153
    passes on the [serverId] of line 122). *)
Theorem removeLocalItems_removes_listed (syncDataResult : SyncDataResult.t)
    (serverId : string) (st : Store) :
  exists N, forall n, N <= n ->
    quiescent (run G E n (boot (removeLocalItems syncDataResult serverId) st)) = true
    /\ status_of 0 (run G E n (boot (removeLocalItems syncDataResult serverId) st))
       = Some (Resolved VUndefined)
    /\ store (run G E n (boot (removeLocalItems syncDataResult serverId) st))
       = mkStore (st_actions st)
           (keptItems serverId (SyncDataResult.ItemIdsToRemove syncDataResult) (st_items st))
           (st_images st) (st_files st).
Proof.
  apply (reaches_rest G E _
           (fun s' => status_of 0 s' = Some (Resolved VUndefined)
                      /\ store s'
                         = mkStore (st_actions st)
                             (keptItems serverId
                                (SyncDataResult.ItemIdsToRemove syncDataResult) (st_items st))
                             (st_images st) (st_files st))).
  unfold boot, removeLocalItems. destruct syncDataResult as [ids access]. cbn.
  set (Q := fun s' : State => _).
  repeat reach_sync. unfold removeNextLocalItem.
  destruct ids as [|id ids]; cbn.
  - repeat reach_sync. apply reaches_now. subst Q. cbn.
    split; [reflexivity|]. split; [unfold status_of; cbn; heap_simpl; reflexivity|].
    unfold keptItems. cbn. rewrite filter_true. destruct st; reflexivity.
  - change ((id :: ids) !! 0) with (Some id). unfold removeLocalItem. cbn.
    repeat reach_sync. subst Q. eapply reaches_impl.
    + eapply (removeLocalItem_item (length ids) (id :: ids) 0 id serverId 0 1);
        [ reflexivity | reflexivity | lia | lia | lia
        | heap_simpl; reflexivity | heap_simpl; reflexivity ].
    + intros s' H. cbn beta in H. destruct H as (Hq & Hres & Hst). cbn beta.
      split; [exact Hq|]. split; [unfold status_of; rewrite Hres; reflexivity|].
      exact Hst.
Qed.

End RemovalStore.

Lemma removeLocalItems_removes_listed_witness :
  exists N, forall n, N <= n ->
    quiescent (run no_globals (env1 all_succeed [] [] []) n
                 (boot (removeLocalItems (SyncDataResult.mk ["a"; "c"] []) "s1")
                    (mkStore [] [localItem1 "a" []; localItem1 "b" []] [] []))) = true
    /\ status_of 0 (run no_globals (env1 all_succeed [] [] []) n
                      (boot (removeLocalItems (SyncDataResult.mk ["a"; "c"] []) "s1")
                         (mkStore [] [localItem1 "a" []; localItem1 "b" []] [] [])))
       = Some (Resolved VUndefined)
    /\ store (run no_globals (env1 all_succeed [] [] []) n
                 (boot (removeLocalItems (SyncDataResult.mk ["a"; "c"] []) "s1")
                    (mkStore [] [localItem1 "a" []; localItem1 "b" []] [] [])))
       = mkStore [] [localItem1 "b" []] [] [].
Proof.
  exact (removeLocalItems_removes_listed no_globals (env1 all_succeed [] [] [])
           (fun _ _ _ => eq_refl) (SyncDataResult.mk ["a"; "c"] []) "s1"
           (mkStore [] [localItem1 "a" []; localItem1 "b" []] [] [])).
Defined.

(** ** Access propagation: the unbound [serverId], and the iteration *)

Lemma assoc_lookup {A : Type} (l : list (string * A)) (j : nat) (id : string) :
  map fst l !! j = Some id -> exists v, assoc id l = Some v.
Proof.
  revert j. induction l as [|[k v] l IH]; intros j Hj; [destruct j; discriminate|].
  cbn. destruct (String.eqb k id) eqn:Hk; [eauto|].
  destruct j as [|j]; cbn in Hj.
  - inversion Hj; subst. rewrite String.eqb_refl in Hk. discriminate.
  - eapply IH, Hj.
Qed.

Section AccessUnbound.

Variable E : Env.

(** X10. On a page that binds no [serverId], access propagation for a
    mapping that is not empty stops on the first item: line 480 raises a
    ReferenceError before any local item is loaded, nothing else ever
    happens, and the promise of [syncUserItemAccess] is never settled. *)
Theorem syncUserItemAccess_unbound_serverId (G : Globals) (r : SyncDataResult.t)
    (sid : string) (st : Store) (n : nat) :
  g_serverId G = None ->
  SyncDataResult.ItemUserAccess r <> [] ->
  history (run G E (12 + n) (boot (syncUserItemAccess r sid) st))
  = [EvLog "Begin syncUserItemAccess"; EvLog "Begin syncUserAccessForItem";
     EvUncaught "ReferenceError: serverId is not defined"]
  /\ settled (status_of 0 (run G E n (boot (syncUserItemAccess r sid) st))) = false.
Proof.
  intros Hgs Hne.
  assert (Hrest :
    quiescent (run G E 12 (boot (syncUserItemAccess r sid) st)) = true
    /\ history (run G E 12 (boot (syncUserItemAccess r sid) st))
       = [EvLog "Begin syncUserItemAccess"; EvLog "Begin syncUserAccessForItem";
          EvUncaught "ReferenceError: serverId is not defined"]
    /\ status_of 0 (run G E 12 (boot (syncUserItemAccess r sid) st)) = Some Pending).
  { focus_run P. unfold boot, syncUserItemAccess. cbn.
    destruct (SyncDataResult.ItemUserAccess r) as [|[id u] rest]; [congruence|]. cbn.
    repeat run1. unfold syncNextUserAccessForItem. cbn.
    change ((id :: map fst rest) !! 0) with (Some id). unfold syncUserAccessForItem. cbn.
    repeat run1. rewrite Hgs. cbn.
    run_all. subst P. cbn beta. split; [reflexivity|]. split; [reflexivity|].
    unfold status_of. cbn. heap_simpl. reflexivity. }
  destruct Hrest as (Hq & Hh & Hp).
  split; [rewrite (run_after_rest G E 12 n _ Hq); exact Hh|].
  apply settled_pending.
  exact (never_settled G E 12 _ 0 (boot_wf _ _) Hq Hp n).
Qed.

End AccessUnbound.

Lemma syncUserItemAccess_unbound_serverId_witness :
  g_serverId no_globals = None
  /\ settled (status_of 0 (run no_globals (env1 all_succeed [] [] []) 30
                             (boot (syncUserItemAccess
                                      (SyncDataResult.mk [] [("i1", ["u1"])]) "s1")
                                (mkStore [] [localItem1 "i1" []] [] []))))
     = false.
Proof.
  split; [reflexivity|].
  exact (proj2 (syncUserItemAccess_unbound_serverId (env1 all_succeed [] [] []) no_globals
                  (SyncDataResult.mk [] [("i1", ["u1"])]) "s1"
                  (mkStore [] [localItem1 "i1" []] [] []) 30 eq_refl
                  ltac:(discriminate))).
Defined.

Section AccessLoop.

Variable G : Globals.
Variable E : Env.
Variable gsid : string.
Hypothesis Hgs : g_serverId G = Some gsid.

(** The iteration of lines 455-471 when the [require] of item [j] is
    waiting, with [k] items after it: whatever the loads and the writes
    do, every remaining item is loaded and the Deferred of the sub-phase is
    resolved. *)
Lemma syncUserAccess_item (k : nat) :
  forall (r : SyncDataResult.t) (j : nat) (id sid : string) (d di : DeferredId)
         (h : gmap nat Cell) (nx : nat) (st : Store) (c : nat) (tr : list Event),
  map fst (SyncDataResult.ItemUserAccess r) !! j = Some id ->
  length (map fst (SyncDataResult.ItemUserAccess r)) = S j + k ->
  d < nx -> di < nx -> d <> di ->
  h !! d = Some (mkCell Pending [] []) ->
  h !! di = Some (mkCell Pending
                    [cb_syncNextUserAccessForItem_L465
                       (map fst (SyncDataResult.ItemUserAccess r)) j r sid d]
                    [cb_syncNextUserAccessForItem_L468
                       (map fst (SyncDataResult.ItemUserAccess r)) j r sid d]) ->
  reaches G E
    (mkState h nx [] [TRequire (cb_syncUserAccessForItem_L478 id r di)] st c tr)
    (fun s' => quiescent s' = true
               /\ heap s' !! d = Some (mkCell (Resolved VUndefined) [] [])
               /\ loaded (trace s')
                  = rev (map (fun i => (i, gsid))
                           (drop j (map fst (SyncDataResult.ItemUserAccess r))))
                    ++ loaded tr).
Proof.
  induction k as [|k IH]; intros r j id sid d di h nx st c tr Hj Hlen Hd Hdi Hne Hhd Hhdi;
    destruct (assoc_lookup _ _ _ Hj) as [u Hu];
    set (Q := fun s' : State => _);
    apply reaches_step; cbn; rewrite Hgs; cbn; unfold syncNextUserAccessForItem.
  - assert (Hle : (length (map fst (SyncDataResult.ItemUserAccess r)) <=? j + 1) = true)
      by (apply Nat.leb_le; lia).
    repeat first [ reach_sync | rewrite Hu; cbn | rewrite Hle; cbn
                 | progress unfold syncNextUserAccessForItem | reach_split ].
    all: apply reaches_now; subst Q; cbn.
    all: split; [reflexivity|]; split; [heap_simpl; heap_hyps; reflexivity|].
    all: rewrite (drop_S _ _ _ Hj), drop_ge by lia; reflexivity.
  - assert (Hle : (length (map fst (SyncDataResult.ItemUserAccess r)) <=? j + 1) = false)
      by (apply Nat.leb_gt; lia).
    destruct (map fst (SyncDataResult.ItemUserAccess r) !! (j + 1)) as [id'|] eqn:Hj';
      [|apply lookup_ge_None in Hj'; lia].
    repeat first [ reach_sync | rewrite Hu; cbn | rewrite Hle; cbn | rewrite Hj'; cbn
                 | progress unfold syncNextUserAccessForItem, syncUserAccessForItem
                 | reach_split ].
    all: subst Q; eapply reaches_impl;
      [ eapply (IH r (j + 1) id' sid d);
        [ exact Hj' | lia | lia | lia | lia | heap_simpl; exact Hhd
        | heap_simpl; reflexivity ]
      | cbn; intros s' (Hq & Hres & Hl);
        split; [exact Hq|]; split; [exact Hres|];
        rewrite Hl, (drop_S _ _ _ Hj); cbn;
        replace (j + 1) with (S j) by lia;
        rewrite <- app_assoc; reflexivity ].
Qed.

(** X11. On a page that binds [serverId]: for every access mapping,
    whichever loads and writes fail and whether or not the items are on
    the device, access propagation loads every item of the mapping, once
    and in the order of the mapping, and resolves its promise (lines
    465-470 go on after a failure).  Every item is asked for under the
    global [serverId] of line 480, not under the server identity that
    [syncUserItemAccess] was given. *)
Theorem syncUserItemAccess_visits_every_item (r : SyncDataResult.t) (sid : string)
    (st : Store) :
  exists N, forall n, N <= n ->
    quiescent (run G E n (boot (syncUserItemAccess r sid) st)) = true
    /\ status_of 0 (run G E n (boot (syncUserItemAccess r sid) st))
       = Some (Resolved VUndefined)
    /\ rev (loaded (trace (run G E n (boot (syncUserItemAccess r sid) st))))
       = map (fun i => (i, gsid)) (map fst (SyncDataResult.ItemUserAccess r)).
Proof.
  apply (reaches_rest G E _
           (fun s' => status_of 0 s' = Some (Resolved VUndefined)
                      /\ rev (loaded (trace s'))
                         = map (fun i => (i, gsid))
                             (map fst (SyncDataResult.ItemUserAccess r)))).
  unfold boot, syncUserItemAccess. cbn. set (Q := fun s' : State => _).
  repeat reach_sync. unfold syncNextUserAccessForItem.
  destruct (map fst (SyncDataResult.ItemUserAccess r)) as [|id ids] eqn:Hids; cbn.
  - repeat reach_sync. apply reaches_now. subst Q. cbn.
    split; [reflexivity|]. split; [|reflexivity].
    unfold status_of. cbn. heap_simpl. reflexivity.
  - change ((id :: ids) !! 0) with (Some id). unfold syncUserAccessForItem. cbn.
    repeat reach_sync. subst Q.
    rewrite <- Hids. eapply reaches_impl.
    + eapply (syncUserAccess_item (length ids) r 0 id sid 0 1);
        [ rewrite Hids; reflexivity | rewrite Hids; reflexivity | lia | lia | lia
        | heap_simpl; reflexivity | heap_simpl; reflexivity ].
    + cbn. intros s' (Hq & Hres & Hl).
      split; [exact Hq|]. split; [unfold status_of; rewrite Hres; reflexivity|].
      rewrite Hl. cbn. rewrite app_nil_r, rev_involutive. reflexivity.
Qed.

End AccessLoop.

Lemma syncUserItemAccess_visits_every_item_witness :
  g_serverId (globals_serverId "s9") = Some "s9"
  /\ exists N, forall n, N <= n ->
       quiescent (run (globals_serverId "s9") (env1 all_succeed [] [] []) n
                    (boot (syncUserItemAccess
                             (SyncDataResult.mk [] [("i1", ["u1"]); ("i2", [])]) "s1")
                       (mkStore [] [localItem1 "i1" []] [] []))) = true
       /\ status_of 0 (run (globals_serverId "s9") (env1 all_succeed [] [] []) n
                         (boot (syncUserItemAccess
                                  (SyncDataResult.mk [] [("i1", ["u1"]); ("i2", [])]) "s1")
                            (mkStore [] [localItem1 "i1" []] [] [])))
          = Some (Resolved VUndefined)
       /\ rev (loaded (trace (run (globals_serverId "s9") (env1 all_succeed [] [] []) n
                                (boot (syncUserItemAccess
                                         (SyncDataResult.mk [] [("i1", ["u1"]); ("i2", [])])
                                         "s1")
                                   (mkStore [] [localItem1 "i1" []] [] [])))))
          = [("i1", "s9"); ("i2", "s9")].
Proof.
  split; [reflexivity|].
  exact (syncUserItemAccess_visits_every_item (globals_serverId "s9")
           (env1 all_succeed [] [] []) "s9" eq_refl
           (SyncDataResult.mk [] [("i1", ["u1"]); ("i2", [])]) "s1"
           (mkStore [] [localItem1 "i1" []] [] [])).
Defined.

(** ** Content fetcher: the listing and the iteration *)

Section Listing.

Variable G : Globals.
Variable E : Env.

(** X12. [getNewMedia] sends the listing request for the device and
    nothing else, and leaves the store untouched, in two cases: when the
    listing fails, its promise is rejected (line 173); when the server has
    nothing ready, its promise is resolved at once (lines 182-185). *)
Theorem getNewMedia_without_items (apiClient : ApiClient.t) (serverInfo : ServerInfo.t)
    (st : Store) (n : nat) :
  ((forall t deviceId, env_fails E t (Api_getReadySyncItems deviceId) = true) ->
   status_of 0 (run G E (20 + n) (boot (getNewMedia apiClient serverInfo) st))
   = Some Rejected
   /\ started (run G E (20 + n) (boot (getNewMedia apiClient serverInfo) st))
      = [Api_getReadySyncItems (ApiClient.deviceId apiClient)]
   /\ store (run G E (20 + n) (boot (getNewMedia apiClient serverInfo) st)) = st)
  /\ ((forall t deviceId, env_fails E t (Api_getReadySyncItems deviceId) = false) ->
      (forall t deviceId, env_readyItems E t deviceId = []) ->
      status_of 0 (run G E (20 + n) (boot (getNewMedia apiClient serverInfo) st))
      = Some (Resolved VUndefined)
      /\ started (run G E (20 + n) (boot (getNewMedia apiClient serverInfo) st))
         = [Api_getReadySyncItems (ApiClient.deviceId apiClient)]
      /\ store (run G E (20 + n) (boot (getNewMedia apiClient serverInfo) st)) = st).
Proof.
  split.
  - intros Hfail.
    assert (Hq : quiescent (run G E 20 (boot (getNewMedia apiClient serverInfo) st)) = true).
    { focus_run P. unfold boot, getNewMedia. cbn. repeat run1.
      unfold perform at 1. rewrite Hfail. cbn. run_all. reflexivity. }
    rewrite (run_after_rest G E 20 n _ Hq). clear Hq.
    focus_run P. unfold boot, getNewMedia. cbn. repeat run1.
    unfold perform at 1. rewrite Hfail. cbn. run_all. subst P. cbn beta.
    split; [unfold status_of; cbn; heap_simpl; reflexivity|]. split; reflexivity.
  - intros Hok Hnone.
    assert (Hq : quiescent (run G E 20 (boot (getNewMedia apiClient serverInfo) st)) = true).
    { focus_run P. unfold boot, getNewMedia. cbn. repeat run1.
      unfold perform at 1. rewrite Hok, Hnone. cbn. repeat run1.
      unfold getNextNewItem. cbn. run_all. reflexivity. }
    rewrite (run_after_rest G E 20 n _ Hq). clear Hq.
    focus_run P. unfold boot, getNewMedia. cbn. repeat run1.
    unfold perform at 1. rewrite Hok, Hnone. cbn. repeat run1.
    unfold getNextNewItem. cbn. run_all. subst P. cbn beta.
    split; [unfold status_of; cbn; heap_simpl; reflexivity|]. split; reflexivity.
Qed.

End Listing.

Lemma getNewMedia_without_items_witness :
  status_of 0 (run no_globals (env1 all_succeed [] [] []) (20 + 0)
                 (boot (getNewMedia api1 server1) (mkStore [] [] [] [])))
  = Some (Resolved VUndefined).
Proof.
  exact (proj1 (proj2 (getNewMedia_without_items no_globals (env1 all_succeed [] [] [])
                         api1 server1 (mkStore [] [] [] []) 0)
                  (fun _ _ => eq_refl) (fun _ _ => eq_refl))).
Defined.

Section FetchLoop.

Variable G : Globals.
Variable E : Env.
Hypothesis Hdl : forall t url path, env_fails E t (LAM_downloadFile url path) = true.

(** The iteration of lines 178-194 when the [require] of item [j] is
    waiting, with [k] items after it, in an environment where no media
    file can be downloaded. *)
Lemma getNewItem_item (k : nat) :
  forall (jobItems : list JobItem.t) (j : nat) (jobItem : JobItem.t)
         (apiClient : ApiClient.t) (serverInfo : ServerInfo.t) (d di : DeferredId)
         (h : gmap nat Cell) (nx : nat) (st : Store) (c : nat) (tr : list Event),
  jobItems !! j = Some jobItem ->
  length jobItems = S j + k ->
  d < nx -> di < nx -> d <> di ->
  h !! d = Some (mkCell Pending [] []) ->
  h !! di = Some (mkCell Pending
                    [cb_getNextNewItem_L188 jobItems j apiClient serverInfo d]
                    [cb_getNextNewItem_L191 jobItems j apiClient serverInfo d]) ->
  Forall (fun e => noWriteNoReport e = true) tr ->
  reaches G E
    (mkState h nx [] [TRequire (cb_getNewItem_L202 jobItem apiClient serverInfo di)] st c tr)
    (fun s' => quiescent s' = true
               /\ heap s' !! d = Some (mkCell (Resolved VUndefined) [] [])
               /\ created (trace s') = rev (map JobItem.Item (drop j jobItems)) ++ created tr
               /\ Forall (fun e => noWriteNoReport e = true) (trace s')).
Proof.
  induction k as [|k IH];
    intros jobItems j jobItem apiClient serverInfo d di h nx st c tr
      Hj Hlen Hd Hdi Hne Hhd Hhdi Htr;
    set (Q := fun s' : State => _);
    apply reaches_step; cbn.
  - assert (Hle : (length jobItems <=? j + 1) = true) by (apply Nat.leb_le; lia).
    repeat first [ reach_sync | reach_downloadMedia | rewrite Hle; cbn
                 | unfold perform at 1; rewrite Hdl; cbn
                 | progress unfold getNextNewItem, downloadMedia | reach_split ].
    all: apply reaches_now; subst Q; cbn.
    all: split; [reflexivity|]; split; [heap_simpl; heap_hyps; reflexivity|].
    all: split; [rewrite (drop_S _ _ _ Hj), drop_ge by lia; reflexivity|].
    all: forall_list; try reflexivity; exact Htr.
  - assert (Hle : (length jobItems <=? j + 1) = false) by (apply Nat.leb_gt; lia).
    destruct (jobItems !! (j + 1)) as [jobItem'|] eqn:Hj';
      [|apply lookup_ge_None in Hj'; lia].
    repeat first [ reach_sync | reach_downloadMedia | rewrite Hle; cbn | rewrite Hj'; cbn
                 | unfold perform at 1; rewrite Hdl; cbn
                 | progress unfold getNextNewItem, getNewItem, downloadMedia | reach_split ].
    all: subst Q; eapply reaches_impl;
      [ eapply (IH jobItems (j + 1) jobItem' apiClient serverInfo d);
        [ exact Hj' | lia | lia | lia | lia | heap_simpl; exact Hhd
        | heap_simpl; reflexivity
        | forall_list; try reflexivity; exact Htr ]
      | cbn; intros s' (Hq & Hres & Hl & Hno);
        split; [exact Hq|]; split; [exact Hres|]; split; [|exact Hno];
        rewrite Hl, (drop_S _ _ _ Hj); cbn;
        replace (j + 1) with (S j) by lia;
        rewrite <- app_assoc; reflexivity ].
Qed.

(** X13. When no media file can be downloaded: for every list of ready
    job items, whether or not the local items can be created, [getNewMedia]
    asks for the creation of the local item of every job item, once and in
    the order of the list, and resolves its promise (lines 188-193 go on
    after a rejection); no local item is ever written and no transfer is
    ever reported to the server. *)
Theorem getNewMedia_attempts_every_item (apiClient : ApiClient.t)
    (serverInfo : ServerInfo.t) (st : Store) (jobItems : list JobItem.t) :
  (forall t deviceId, env_fails E t (Api_getReadySyncItems deviceId) = false) ->
  (forall t deviceId, env_readyItems E t deviceId = jobItems) ->
  exists N, forall n, N <= n ->
    quiescent (run G E n (boot (getNewMedia apiClient serverInfo) st)) = true
    /\ status_of 0 (run G E n (boot (getNewMedia apiClient serverInfo) st))
       = Some (Resolved VUndefined)
    /\ rev (created (trace (run G E n (boot (getNewMedia apiClient serverInfo) st))))
       = map JobItem.Item jobItems
    /\ Forall (fun e => noWriteNoReport e = true)
         (trace (run G E n (boot (getNewMedia apiClient serverInfo) st))).
Proof.
  intros Hok Hready.
  apply (reaches_rest G E _
           (fun s' => status_of 0 s' = Some (Resolved VUndefined)
                      /\ rev (created (trace s')) = map JobItem.Item jobItems
                      /\ Forall (fun e => noWriteNoReport e = true) (trace s'))).
  unfold boot, getNewMedia. cbn. set (Q := fun s' : State => _).
  repeat reach_sync. unfold perform at 1. rewrite Hok, Hready. cbn.
  repeat reach_sync. unfold getNextNewItem.
  destruct jobItems as [|jobItem rest]; cbn.
  - repeat reach_sync. apply reaches_now. subst Q. cbn.
    split; [reflexivity|]. split; [unfold status_of; cbn; heap_simpl; reflexivity|].
    split; [reflexivity|]. forall_list; reflexivity.
  - change ((jobItem :: rest) !! 0) with (Some jobItem). unfold getNewItem. cbn.
    repeat reach_sync. subst Q. eapply reaches_impl.
    + eapply (getNewItem_item (length rest) (jobItem :: rest) 0 jobItem apiClient
                serverInfo 0 2);
        [ reflexivity | reflexivity | lia | lia | lia
        | heap_simpl; reflexivity | heap_simpl; reflexivity
        | forall_list; reflexivity ].
    + intros s' H. cbn beta in H. destruct H as (Hq & Hres & Hl & Hno). cbn beta.
      split; [exact Hq|]. split; [unfold status_of; rewrite Hres; reflexivity|].
      split; [|exact Hno].
      rewrite Hl, rev_app_distr, rev_involutive. reflexivity.
Qed.

End FetchLoop.

Lemma getNewMedia_attempts_every_item_witness :
  exists N, forall n, N <= n ->
    quiescent (run no_globals (env1 media_download_fails [] [] [job1; job2]) n
                 (boot (getNewMedia api1 server1) (mkStore [] [] [] []))) = true
    /\ status_of 0 (run no_globals (env1 media_download_fails [] [] [job1; job2]) n
                      (boot (getNewMedia api1 server1) (mkStore [] [] [] [])))
       = Some (Resolved VUndefined)
    /\ rev (created (trace (run no_globals (env1 media_download_fails [] [] [job1; job2]) n
                              (boot (getNewMedia api1 server1) (mkStore [] [] [] [])))))
       = map JobItem.Item [job1; job2]
    /\ Forall (fun e => noWriteNoReport e = true)
         (trace (run no_globals (env1 media_download_fails [] [] [job1; job2]) n
                   (boot (getNewMedia api1 server1) (mkStore [] [] [] [])))).
Proof.
  exact (getNewMedia_attempts_every_item no_globals
           (env1 media_download_fails [] [] [job1; job2]) (fun _ _ _ => eq_refl)
           api1 server1 (mkStore [] [] [] []) [job1; job2]
           (fun _ _ => eq_refl) (fun _ _ => eq_refl)).
Defined.

(** ** Media download *)

Section Media.

Variable G : Globals.
Variable E : Env.

(** X14. Every run of [downloadMedia] comes to rest within 40 steps.  It
    downloads the file of the job item (the URL of lines 237-239) to the
    local path of the local item; the local item is written only when
    that download has succeeded (line 247), and as it was given; the
    promise is rejected when one of the two requests has failed (lines
    251, 253) and resolved otherwise. *)
Theorem downloadMedia_outcome (apiClient : ApiClient.t) (jobItem : JobItem.t)
    (localItem : LocalItem.t) (st : Store) (n : nat) :
  quiescent (run G E (40 + n) (boot (downloadMedia apiClient jobItem localItem) st)) = true
  /\ status_of 0 (run G E (40 + n) (boot (downloadMedia apiClient jobItem localItem) st))
     = Some (if existsb isFailed
                  (trace (run G E (40 + n) (boot (downloadMedia apiClient jobItem localItem) st)))
             then Rejected else Resolved VUndefined)
  /\ started (run G E (40 + n) (boot (downloadMedia apiClient jobItem localItem) st))
     = LAM_downloadFile
         (ApiClient.getUrl apiClient
            ("Sync/JobItems/" ++ JobItem.SyncJobItemId jobItem ++ "/File")
            [("api_key", ApiClient.accessToken apiClient)])
         (LocalItem.LocalPath localItem)
       :: (if existsb downloadFailed
                (trace (run G E (40 + n) (boot (downloadMedia apiClient jobItem localItem) st)))
           then [] else [LAM_addOrUpdateLocalItem localItem]).
Proof.
  assert (Hq : quiescent (run G E 40 (boot (downloadMedia apiClient jobItem localItem) st))
               = true).
  { focus_run P. unfold boot, downloadMedia. cbn. run_all; reflexivity. }
  rewrite (run_after_rest G E 40 n _ Hq). split; [exact Hq|]. clear Hq.
  focus_run P. unfold boot, downloadMedia. cbn.
  run_all; subst P; cbn beta;
    (split; [unfold status_of; cbn; heap_simpl; reflexivity|reflexivity]).
Qed.

End Media.

(** ** Images: the existence check, and the series slots *)

Lemma hasImage_after_download (serverId itemId imageTag : string)
    (images : list (string * string * string)) :
  existsb (isImage serverId itemId imageTag) (images ++ [(serverId, itemId, imageTag)]) = true.
Proof.
  rewrite existsb_app. cbn. rewrite !String.eqb_refl. cbn. apply orb_true_r.
Qed.

Section ImageCheck.

Variable G : Globals.
Variable E : Env.

(** X15. When the device already holds an image for the (server, item,
    tag) triple, [downloadImage] resolves its promise without downloading
    anything (lines 336-339): the existence check is the only request, and
    the store is untouched. *)
Theorem downloadImage_skips_existing (apiClient : ApiClient.t)
    (serverId itemId imageTag imageType : string) (st : Store) (n : nat) :
  (forall t, env_fails E t (LAM_hasImage serverId itemId imageTag) = false) ->
  existsb (isImage serverId itemId imageTag) (st_images st) = true ->
  status_of 0 (run G E (40 + n)
                 (boot (downloadImage apiClient serverId itemId imageTag imageType) st))
  = Some (Resolved VUndefined)
  /\ started (run G E (40 + n)
                (boot (downloadImage apiClient serverId itemId imageTag imageType) st))
     = [LAM_hasImage serverId itemId imageTag]
  /\ store (run G E (40 + n)
              (boot (downloadImage apiClient serverId itemId imageTag imageType) st))
     = st.
Proof.
  intros Hok Hhas.
  assert (Hq : quiescent (run G E 40
                 (boot (downloadImage apiClient serverId itemId imageTag imageType) st))
               = true).
  { focus_run P. unfold boot, downloadImage. cbn. run_all; reflexivity. }
  rewrite (run_after_rest G E 40 n _ Hq). clear Hq.
  focus_run P. unfold boot, downloadImage. cbn.
  repeat run1. unfold perform at 1. rewrite Hok. cbn. rewrite Hhas.
  run_all. subst P. cbn beta.
  split; [unfold status_of; cbn; heap_simpl; reflexivity|]. split; reflexivity.
Qed.

(** X16. When the existence check itself fails, the promise of
    [downloadImage] is never settled: the [done] of line 334 has no [fail]
    beside it, so nothing runs after the failure.  The check is the only
    request, and the run is at rest with the promise pending. *)
Theorem downloadImage_check_failure_hangs (apiClient : ApiClient.t)
    (serverId itemId imageTag imageType : string) (st : Store) (n : nat) :
  (forall t, env_fails E t (LAM_hasImage serverId itemId imageTag) = true) ->
  settled (status_of 0 (run G E n
             (boot (downloadImage apiClient serverId itemId imageTag imageType) st)))
  = false
  /\ quiescent (run G E (40 + n)
                  (boot (downloadImage apiClient serverId itemId imageTag imageType) st))
     = true
  /\ history (run G E (40 + n)
                (boot (downloadImage apiClient serverId itemId imageTag imageType) st))
     = [EvLog "Begin downloadImage"; EvStart (LAM_hasImage serverId itemId imageTag);
        EvFailed (LAM_hasImage serverId itemId imageTag); EvSettled 1 false].
Proof.
  intros Hfail.
  assert (Hrest :
    quiescent (run G E 40
                 (boot (downloadImage apiClient serverId itemId imageTag imageType) st))
    = true
    /\ status_of 0 (run G E 40
                 (boot (downloadImage apiClient serverId itemId imageTag imageType) st))
       = Some Pending
    /\ history (run G E 40
                  (boot (downloadImage apiClient serverId itemId imageTag imageType) st))
       = [EvLog "Begin downloadImage"; EvStart (LAM_hasImage serverId itemId imageTag);
          EvFailed (LAM_hasImage serverId itemId imageTag); EvSettled 1 false]).
  { focus_run P. unfold boot, downloadImage. cbn.
    repeat run1. unfold perform at 1. rewrite Hfail. cbn.
    run_all. subst P. cbn beta. split; [reflexivity|].
    split; [unfold status_of; cbn; heap_simpl; reflexivity|reflexivity]. }
  destruct Hrest as (Hq & Hp & Hh).
  split; [|rewrite (run_after_rest G E 40 n _ Hq); split; assumption].
  apply settled_pending.
  exact (never_settled G E 40 _ 0 (boot_wf _ _) Hq Hp n).
Qed.

End ImageCheck.

Lemma downloadImage_skips_existing_witness :
  existsb (isImage "s1" "ep1" "tag-ep1")
    (st_images (mkStore [] [] [("s1", "ep1", "tag-ep1")] [])) = true
  /\ started (run no_globals (env1 all_succeed [] [] []) (40 + 0)
                (boot (downloadImage api1 "s1" "ep1" "tag-ep1" "Primary")
                   (mkStore [] [] [("s1", "ep1", "tag-ep1")] [])))
     = [LAM_hasImage "s1" "ep1" "tag-ep1"].
Proof.
  split; [reflexivity|].
  exact (proj1 (proj2 (downloadImage_skips_existing no_globals (env1 all_succeed [] [] [])
                         api1 "s1" "ep1" "tag-ep1" "Primary"
                         (mkStore [] [] [("s1", "ep1", "tag-ep1")] []) 0
                         (fun _ => eq_refl) eq_refl))).
Defined.

Lemma downloadImage_check_failure_hangs_witness :
  settled (status_of 0 (run no_globals (env1 image_check_fails [] [] []) 50
             (boot (downloadImage api1 "s1" "ep1" "tag-ep1" "Primary")
                (mkStore [] [] [] []))))
  = false.
Proof.
  exact (proj1 (downloadImage_check_failure_hangs no_globals
                  (env1 image_check_fails [] [] []) api1 "s1" "ep1" "tag-ep1" "Primary"
                  (mkStore [] [] [] []) 50 (fun _ => eq_refl))).
Defined.

Section SeriesSlots.

Variable E : Env.

(** X17. Slots 1 and 2 ask for the same (server, series, tag) triple
    (lines 290-299): the kind of the image, Primary or Thumb, is in the URL
    only.  On a page that binds [item], for an item of a series without an
    album, when no image request fails and the series image is not on the
    device: slot 1 downloads the Primary image, the existence check of
    slot 2 then finds the triple, and the Thumb image is not downloaded;
    the image sub-step resolves after these three requests. *)
Theorem series_thumb_is_not_downloaded (G : Globals) (item : JobItem.t)
    (apiClient : ApiClient.t) (localItem : LocalItem.t) (st : Store)
    (seriesId imageTag : string) (n : nat) :
  g_item G = Some item ->
  LibraryItem.SeriesId (JobItem.Item item) = Some seriesId -> seriesId <> "" ->
  LibraryItem.SeriesPrimaryImageTag (JobItem.Item item) = Some imageTag -> imageTag <> "" ->
  truthy (LibraryItem.AlbumId (JobItem.Item item)) = false ->
  (forall t op, isImageOp op = true -> env_fails E t op = false) ->
  existsb (isImage (LibraryItem.ServerId (JobItem.Item item)) seriesId imageTag) (st_images st)
    = false ->
  started (run G E (100 + n) (atSlot G 1 apiClient localItem st))
  = [LAM_hasImage (LibraryItem.ServerId (JobItem.Item item)) seriesId imageTag;
     LAM_downloadImage
       (ApiClient.getImageUrl apiClient seriesId
          [("Tag", imageTag); ("ImageType", "Primary");
           ("api_key", ApiClient.accessToken apiClient)])
       (LibraryItem.ServerId (JobItem.Item item)) seriesId imageTag;
     LAM_hasImage (LibraryItem.ServerId (JobItem.Item item)) seriesId imageTag]
  /\ status_of 0 (run G E (100 + n) (atSlot G 1 apiClient localItem st))
     = Some (Resolved VUndefined).
Proof.
  intros Hitem Hseries Hid Htag Hnt Halbum Hok Hnot.
  assert (Hrest :
    quiescent (run G E 100 (atSlot G 1 apiClient localItem st)) = true
    /\ started (run G E 100 (atSlot G 1 apiClient localItem st))
       = [LAM_hasImage (LibraryItem.ServerId (JobItem.Item item)) seriesId imageTag;
          LAM_downloadImage
            (ApiClient.getImageUrl apiClient seriesId
               [("Tag", imageTag); ("ImageType", "Primary");
                ("api_key", ApiClient.accessToken apiClient)])
            (LibraryItem.ServerId (JobItem.Item item)) seriesId imageTag;
          LAM_hasImage (LibraryItem.ServerId (JobItem.Item item)) seriesId imageTag]
    /\ status_of 0 (run G E 100 (atSlot G 1 apiClient localItem st))
       = Some (Resolved VUndefined)).
  { focus_run P. unfold atSlot, getNextImage.
    apply String.eqb_neq in Hid, Hnt.
    destruct G as [gi gs gd gf gl]. cbn in Hitem. subst gi.
    destruct item as [[id sid tags series stag album atag ms] name jid files].
    cbn in Hseries, Htag, Halbum, Hnot, Hok. subst series stag.
    cbn. rewrite Hid, Hnt. cbn. unfold downloadImage. cbn.
    repeat run1. unfold perform at 1. rewrite (Hok _ (LAM_hasImage _ _ _) eq_refl). cbn.
    rewrite Hnot. repeat run1.
    unfold perform at 1. rewrite (Hok _ (LAM_downloadImage _ _ _ _) eq_refl). cbn.
    repeat run1. rewrite Hid, Hnt. cbn. unfold downloadImage. cbn.
    repeat run1. unfold perform at 1. rewrite (Hok _ (LAM_hasImage _ _ _) eq_refl). cbn.
    rewrite hasImage_after_download. repeat run1.
    rewrite Halbum. cbn.
    run_all. subst P. cbn beta. split; [reflexivity|]. split; [reflexivity|].
    unfold status_of. cbn. heap_simpl. reflexivity. }
  destruct Hrest as (Hq & Hrest). rewrite (run_after_rest G E 100 n _ Hq). exact Hrest.
Qed.

End SeriesSlots.

Lemma series_thumb_is_not_downloaded_witness :
  started (run (globals_item job3) (env1 all_succeed [] [] [job3]) (100 + 0)
             (atSlot (globals_item job3) 1 api1 localEpisode3 (mkStore [] [] [] [])))
  = [LAM_hasImage "s1" "series1" "tag-series1";
     LAM_downloadImage "http://server/Items/series1/Images" "s1" "series1" "tag-series1";
     LAM_hasImage "s1" "series1" "tag-series1"].
Proof.
  refine (proj1 (series_thumb_is_not_downloaded (env1 all_succeed [] [] [job3])
                   (globals_item job3) job3 api1 localEpisode3 (mkStore [] [] [] [])
                   "series1" "tag-series1" 0 eq_refl eq_refl _ eq_refl _ eq_refl
                   (fun _ _ _ => eq_refl) eq_refl));
    discriminate.
Defined.

(** ** Subtitles: no media source, no matching stream *)

Section SubtitleEdges.

Variable E : Env.

(** X18. For a job item without media sources, [getSubtitles] never sends
    a request.  As the file is, with [logger] bound nowhere, line 367
    raises a ReferenceError and the promise is never settled; on a page
    that binds [logger], the promise is resolved (line 368). *)
Theorem getSubtitles_without_media_source (G : Globals) (apiClient : ApiClient.t)
    (jobItem : JobItem.t) (localItem : LocalItem.t) (st : Store) (n : nat) :
  LibraryItem.MediaSources (JobItem.Item jobItem) = [] ->
  started (run G E n (boot (getSubtitles apiClient jobItem localItem) st)) = []
  /\ status_of 0 (run G E (12 + n) (boot (getSubtitles apiClient jobItem localItem) st))
     = Some (if g_logger G then Resolved VUndefined else Pending)
  /\ (g_logger G = false ->
      In (EvUncaught "ReferenceError: logger is not defined")
         (trace (run G E (12 + n) (boot (getSubtitles apiClient jobItem localItem) st)))
      /\ settled (status_of 0 (run G E n (boot (getSubtitles apiClient jobItem localItem) st)))
         = false).
Proof.
  intros Hms.
  assert (Hrest :
    quiescent (run G E 12 (boot (getSubtitles apiClient jobItem localItem) st)) = true
    /\ Forall (fun e => isStart e = false)
         (trace (run G E 12 (boot (getSubtitles apiClient jobItem localItem) st)))
    /\ status_of 0 (run G E 12 (boot (getSubtitles apiClient jobItem localItem) st))
       = Some (if g_logger G then Resolved VUndefined else Pending)
    /\ (g_logger G = false ->
        In (EvUncaught "ReferenceError: logger is not defined")
           (trace (run G E 12 (boot (getSubtitles apiClient jobItem localItem) st))))).
  { focus_run P. unfold boot, getSubtitles. cbn. repeat run1. rewrite Hms. cbn.
    destruct (g_logger G); cbn; run_all; subst P; cbn beta;
      (split; [reflexivity|]); (split; [cbn; forall_list; reflexivity|]);
      (split; [unfold status_of; cbn; heap_simpl; reflexivity|]);
      intros Hl; first [discriminate Hl | cbn; auto]. }
  destruct Hrest as (Hq & Hno & Hst & Herr).
  split; [|split].
  - apply no_start_started. exact (never_happens G E _ 12 _ Hq Hno n).
  - rewrite (run_after_rest G E 12 n _ Hq). exact Hst.
  - intros Hl. rewrite (run_after_rest G E 12 n _ Hq). split; [exact (Herr Hl)|].
    apply settled_pending. rewrite Hl in Hst.
    exact (never_settled G E 12 _ 0 (boot_wf _ _) Hq Hst n).
Qed.

(** X19. On a page that binds [file]: when the job item has a subtitle
    file and the first media source has no subtitle stream with the index
    of [file], [getItemSubtitle] rejects its Deferred and returns nothing
    (lines 412-418), so that [getNextSubtitle] calls [done] on [undefined]
    (line 394): a TypeError is raised, no subtitle is requested, and the
    promise of [getSubtitles] is never settled. *)
Theorem getSubtitles_missing_stream (G : Globals) (apiClient : ApiClient.t)
    (jobItem : JobItem.t) (localItem : LocalItem.t) (st : Store)
    (file f : AdditionalFile.t) (mediaSource : MediaSource.t) (n : nat) :
  g_file G = Some file ->
  head (LibraryItem.MediaSources (JobItem.Item jobItem)) = Some mediaSource ->
  In f (JobItem.AdditionalFiles jobItem) -> AdditionalFile.Type_ f = "Subtitles" ->
  List.filter (isSubtitleStreamFor file) (MediaSource.MediaStreams mediaSource) = [] ->
  history (run G E (12 + n) (boot (getSubtitles apiClient jobItem localItem) st))
  = [EvLog "Begin getSubtitles"; EvLog "Begin getItemSubtitle";
     EvLog "Cannot download subtitles because matching stream info wasn't found.";
     EvSettled 1 false; EvUncaught "TypeError"]
  /\ settled (status_of 0 (run G E n (boot (getSubtitles apiClient jobItem localItem) st)))
     = false.
Proof.
  intros Hfile Hms Hf Hty Hnone.
  assert (Hrest :
    quiescent (run G E 12 (boot (getSubtitles apiClient jobItem localItem) st)) = true
    /\ history (run G E 12 (boot (getSubtitles apiClient jobItem localItem) st))
       = [EvLog "Begin getSubtitles"; EvLog "Begin getItemSubtitle";
          EvLog "Cannot download subtitles because matching stream info wasn't found.";
          EvSettled 1 false; EvUncaught "TypeError"]
    /\ status_of 0 (run G E 12 (boot (getSubtitles apiClient jobItem localItem) st))
       = Some Pending).
  { focus_run P. unfold boot, getSubtitles. cbn. repeat run1.
    destruct (LibraryItem.MediaSources (JobItem.Item jobItem)) as [|ms rest];
      [discriminate Hms|]. cbn in Hms. inversion Hms; subst ms. cbn.
    unfold getNextSubtitle.
    destruct (List.filter (fun f0 => String.eqb (AdditionalFile.Type_ f0) "Subtitles")
                (JobItem.AdditionalFiles jobItem)) as [|f0 files] eqn:Hfiles.
    { exfalso. assert (Hin : In f []); [|destruct Hin].
      rewrite <- Hfiles. apply filter_In. split; [exact Hf|].
      rewrite Hty. reflexivity. }
    cbn. rewrite Hfile. cbn. unfold getItemSubtitle. cbn. rewrite Hnone. cbn.
    run_all. subst P. cbn beta. split; [reflexivity|]. split; [reflexivity|].
    unfold status_of. cbn. heap_simpl. reflexivity. }
  destruct Hrest as (Hq & Hh & Hp).
  split; [rewrite (run_after_rest G E 12 n _ Hq); exact Hh|].
  apply settled_pending.
  exact (never_settled G E 12 _ 0 (boot_wf _ _) Hq Hp n).
Qed.

End SubtitleEdges.

Lemma getSubtitles_without_media_source_witness :
  LibraryItem.MediaSources (JobItem.Item job2) = []
  /\ status_of 0 (run no_globals (env1 all_succeed [] [] [job2]) (12 + 0)
                    (boot (getSubtitles api1 job2 localEpisode2) (mkStore [] [] [] [])))
     = Some Pending.
Proof.
  split; [reflexivity|].
  exact (proj1 (proj2 (getSubtitles_without_media_source (env1 all_succeed [] [] [job2])
                         no_globals api1 job2 localEpisode2 (mkStore [] [] [] []) 0
                         eq_refl))).
Defined.

Lemma getSubtitles_missing_stream_witness :
  List.filter (isSubtitleStreamFor strayFile)
    (MediaSource.MediaStreams
       (MediaSource.mk [MediaStream.mk "Video" 0 None; MediaStream.mk "Subtitle" 2 None]))
  = []
  /\ history (run (globals_file strayFile) (env1 all_succeed [] [] [job1]) (12 + 0)
                (boot (getSubtitles api1 job1 localEpisode1) (mkStore [] [] [] [])))
     = [EvLog "Begin getSubtitles"; EvLog "Begin getItemSubtitle";
        EvLog "Cannot download subtitles because matching stream info wasn't found.";
        EvSettled 1 false; EvUncaught "TypeError"].
Proof.
  split; [reflexivity|].
  exact (proj1 (getSubtitles_missing_stream (env1 all_succeed [] [] [job1])
                  (globals_file strayFile) api1 job1 localEpisode1 (mkStore [] [] [] [])
                  strayFile (AdditionalFile.mk "Subtitles" 2 "episode1.srt")
                  (MediaSource.mk [MediaStream.mk "Video" 0 None;
                                   MediaStream.mk "Subtitle" 2 None]) 0
                  eq_refl eq_refl (or_introl eq_refl) eq_refl eq_refl)).
Defined.

(** * Properties of the chapter image refresh (MediaEncoder/EncodingManager.cs) *)

Import EncodingManager.

Section ChapterLoop.

Variable W : World.
Variable video : Video.t.
Variable extractImages : bool.
Variable runtimeTicks : Z.
Variable currentImages : list string.

Ltac loop_cases :=
  repeat match goal with
    | |- context [if ?b then _ else _] =>
        lazymatch b with
        | context [refreshChapters] => fail
        | _ => destruct b eqn:?
        end
    end.

(** [success] is still true after the loop exactly when every extraction
    that was attempted went well. *)
Lemma refreshChapters_success (chapters : list ChapterInfo.t) :
  forall nth,
    success (refreshChapters W video extractImages runtimeTicks currentImages nth chapters)
    = forallb (extracted W video)
        (extractions (refreshChapters W video extractImages runtimeTicks currentImages nth
                        chapters)).
Proof.
  induction chapters as [|chapter rest IH]; intros nth; [reflexivity|].
  cbn [refreshChapters]. loop_cases; cbn; try reflexivity; try apply IH.
  all: match goal with H : encoder_ExtractVideoImage _ _ _ _ _ = _ |- _ => rewrite H end;
    cbn; first [apply IH | reflexivity].
Qed.

(** The loop extracts nothing unless extraction is switched on and the
    video is not a disc image. *)
Lemma refreshChapters_extracts_only (chapters : list ChapterInfo.t) :
  forall nth,
    extractImages && negb (isDisc (Video.VideoType video)) = false ->
    extractions (refreshChapters W video extractImages runtimeTicks currentImages nth chapters)
    = [].
Proof.
  induction chapters as [|chapter rest IH]; intros nth Hno; [reflexivity|].
  cbn [refreshChapters]. loop_cases; cbn; try reflexivity; try (apply IH, Hno);
    subst; cbn in Hno; try discriminate Hno.
  all: match goal with H : isDisc _ = false |- _ => rewrite H in Hno; discriminate Hno end.
Qed.

(** Every extraction is made for a chapter of the list that starts before
    the end of the video and whose image is not among the saved ones, at
    the path and the time of that chapter. *)
Lemma refreshChapters_extractions (chapters : list ChapterInfo.t) :
  forall nth n path time,
    In (AExtract n path time)
       (extractions (refreshChapters W video extractImages runtimeTicks currentImages nth
                       chapters)) ->
    exists chapter,
      nth <= n /\ chapters !! (n - nth) = Some chapter
      /\ (ChapterInfo.StartPositionTicks chapter < runtimeTicks)%Z
      /\ path = GetChapterImagePath W video (ChapterInfo.StartPositionTicks chapter)
      /\ time = extractionTime video chapter
      /\ ContainsIgnoreCase W currentImages path = false.
Proof.
  induction chapters as [|chapter rest IH]; intros nth n path time Hin; [destruct Hin|].
  cbn [refreshChapters] in Hin.
  assert (Hrest : In (AExtract n path time)
                    (extractions (refreshChapters W video extractImages runtimeTicks
                                    currentImages (S nth) rest)) ->
                  exists chapter0,
                    nth <= n /\ (chapter :: rest) !! (n - nth) = Some chapter0
                    /\ (ChapterInfo.StartPositionTicks chapter0 < runtimeTicks)%Z
                    /\ path = GetChapterImagePath W video
                                (ChapterInfo.StartPositionTicks chapter0)
                    /\ time = extractionTime video chapter0
                    /\ ContainsIgnoreCase W currentImages path = false).
  { intros H. destruct (IH _ _ _ _ H) as (c & Hle & Hl & Hrest).
    exists c. split; [lia|]. split; [|exact Hrest].
    replace (n - nth) with (S (n - S nth)) by lia. exact Hl. }
  assert (Hhere : AExtract nth
                    (GetChapterImagePath W video (ChapterInfo.StartPositionTicks chapter))
                    (extractionTime video chapter) = AExtract n path time ->
                  (runtimeTicks <=? ChapterInfo.StartPositionTicks chapter)%Z = false ->
                  negb (ContainsIgnoreCase W currentImages
                          (GetChapterImagePath W video
                             (ChapterInfo.StartPositionTicks chapter))) = true ->
                  exists chapter0,
                    nth <= n /\ (chapter :: rest) !! (n - nth) = Some chapter0
                    /\ (ChapterInfo.StartPositionTicks chapter0 < runtimeTicks)%Z
                    /\ path = GetChapterImagePath W video
                                (ChapterInfo.StartPositionTicks chapter0)
                    /\ time = extractionTime video chapter0
                    /\ ContainsIgnoreCase W currentImages path = false).
  { intros Heq Hrun Hnot. inversion Heq; subst. exists chapter.
    split; [lia|]. split; [rewrite Nat.sub_diag; reflexivity|].
    split; [apply Z.leb_gt, Hrun|]. split; [reflexivity|]. split; [reflexivity|].
    apply negb_true_iff, Hnot. }
  fold (extractionTime video chapter) in Hin.
  revert Hin. loop_cases; cbn; intros Hin; try contradiction; auto.
  - destruct Hin as [Hin|Hin]; auto.
  - destruct Hin as [Hin|[]]; auto.
Qed.

(** The loop leaves alone the first chapter that starts at or after the
    end of the video, and every chapter after it. *)
Lemma refreshChapters_break (pre : list ChapterInfo.t) :
  forall nth chapter post,
    (runtimeTicks <= ChapterInfo.StartPositionTicks chapter)%Z ->
    drop (length pre)
      (loopChapters (refreshChapters W video extractImages runtimeTicks currentImages nth
                       (pre ++ chapter :: post)))
    = chapter :: post.
Proof.
  induction pre as [|c pre IH]; intros nth chapter post Hle.
  - cbn. apply Z.leb_le in Hle. rewrite Hle. reflexivity.
  - cbn [app refreshChapters length]. loop_cases; cbn [loopChapters before drop];
      try (apply IH, Hle).
    all: clear IH; induction pre; cbn; congruence.
Qed.

(** When the loop has changed nothing, the chapters are as they were. *)
Lemma refreshChapters_unchanged (chapters : list ChapterInfo.t) :
  forall nth,
    changesMade (refreshChapters W video extractImages runtimeTicks currentImages nth chapters)
    = false ->
    loopChapters (refreshChapters W video extractImages runtimeTicks currentImages nth chapters)
    = chapters.
Proof.
  induction chapters as [|chapter rest IH]; intros nth; [reflexivity|].
  cbn [refreshChapters]. loop_cases; cbn; intros Hno; try reflexivity;
    try discriminate Hno; rewrite IH by exact Hno; reflexivity.
Qed.

(** When [success] is false after the loop, the last extraction is the one
    that failed, those before it went well, and the chapters from the
    failing one on are as they were. *)
Lemma refreshChapters_failure (chapters : list ChapterInfo.t) :
  forall nth,
    success (refreshChapters W video extractImages runtimeTicks currentImages nth chapters)
    = false ->
    exists pre n path time,
      extractions (refreshChapters W video extractImages runtimeTicks currentImages nth
                     chapters)
      = pre ++ [AExtract n path time]
      /\ encoder_ExtractVideoImage W n video path time = false
      /\ forallb (extracted W video) pre = true
      /\ nth <= n
      /\ drop (n - nth)
           (loopChapters (refreshChapters W video extractImages runtimeTicks currentImages
                            nth chapters))
         = drop (n - nth) chapters.
Proof.
  induction chapters as [|chapter rest IH]; intros nth; [discriminate|].
  assert (Hrest : forall c' acts,
            forallb (extracted W video) acts = true ->
            success (refreshChapters W video extractImages runtimeTicks currentImages
                       (S nth) rest) = false ->
            exists pre n path time,
              acts ++ extractions (refreshChapters W video extractImages runtimeTicks
                                     currentImages (S nth) rest)
              = pre ++ [AExtract n path time]
              /\ encoder_ExtractVideoImage W n video path time = false
              /\ forallb (extracted W video) pre = true
              /\ nth <= n
              /\ drop (n - nth)
                   (c' :: loopChapters (refreshChapters W video extractImages runtimeTicks
                                          currentImages (S nth) rest))
                 = drop (n - nth) (chapter :: rest)).
  { intros c' acts Hacts Hf.
    destruct (IH _ Hf) as (pre & n & path & time & Hex & Hfail & Hpre & Hle & Hdrop).
    exists (acts ++ pre), n, path, time.
    split; [rewrite Hex, app_assoc; reflexivity|]. split; [exact Hfail|].
    split; [rewrite forallb_app, Hacts, Hpre; reflexivity|]. split; [lia|].
    replace (n - nth) with (S (n - S nth)) by lia. exact Hdrop. }
  cbn [refreshChapters]. loop_cases; cbn [success before extractions loopChapters];
    intros Hf; try discriminate Hf;
    try (apply (Hrest _ []); [reflexivity|exact Hf]).
  all: try (eapply Hrest; [|exact Hf]; cbn;
            match goal with H : encoder_ExtractVideoImage _ _ _ _ _ = true |- _ =>
              rewrite H end; reflexivity).
  all: eexists [], nth, _, _; split; [reflexivity|]; split; [eassumption|];
    split; [reflexivity|]; split; [lia|]; reflexivity.
Qed.

(** The loop changes image paths only: the chapters keep their number,
    their order and their start positions. *)
Lemma refreshChapters_positions (chapters : list ChapterInfo.t) :
  forall nth,
    map ChapterInfo.StartPositionTicks
      (loopChapters (refreshChapters W video extractImages runtimeTicks currentImages nth
                       chapters))
    = map ChapterInfo.StartPositionTicks chapters.
Proof.
  induction chapters as [|chapter rest IH]; intros nth; [reflexivity|].
  cbn [refreshChapters]. loop_cases; cbn; try reflexivity; rewrite IH; reflexivity.
Qed.

End ChapterLoop.

Lemma Except_in (W : World) (first : list string) :
  forall second x,
    In x (Except W first second) ->
    In x first /\ ContainsIgnoreCase W second x = false.
Proof.
  induction first as [|y first IH]; intros second x Hin; [destruct Hin|].
  cbn in Hin. destruct (ContainsIgnoreCase W second y) eqn:Hy.
  - destruct (IH _ _ Hin) as [H1 H2]. split; [right; exact H1|exact H2].
  - destruct Hin as [->|Hin]; [split; [left; reflexivity|exact Hy]|].
    destruct (IH _ _ Hin) as [H1 H2]. split; [right; exact H1|].
    cbn in H2. apply orb_false_iff in H2. apply H2.
Qed.

Lemma deleteImages_in (W : World) (images : list string) :
  forall nth path, In (ADelete path) (snd (deleteImages W nth images)) -> In path images.
Proof.
  induction images as [|image rest IH]; intros nth path Hin; [destruct Hin|].
  cbn in Hin. destruct (fileSystem_DeleteFile W nth image).
  - destruct (deleteImages W (S nth) rest) as [ok acts] eqn:Hd. cbn in Hin.
    destruct Hin as [Heq|Hin]; [inversion Heq; left; reflexivity|].
    right. apply (IH (S nth)). rewrite Hd. exact Hin.
  - destruct (deleteImages W (S nth) rest) as [ok acts] eqn:Hd. cbn in Hin.
    destruct Hin as [Heq|Hin]; [inversion Heq; left; reflexivity|].
    right. apply (IH (S nth)). rewrite Hd. exact Hin.
  - destruct Hin as [Heq|[]]. inversion Heq. left. reflexivity.
Qed.

Lemma deleteImages_only_deletes (W : World) (images : list string) :
  forall nth, Forall (fun a => isExtract a = false /\ isSave a = false)
                (snd (deleteImages W nth images)).
Proof.
  induction images as [|image rest IH]; intros nth; [constructor|].
  cbn. destruct (fileSystem_DeleteFile W nth image).
  - specialize (IH (S nth)). destruct (deleteImages W (S nth) rest) as [ok acts].
    constructor; [split; reflexivity|exact IH].
  - specialize (IH (S nth)). destruct (deleteImages W (S nth) rest) as [ok acts].
    constructor; [split; reflexivity|exact IH].
  - constructor; [split; reflexivity|constructor].
Qed.

Lemma refreshChapters_only_extracts (W : World) (video : Video.t) (extractImages : bool)
    (runtimeTicks : Z) (currentImages : list string) (chapters : list ChapterInfo.t) :
  forall nth,
    Forall (fun a => isExtract a = true)
      (extractions (refreshChapters W video extractImages runtimeTicks currentImages nth
                      chapters)).
Proof.
  induction chapters as [|chapter rest IH]; intros nth; [constructor|].
  cbn [refreshChapters].
  repeat match goal with
    | |- context [if ?b then _ else _] =>
        lazymatch b with
        | context [refreshChapters] => fail
        | _ => destruct b eqn:?
        end
    end; cbn; repeat constructor; apply IH.
Qed.

(** What a call of [RefreshChapterImages] is made of: the loop, then the
    save and the deletions. *)
Lemma RefreshChapterImages_anatomy (W : World) (options : ChapterImageRefreshOptions.t) :
  match GetSavedChapterImages W (ChapterImageRefreshOptions.Video options) with
  | None =>
      RefreshChapterImages W options
      = mkRefreshed Throws (ChapterImageRefreshOptions.Chapters options) []
  | Some currentImages =>
      let l := loopOf W options currentImages in
      refreshed (RefreshChapterImages W options) = loopChapters l
      /\ exists tail,
           performed (RefreshChapterImages W options) = extractions l ++ tail
           /\ Forall (fun a => isExtract a = false) tail
           /\ (forall id cs, In (ASave id cs) tail ->
                 ChapterImageRefreshOptions.SaveChapters options = true
                 /\ changesMade l = true
                 /\ id = Video.Id (ChapterImageRefreshOptions.Video options)
                 /\ cs = loopChapters l)
           /\ (forall path, In (ADelete path) tail ->
                 In path (deadImages W currentImages (loopChapters l)))
           /\ match outcome (RefreshChapterImages W options) with
              | Returns b =>
                  b = success l
                  /\ (ChapterImageRefreshOptions.SaveChapters options = true ->
                      changesMade l = true ->
                      In (ASave (Video.Id (ChapterImageRefreshOptions.Video options))
                            (loopChapters l)) tail)
              | Throws => True
              end
  end.
Proof.
  unfold RefreshChapterImages, DeleteDeadImages.
  destruct (GetSavedChapterImages W (ChapterImageRefreshOptions.Video options))
    as [currentImages|]; [|reflexivity].
  fold (loopOf W options currentImages). cbn zeta.
  set (l := loopOf W options currentImages).
  pose proof (deleteImages_only_deletes W (deadImages W currentImages (loopChapters l)) 0)
    as Honly.
  pose proof (deleteImages_in W (deadImages W currentImages (loopChapters l)) 0) as Hin.
  destruct (deleteImages W 0 (deadImages W currentImages (loopChapters l)))
    as [ok deletions].
  cbn [snd] in Honly, Hin.
  assert (Hnoex : Forall (fun a => isExtract a = false) deletions).
  { eapply Forall_impl; [exact Honly|]. intros a Ha. apply Ha. }
  assert (Hnosave : forall id cs, ~ In (ASave id cs) deletions).
  { intros id cs H. rewrite List.Forall_forall in Honly.
    destruct (Honly _ H) as [_ Hs]. discriminate Hs. }
  destruct (escaped l) eqn:Hesc; cbn.
  { split; [reflexivity|]. exists []. rewrite app_nil_r.
    split; [reflexivity|]. split; [constructor|].
    split; [intros id cs []|]. split; [intros path []|exact I]. }
  destruct (ChapterImageRefreshOptions.SaveChapters options) eqn:Hsave;
    destruct (changesMade l) eqn:Hch; cbn.
  1: destruct (chapterManager_SaveChapters W _ _); cbn.
  all: split; [reflexivity|].
  - exists (ASave (Video.Id (ChapterImageRefreshOptions.Video options)) (loopChapters l)
            :: deletions).
    split; [reflexivity|]. split; [constructor; [reflexivity|exact Hnoex]|].
    split; [intros id cs [Heq|H]; [inversion Heq; auto|destruct (Hnosave _ _ H)]|].
    split; [intros path [Heq|H]; [discriminate Heq|apply Hin, H]|].
    destruct ok; [|exact I]. split; [reflexivity|]. intros _ _. left. reflexivity.
  - exists [ASave (Video.Id (ChapterImageRefreshOptions.Video options)) (loopChapters l)].
    split; [reflexivity|]. split; [repeat constructor|].
    split; [intros id cs [Heq|[]]; inversion Heq; auto|].
    split; [intros path [Heq|[]]; discriminate Heq|exact I].
  - exists deletions. split; [reflexivity|]. split; [exact Hnoex|].
    split; [intros id cs H; destruct (Hnosave _ _ H)|]. split; [exact Hin|].
    destruct ok; [|exact I]. split; [reflexivity|]. intros _ H; discriminate H.
  - exists deletions. split; [reflexivity|]. split; [exact Hnoex|].
    split; [intros id cs H; destruct (Hnosave _ _ H)|]. split; [exact Hin|].
    destruct ok; [|exact I]. split; [reflexivity|]. intros H; discriminate H.
  - exists deletions. split; [reflexivity|]. split; [exact Hnoex|].
    split; [intros id cs H; destruct (Hnosave _ _ H)|]. split; [exact Hin|].
    destruct ok; [|exact I]. split; [reflexivity|]. intros H; discriminate H.
Qed.

(** A deletion is reached only past the loop and the save: no exception
    has left the loop, and every save that was made has returned. *)
Lemma RefreshChapterImages_deletes_last (W : World) (options : ChapterImageRefreshOptions.t)
    (currentImages : list string) (path : string) :
  GetSavedChapterImages W (ChapterImageRefreshOptions.Video options) = Some currentImages ->
  In (ADelete path) (performed (RefreshChapterImages W options)) ->
  escaped (loopOf W options currentImages) = false
  /\ forall id cs,
       In (ASave id cs) (performed (RefreshChapterImages W options)) ->
       chapterManager_SaveChapters W id cs = true.
Proof.
  unfold RefreshChapterImages, DeleteDeadImages. intros Hsaved. rewrite Hsaved.
  fold (loopOf W options currentImages). cbn zeta.
  set (l := loopOf W options currentImages).
  assert (Hex : forall a, In a (extractions l) -> isExtract a = true).
  { apply List.Forall_forall. unfold l, loopOf. cbn zeta.
    apply refreshChapters_only_extracts. }
  pose proof (deleteImages_only_deletes W (deadImages W currentImages (loopChapters l)) 0)
    as Honly.
  destruct (deleteImages W 0 (deadImages W currentImages (loopChapters l)))
    as [ok deletions].
  cbn [snd] in Honly. rewrite List.Forall_forall in Honly.
  destruct (escaped l) eqn:Hesc; cbn [performed].
  { intros Hin. apply Hex in Hin. discriminate Hin. }
  destruct (ChapterImageRefreshOptions.SaveChapters options && changesMade l).
  - destruct (chapterManager_SaveChapters W _ _) eqn:Hcall; cbn [performed].
    + intros _. split; [reflexivity|]. intros id cs Hin.
      apply in_app_or in Hin. destruct Hin as [Hin|[Heq|Hin]].
      * apply Hex in Hin. discriminate Hin.
      * inversion Heq; subst. exact Hcall.
      * destruct (Honly _ Hin) as [_ Hs]. discriminate Hs.
    + intros Hin. apply in_app_or in Hin. destruct Hin as [Hin|[Heq|[]]].
      * apply Hex in Hin. discriminate Hin.
      * discriminate Heq.
  - cbn [performed]. intros _. split; [reflexivity|]. intros id cs Hin.
    apply in_app_or in Hin. destruct Hin as [Hin|Hin].
    + apply Hex in Hin. discriminate Hin.
    + destruct (Honly _ Hin) as [_ Hs]. discriminate Hs.
Qed.

Section Refresh.

Variable W : World.

(** X20. When [RefreshChapterImages] returns, it returns [true] exactly
    when every extraction it attempted went well: neither the save of the
    chapters nor the deletion of dead images has a part in the result. *)
Theorem RefreshChapterImages_result (options : ChapterImageRefreshOptions.t) :
  match outcome (RefreshChapterImages W options) with
  | Returns success =>
      success = forallb (extracted W (ChapterImageRefreshOptions.Video options))
                  (performed (RefreshChapterImages W options))
  | Throws => True
  end.
Proof.
  pose proof (RefreshChapterImages_anatomy W options) as Ha.
  destruct (GetSavedChapterImages W (ChapterImageRefreshOptions.Video options))
    as [currentImages|]; [|rewrite Ha; exact I].
  cbn zeta in Ha. destruct Ha as (_ & tail & Hp & Hno & _ & _ & Hout).
  destruct (outcome (RefreshChapterImages W options)) as [b|]; [|exact I].
  destruct Hout as [-> _]. rewrite Hp, forallb_app.
  unfold loopOf. cbn zeta. rewrite <- refreshChapters_success.
  replace (forallb _ tail) with true; [rewrite andb_true_r; reflexivity|].
  symmetry. apply forallb_forall. intros a Hin. rewrite List.Forall_forall in Hno.
  specialize (Hno a Hin). destruct a; try reflexivity. discriminate Hno.
Qed.

(** X21. When [RefreshChapterImages] returns [false], one extraction has
    failed.  It is the last one attempted: those before it went well and
    nothing is extracted after it (the [break] of line 158), though the
    save and the deletions still follow.  The chapters from the failing
    one on are as they were given. *)
Theorem RefreshChapterImages_stops_at_failure (options : ChapterImageRefreshOptions.t) :
  outcome (RefreshChapterImages W options) = Returns false ->
  exists pre n path time tail,
    performed (RefreshChapterImages W options) = pre ++ AExtract n path time :: tail
    /\ encoder_ExtractVideoImage W n (ChapterImageRefreshOptions.Video options) path time
       = false
    /\ forallb (extracted W (ChapterImageRefreshOptions.Video options)) pre = true
    /\ Forall (fun a => isExtract a = false) tail
    /\ drop n (refreshed (RefreshChapterImages W options))
       = drop n (ChapterImageRefreshOptions.Chapters options).
Proof.
  intros Hout.
  pose proof (RefreshChapterImages_anatomy W options) as Ha.
  destruct (GetSavedChapterImages W (ChapterImageRefreshOptions.Video options))
    as [currentImages|]; [|rewrite Ha in Hout; discriminate Hout].
  cbn zeta in Ha. destruct Ha as (Hr & tail & Hp & Hno & _ & _ & Hb).
  rewrite Hout in Hb. destruct Hb as [Hs _]. symmetry in Hs.
  unfold loopOf in *. cbn zeta in *.
  destruct (refreshChapters_failure W _ _ _ _ _ _ Hs)
    as (pre & n & path & time & Hex & Hfail & Hpre & _ & Hdrop).
  exists pre, n, path, time, tail.
  split; [rewrite Hp, Hex, <- app_assoc; reflexivity|]. split; [exact Hfail|].
  split; [exact Hpre|]. split; [exact Hno|].
  rewrite Hr. rewrite Nat.sub_0_r in Hdrop. exact Hdrop.
Qed.

(** X22. The first chapter that starts at or after the end of the video
    stops the refresh (lines 115-119): that chapter and all the chapters
    after it are as they were given, whatever image paths they hold. *)
Theorem RefreshChapterImages_stops_at_runtime (options : ChapterImageRefreshOptions.t)
    (pre post : list ChapterInfo.t) (chapter : ChapterInfo.t) :
  ChapterImageRefreshOptions.Chapters options = pre ++ chapter :: post ->
  (default 0 (Video.RunTimeTicks (ChapterImageRefreshOptions.Video options))
   <= ChapterInfo.StartPositionTicks chapter)%Z ->
  drop (length pre) (refreshed (RefreshChapterImages W options)) = chapter :: post.
Proof.
  intros Hch Hle.
  pose proof (RefreshChapterImages_anatomy W options) as Ha.
  destruct (GetSavedChapterImages W (ChapterImageRefreshOptions.Video options))
    as [currentImages|].
  - cbn zeta in Ha. destruct Ha as (Hr & _). rewrite Hr. unfold loopOf. cbn zeta.
    rewrite Hch. apply refreshChapters_break, Hle.
  - rewrite Ha. cbn. rewrite Hch. clear. induction pre; cbn; congruence.
Qed.

(** X23. For a video of unknown runtime the runtime counts as 0 (line
    109).  When no chapter starts before 0, nothing is extracted and
    nothing is saved, the chapters are as they were given, and the method
    does not return [false]. *)
Theorem RefreshChapterImages_unknown_runtime (options : ChapterImageRefreshOptions.t) :
  Video.RunTimeTicks (ChapterImageRefreshOptions.Video options) = None ->
  Forall (fun c => (0 <= ChapterInfo.StartPositionTicks c)%Z)
    (ChapterImageRefreshOptions.Chapters options) ->
  refreshed (RefreshChapterImages W options) = ChapterImageRefreshOptions.Chapters options
  /\ Forall (fun a => isExtract a = false /\ isSave a = false)
       (performed (RefreshChapterImages W options))
  /\ outcome (RefreshChapterImages W options) <> Returns false.
Proof.
  intros Hrun Hpos.
  pose proof (RefreshChapterImages_anatomy W options) as Ha.
  destruct (GetSavedChapterImages W (ChapterImageRefreshOptions.Video options))
    as [currentImages|]; [|rewrite Ha; cbn; repeat split; [constructor|discriminate]].
  cbn zeta in Ha.
  assert (Hl : loopOf W options currentImages
               = mkLoop false true false (ChapterImageRefreshOptions.Chapters options) []).
  { unfold loopOf. cbn zeta. rewrite Hrun. cbn [default].
    destruct (ChapterImageRefreshOptions.Chapters options) as [|c rest]; [reflexivity|].
    inversion Hpos as [|? ? Hc _]; subst. cbn [refreshChapters].
    apply Z.leb_le in Hc. rewrite Hc. reflexivity. }
  rewrite Hl in Ha. cbn in Ha. destruct Ha as (Hr & tail & Hp & Hno & Hsave & _ & Hout).
  split; [exact Hr|]. split.
  - rewrite Hp. rewrite List.Forall_forall in *. intros a Hin.
    split; [apply Hno, Hin|]. destruct a as [| id cs |]; try reflexivity.
    destruct (Hsave id cs Hin) as (_ & Hch & _). discriminate Hch.
  - intros Hf. rewrite Hf in Hout. destruct Hout as [Hb _]. discriminate Hb.
Qed.

(** X24. Every extraction that is attempted was asked for
    ([ExtractImages]), for a video that is eligible and is not a disc image
    (HdDvd, Iso, BluRay); it is made for a chapter of the list that starts
    before the end of the video and whose image is not among the saved
    ones, to the image path of that chapter, and at the time of line 133:
    a time within the runtime, and after 0 unless the chapter starts
    before 0. *)
Theorem RefreshChapterImages_extractions (options : ChapterImageRefreshOptions.t)
    (n : nat) (path : string) (time : Z) :
  In (AExtract n path time) (performed (RefreshChapterImages W options)) ->
  ChapterImageRefreshOptions.ExtractImages options = true
  /\ IsEligibleForChapterImageExtraction W (ChapterImageRefreshOptions.Video options) = true
  /\ isDisc (Video.VideoType (ChapterImageRefreshOptions.Video options)) = false
  /\ exists chapter images,
       ChapterImageRefreshOptions.Chapters options !! n = Some chapter
       /\ GetSavedChapterImages W (ChapterImageRefreshOptions.Video options) = Some images
       /\ ContainsIgnoreCase W images path = false
       /\ path = GetChapterImagePath W (ChapterImageRefreshOptions.Video options)
                   (ChapterInfo.StartPositionTicks chapter)
       /\ time = extractionTime (ChapterImageRefreshOptions.Video options) chapter
       /\ (ChapterInfo.StartPositionTicks chapter
           < default 0 (Video.RunTimeTicks (ChapterImageRefreshOptions.Video options)))%Z
       /\ (time <= default 0 (Video.RunTimeTicks (ChapterImageRefreshOptions.Video options)))%Z
       /\ ((0 <= ChapterInfo.StartPositionTicks chapter)%Z -> (0 < time)%Z).
Proof.
  intros Hin.
  pose proof (RefreshChapterImages_anatomy W options) as Ha.
  destruct (GetSavedChapterImages W (ChapterImageRefreshOptions.Video options))
    as [currentImages|] eqn:Hsaved; [|rewrite Ha in Hin; destruct Hin].
  cbn zeta in Ha. destruct Ha as (_ & tail & Hp & Hno & _).
  rewrite Hp in Hin. apply in_app_or in Hin. destruct Hin as [Hin|Hin].
  2:{ rewrite List.Forall_forall in Hno. specialize (Hno _ Hin). discriminate Hno. }
  unfold loopOf in Hin. cbn zeta in Hin.
  assert (Hflags : (if negb (IsEligibleForChapterImageExtraction W
                               (ChapterImageRefreshOptions.Video options))
                    then false else ChapterImageRefreshOptions.ExtractImages options)
                   && negb (isDisc (Video.VideoType (ChapterImageRefreshOptions.Video options)))
                   = true).
  { apply not_false_is_true. intros Hf.
    rewrite (refreshChapters_extracts_only W _ _ _ _ _ _ Hf) in Hin. destruct Hin. }
  apply andb_true_iff in Hflags. destruct Hflags as [Hex Hdisc].
  apply negb_true_iff in Hdisc.
  destruct (IsEligibleForChapterImageExtraction W (ChapterImageRefreshOptions.Video options));
    [|discriminate Hex]. cbn in Hex.
  split; [exact Hex|]. split; [reflexivity|]. split; [exact Hdisc|].
  destruct (refreshChapters_extractions W _ _ _ _ _ _ _ _ _ Hin)
    as (chapter & _ & Hl & Hlt & Hpath & Htime & Hnew).
  rewrite Nat.sub_0_r in Hl. exists chapter, currentImages.
  split; [exact Hl|]. split; [reflexivity|]. split; [exact Hnew|]. split; [exact Hpath|]. split; [exact Htime|]. split; [exact Hlt|].
  rewrite Htime. unfold extractionTime, FirstChapterTicks.
  destruct (ChapterInfo.StartPositionTicks chapter =? 0)%Z eqn:H0.
  - apply Z.eqb_eq in H0. split; [lia|]. intros _. lia.
  - apply Z.eqb_neq in H0. split; [lia|]. intros Hpos. lia.
Qed.

(** X25. Only dead images are deleted, and only past the loop and the
    save.  A path that is deleted is one of the saved chapter images of
    the video, has a supported image extension, and no chapter refers to
    it once the refresh is done.  When a path is deleted, no exception
    has left the loop over the chapters and every save that was made has
    returned: nothing is deleted when the loop or the save throws. *)
Theorem RefreshChapterImages_deletes_only_dead (options : ChapterImageRefreshOptions.t)
    (path : string) :
  In (ADelete path) (performed (RefreshChapterImages W options)) ->
  (exists images,
     GetSavedChapterImages W (ChapterImageRefreshOptions.Video options) = Some images
     /\ In path images
     /\ escaped (loopOf W options images) = false)
  /\ (forall id cs,
        In (ASave id cs) (performed (RefreshChapterImages W options)) ->
        chapterManager_SaveChapters W id cs = true)
  /\ ContainsIgnoreCase W (SupportedImageExtensions W) (Path_GetExtension W path) = true
  /\ ContainsIgnoreCase W (referenced (refreshed (RefreshChapterImages W options))) path
     = false.
Proof.
  intros Hin.
  pose proof (RefreshChapterImages_anatomy W options) as Ha.
  pose proof (RefreshChapterImages_deletes_last W options) as Hlast.
  destruct (GetSavedChapterImages W (ChapterImageRefreshOptions.Video options))
    as [currentImages|]; [|rewrite Ha in Hin; destruct Hin].
  destruct (Hlast currentImages path eq_refl Hin) as [Hesc Hsaves].
  cbn zeta in Ha. destruct Ha as (Hr & tail & Hp & _ & _ & Hdel & _).
  rewrite Hp in Hin. apply in_app_or in Hin. destruct Hin as [Hin|Hin].
  { unfold loopOf in Hin. cbn zeta in Hin.
    match type of Hin with
    | In _ (extractions (refreshChapters _ ?v ?e ?rt _ _ _)) =>
        pose proof (refreshChapters_only_extracts W v e rt currentImages
                      (ChapterImageRefreshOptions.Chapters options) 0) as Hall
    end.
    rewrite List.Forall_forall in Hall. specialize (Hall _ Hin). discriminate Hall. }
  specialize (Hdel _ Hin). unfold deadImages in Hdel.
  apply filter_In in Hdel. destruct Hdel as [Hex Hsup].
  apply Except_in in Hex. destruct Hex as [Himg Href].
  split; [exists currentImages; split; [reflexivity|split; [exact Himg|exact Hesc]]|].
  split; [exact Hsaves|].
  split; [exact Hsup|]. rewrite Hr. exact Href.
Qed.

(** X26. The chapters are saved only when the caller asked for it
    ([SaveChapters]), under the id of the video and as the refresh leaves
    them. *)
Theorem RefreshChapterImages_saves_when_asked (options : ChapterImageRefreshOptions.t)
    (id : string) (cs : list ChapterInfo.t) :
  In (ASave id cs) (performed (RefreshChapterImages W options)) ->
  ChapterImageRefreshOptions.SaveChapters options = true
  /\ id = Video.Id (ChapterImageRefreshOptions.Video options)
  /\ cs = refreshed (RefreshChapterImages W options).
Proof.
  intros Hin.
  pose proof (RefreshChapterImages_anatomy W options) as Ha.
  destruct (GetSavedChapterImages W (ChapterImageRefreshOptions.Video options))
    as [currentImages|]; [|rewrite Ha in Hin; destruct Hin].
  cbn zeta in Ha. destruct Ha as (Hr & tail & Hp & _ & Hsave & _).
  rewrite Hp in Hin. apply in_app_or in Hin. destruct Hin as [Hin|Hin].
  { unfold loopOf in Hin. cbn zeta in Hin.
    match type of Hin with
    | In _ (extractions (refreshChapters _ ?v ?e ?rt _ _ _)) =>
        pose proof (refreshChapters_only_extracts W v e rt currentImages
                      (ChapterImageRefreshOptions.Chapters options) 0) as Hall
    end.
    rewrite List.Forall_forall in Hall. specialize (Hall _ Hin). discriminate Hall. }
  destruct (Hsave _ _ Hin) as (H1 & Hch & H2 & H3). rewrite Hr.
  split; [exact H1|]. split; [exact H2|exact H3].
Qed.

(** X27. When [RefreshChapterImages] returns, the caller asked for
    saving and the chapters are no longer as they were given, the chapters
    have been saved as the refresh leaves them. *)
Theorem RefreshChapterImages_saves_changes (options : ChapterImageRefreshOptions.t)
    (success : bool) :
  outcome (RefreshChapterImages W options) = Returns success ->
  ChapterImageRefreshOptions.SaveChapters options = true ->
  refreshed (RefreshChapterImages W options) <> ChapterImageRefreshOptions.Chapters options ->
  In (ASave (Video.Id (ChapterImageRefreshOptions.Video options))
        (refreshed (RefreshChapterImages W options)))
     (performed (RefreshChapterImages W options)).
Proof.
  intros Hb Hs Hne.
  pose proof (RefreshChapterImages_anatomy W options) as Ha.
  destruct (GetSavedChapterImages W (ChapterImageRefreshOptions.Video options))
    as [currentImages|]; [|rewrite Ha in Hb; discriminate Hb].
  cbn zeta in Ha. destruct Ha as (Hr & tail & Hp & _ & _ & _ & Hout).
  rewrite Hb in Hout. destruct Hout as [_ Hout].
  rewrite Hp, Hr. apply in_or_app. right. apply Hout; [exact Hs|].
  destruct (changesMade (loopOf W options currentImages)) eqn:Hch; [reflexivity|].
  exfalso. apply Hne. rewrite Hr. unfold loopOf in *. cbn zeta in *.
  apply refreshChapters_unchanged, Hch.
Qed.

(** X28. The refresh changes image paths only: the chapters keep their
    number, their order and their start positions, also when the method
    throws. *)
Theorem RefreshChapterImages_keeps_positions (options : ChapterImageRefreshOptions.t) :
  map ChapterInfo.StartPositionTicks (refreshed (RefreshChapterImages W options))
  = map ChapterInfo.StartPositionTicks (ChapterImageRefreshOptions.Chapters options).
Proof.
  pose proof (RefreshChapterImages_anatomy W options) as Ha.
  destruct (GetSavedChapterImages W (ChapterImageRefreshOptions.Video options))
    as [currentImages|]; [|rewrite Ha; reflexivity].
  cbn zeta in Ha. destruct Ha as (Hr & _). rewrite Hr. unfold loopOf. cbn zeta.
  apply refreshChapters_positions.
Qed.

End Refresh.

(** ** Instances *)

Lemma RefreshChapterImages_stops_at_failure_witness :
  exists pre n path time tail,
    performed (RefreshChapterImages (world_of [] (Nat.eqb 0)) refresh1)
    = pre ++ AExtract n path time :: tail
    /\ encoder_ExtractVideoImage (world_of [] (Nat.eqb 0)) n movie1 path time = false
    /\ forallb (extracted (world_of [] (Nat.eqb 0)) movie1) pre = true
    /\ Forall (fun a => isExtract a = false) tail
    /\ drop n (refreshed (RefreshChapterImages (world_of [] (Nat.eqb 0)) refresh1))
       = drop n chapters1.
Proof.
  apply (RefreshChapterImages_stops_at_failure (world_of [] (Nat.eqb 0)) refresh1).
  reflexivity.
Defined.

Lemma RefreshChapterImages_stops_at_runtime_witness :
  drop 2 (refreshed (RefreshChapterImages (world_of [] (fun _ => true)) refresh1))
  = [ChapterInfo.mk 9000000000 None].
Proof.
  apply (RefreshChapterImages_stops_at_runtime (world_of [] (fun _ => true)) refresh1
           [ChapterInfo.mk 0 None; ChapterInfo.mk 3000000000 None] []
           (ChapterInfo.mk 9000000000 None)).
  - reflexivity.
  - cbn. lia.
Defined.

Lemma RefreshChapterImages_unknown_runtime_witness :
  refreshed (RefreshChapterImages (world_of [] (fun _ => true)) refresh2) = chapters1
  /\ Forall (fun a => isExtract a = false /\ isSave a = false)
       (performed (RefreshChapterImages (world_of [] (fun _ => true)) refresh2))
  /\ outcome (RefreshChapterImages (world_of [] (fun _ => true)) refresh2) <> Returns false.
Proof.
  apply (RefreshChapterImages_unknown_runtime (world_of [] (fun _ => true)) refresh2).
  - reflexivity.
  - repeat constructor; cbn; lia.
Defined.

Lemma RefreshChapterImages_extractions_witness :
  IsEligibleForChapterImageExtraction (world_of [] (fun _ => true)) movie1 = true
  /\ exists chapter,
       chapters1 !! 0 = Some chapter
       /\ "/meta/v1/chapters/42_0.jpg"
          = GetChapterImagePath (world_of [] (fun _ => true)) movie1
              (ChapterInfo.StartPositionTicks chapter)
       /\ 150000000%Z = extractionTime movie1 chapter.
Proof.
  destruct (RefreshChapterImages_extractions (world_of [] (fun _ => true)) refresh1 0
              "/meta/v1/chapters/42_0.jpg" 150000000)
    as (_ & He & _ & chapter & images & Hc & _ & _ & Hp & Ht & _).
  - vm_compute. left. reflexivity.
  - split; [exact He|]. exists chapter. split; [exact Hc|]. split; [exact Hp|exact Ht].
Defined.

Lemma RefreshChapterImages_deletes_only_dead_witness :
  (exists images,
     GetSavedChapterImages
       (world_of ["/meta/v1/chapters/41_0.jpg"; "/meta/v1/chapters/42_0.jpg"] (fun _ => true))
       movie1 = Some images
     /\ In "/meta/v1/chapters/41_0.jpg" images
     /\ escaped
          (loopOf
             (world_of ["/meta/v1/chapters/41_0.jpg"; "/meta/v1/chapters/42_0.jpg"]
                (fun _ => true)) refresh1 images) = false)
  /\ (forall id cs,
        In (ASave id cs)
           (performed
              (RefreshChapterImages
                 (world_of ["/meta/v1/chapters/41_0.jpg"; "/meta/v1/chapters/42_0.jpg"]
                    (fun _ => true)) refresh1)) ->
        chapterManager_SaveChapters
          (world_of ["/meta/v1/chapters/41_0.jpg"; "/meta/v1/chapters/42_0.jpg"]
             (fun _ => true)) id cs = true)
  /\ ContainsIgnoreCase
       (world_of ["/meta/v1/chapters/41_0.jpg"; "/meta/v1/chapters/42_0.jpg"] (fun _ => true))
       [".jpg"; ".png"] ".jpg" = true
  /\ ContainsIgnoreCase
       (world_of ["/meta/v1/chapters/41_0.jpg"; "/meta/v1/chapters/42_0.jpg"] (fun _ => true))
       (referenced
          (refreshed
             (RefreshChapterImages
                (world_of ["/meta/v1/chapters/41_0.jpg"; "/meta/v1/chapters/42_0.jpg"]
                   (fun _ => true)) refresh1)))
       "/meta/v1/chapters/41_0.jpg" = false.
Proof.
  apply (RefreshChapterImages_deletes_only_dead
           (world_of ["/meta/v1/chapters/41_0.jpg"; "/meta/v1/chapters/42_0.jpg"]
              (fun _ => true)) refresh1 "/meta/v1/chapters/41_0.jpg").
  vm_compute. right. right. left. reflexivity.
Defined.

Lemma RefreshChapterImages_saves_when_asked_witness :
  ChapterImageRefreshOptions.SaveChapters refresh1 = true
  /\ "v1" = Video.Id movie1
  /\ [ChapterInfo.mk 0 (Some "/meta/v1/chapters/42_0.jpg");
      ChapterInfo.mk 3000000000 (Some "/meta/v1/chapters/42_3000000000.jpg");
      ChapterInfo.mk 9000000000 None]
     = refreshed (RefreshChapterImages (world_of [] (fun _ => true)) refresh1).
Proof.
  apply (RefreshChapterImages_saves_when_asked (world_of [] (fun _ => true)) refresh1).
  vm_compute. right. right. left. reflexivity.
Defined.

Lemma RefreshChapterImages_saves_changes_witness :
  In (ASave "v1"
        [ChapterInfo.mk 0 (Some "/meta/v1/chapters/42_0.jpg");
         ChapterInfo.mk 3000000000 (Some "/meta/v1/chapters/42_3000000000.jpg");
         ChapterInfo.mk 9000000000 None])
     (performed (RefreshChapterImages (world_of [] (fun _ => true)) refresh1)).
Proof.
  apply (RefreshChapterImages_saves_changes (world_of [] (fun _ => true)) refresh1 true).
  - reflexivity.
  - reflexivity.
  - vm_compute. discriminate.
Defined.
